(** * vafast-helmet: the security-header middleware, verified

    A shallow embedding of the middleware source ([index.ts]: the
    [tirneHelmet] factory, its header builders and [validateConfig]; in
    this repository it is the second part of [src/test/vafast.test.ts])
    together with the parts of the JavaScript run time the middleware
    relies on: ordinary objects with their property order,
    [Array.prototype.join], [JSON.stringify], the Fetch [Headers] and
    [Response] classes, and base64.

    Conventions of the embedding.
    - A JavaScript string is a Rocq [string]; every character is one UTF-16
      code unit below 256 (Latin-1).
    - A JavaScript number that the program uses as a count of seconds or
      milliseconds is an integer [Z]; its decimal rendering is the one
      JavaScript prints for integers below 10^21 in absolute value.
    - An optional property of a configuration object is a [prop]: it is
      absent, present with the value [undefined], or present with a value.
    - An object used as a record of string keys is the list of its
      properties in creation order, with distinct keys; no key is the name
      of a property of [Object.prototype].
    - [Headers] objects are mutable and live in a store, next to the
      module-level [kebabCache]; a [Response] holds a reference to its
      [Headers] object, and its body is a value.
    - What [process.env.NODE_ENV], [Date.now()] and
      [Math.random().toString(36)] yield is passed in explicitly. *)

From Stdlib Require Import ZArith Ascii String DecimalString DecimalFacts DecimalZ.
From stdpp Require Import gmap strings list fin_maps.

(** ** JavaScript strings, numbers and errors *)

Module Js.

Inductive JsError : Type :=
  | Error (message : string)
  | TypeError (message : string)
  | RangeError (message : string).

Inductive result (A : Type) : Type :=
  | Ok (a : A)
  | Throw (e : JsError).
Arguments Ok {A} a.
Arguments Throw {A} e.

Definition is_upper (c : ascii) : bool :=
  (65 <=? nat_of_ascii c)%nat && (nat_of_ascii c <=? 90)%nat.

Definition lower_char (c : ascii) : ascii :=
  if is_upper c then ascii_of_nat (nat_of_ascii c + 32) else c.

(** [String.prototype.toLowerCase] on the letters A-Z, which is also the
    byte-lowercasing Fetch applies to header names. *)
Fixpoint toLowerCase (s : string) : string :=
  match s with
  | EmptyString => EmptyString
  | String c s' => String (lower_char c) (toLowerCase s')
  end.

(** [Array.prototype.join] on an array of strings. *)
Definition join (sep : string) (l : list string) : string := String.concat sep l.

(** [String(n)] for an integral number that the run time prints in plain
    decimal, that is, below 10^21 in absolute value; from there on the run
    time prints an exponent, which this definition does not. *)
Definition Number_toString (z : Z) : string := NilZero.string_of_int (Z.to_int z).

(** [s.slice(-n)]: the last [n] code units of [s]. *)
Definition slice_last (n : nat) (s : string) : string :=
  String.substring (String.length s - n) n s.

(** *** Ordinary objects

    An ordinary object with string keys is the list of its own enumerable
    properties in creation order.  [Object.entries], [for ... in] and object
    spread visit the array-index keys first, in ascending numeric order, and
    then the other keys in creation order. *)

Definition Obj (V : Type) : Type := list (string * V).

Fixpoint obj_get {V} (o : Obj V) (k : string) : option V :=
  match o with
  | [] => None
  | (k', v) :: o' => if decide (k' = k) then Some v else obj_get o' k
  end.

(** [o[k] = v]: an existing property keeps its place, a new one is created last. *)
Fixpoint obj_set {V} (o : Obj V) (k : string) (v : V) : Obj V :=
  match o with
  | [] => [(k, v)]
  | (k', v') :: o' =>
      if decide (k' = k) then (k', v) :: o' else (k', v') :: obj_set o' k v
  end.

Fixpoint digits_value (s : string) (acc : N) : option N :=
  match s with
  | EmptyString => Some acc
  | String c s' =>
      match Ascii.is_nat c with
      | Some d => digits_value s' (acc * 10 + N.of_nat d)%N
      | None => None
      end
  end.

(** A key is an array index when it is the canonical decimal form of an
    integer between 0 and 2^32 - 2. *)
Definition array_index (k : string) : option N :=
  match k with
  | EmptyString => None
  | String "0" EmptyString => Some 0%N
  | String "0" _ => None
  | _ =>
      match digits_value k 0 with
      | Some n => if (n <? 2 ^ 32 - 1)%N then Some n else None
      | None => None
      end
  end.

Fixpoint insert_by_index {V} (i : N) (p : string * V)
    (l : list (N * (string * V))) : list (N * (string * V)) :=
  match l with
  | [] => [(i, p)]
  | (j, q) :: l' =>
      if (i <=? j)%N then (i, p) :: l else (j, q) :: insert_by_index i p l'
  end.

Fixpoint index_props {V} (o : Obj V) : list (N * (string * V)) :=
  match o with
  | [] => []
  | (k, v) :: o' =>
      match array_index k with
      | Some i => insert_by_index i (k, v) (index_props o')
      | None => index_props o'
      end
  end.

Definition name_props {V} (o : Obj V) : Obj V :=
  List.filter (fun p => match array_index (fst p) with None => true | Some _ => false end) o.

Definition Object_entries {V} (o : Obj V) : list (string * V) :=
  List.map snd (index_props o) ++ name_props o.

(** Assigning a list of properties one after the other. *)
Definition assign_all {V} (l : list (string * V)) (target : Obj V) : Obj V :=
  fold_left (fun t p => obj_set t (fst p) (snd p)) l target.

(** [Object.assign(target, source)], also the step of an object spread.
    Every property of the source becomes a property of the target; on a
    target that inherits from [Object.prototype] the run time does not
    create a property for the key [__proto__], which this definition
    does. *)
Definition Object_assign {V} (target source : Obj V) : Obj V :=
  assign_all (Object_entries source) target.

(** [{ ...a, ...b }] *)
Definition spread2 {V} (a b : Obj V) : Obj V :=
  Object_assign (Object_assign [] a) b.

(** *** JSON

    [JSON.stringify] on the values the program serialises.  A property whose
    value is [undefined] is left out of an object; inside an array it is
    written [null].  The result [None] stands for [undefined]. *)

#[local] Set Warnings "-register-all".
Inductive Json : Type :=
  | JNull
  | JUndefined
  | JBool (b : bool)
  | JNumber (z : Z)
  | JString (s : string)
  | JArray (l : list Json)
  | JObject (o : list (string * Json)).

Definition dquote : ascii := ascii_of_nat 34.

Definition hex_digit (n : nat) : ascii :=
  match String.get n "0123456789abcdef" with Some c => c | None => "0"%char end.

Definition quote_char (c : ascii) : string :=
  let n := nat_of_ascii c in
  if decide (n = 34) then String "\"%char (String dquote "")
  else if decide (n = 92) then "\\"
  else if decide (n = 8) then "\b"
  else if decide (n = 9) then "\t"
  else if decide (n = 10) then "\n"
  else if decide (n = 12) then "\f"
  else if decide (n = 13) then "\r"
  else if decide (n < 32) then
    "\u00" +:+ String (hex_digit (n / 16)) (String (hex_digit (n mod 16)) "")
  else String c "".

Fixpoint quote_body (s : string) : string :=
  match s with
  | EmptyString => EmptyString
  | String c s' => quote_char c +:+ quote_body s'
  end.

(** [QuoteJSONString] *)
Definition quote (s : string) : string := String dquote (quote_body s +:+ String dquote "").

Definition member (p : string * option string) : list string :=
  match snd p with
  | Some v => [quote (fst p) +:+ ":" +:+ v]
  | None => []
  end.

Fixpoint stringify (j : Json) : option string :=
  match j with
  | JNull => Some "null"
  | JUndefined => None
  | JBool b => Some (if b then "true" else "false")
  | JNumber z => Some (Number_toString z)
  | JString s => Some (quote s)
  | JArray l =>
      Some ("[" +:+ join "," (List.map (fun x => default "null" (stringify x)) l) +:+ "]")
  | JObject o =>
      let props := List.map (fun p => match p with (k, v) => (k, stringify v) end) o in
      Some ("{" +:+ join "," (List.flat_map member (Object_entries props)) +:+ "}")
  end.

(** *** Buffers and base64 *)

(** [Buffer.from(s)]: the UTF-8 bytes of a string of Latin-1 code units. *)
Definition utf8_char (c : ascii) : list N :=
  let n := N_of_ascii c in
  if (n <? 128)%N then [n]
  else [N.lor 192 (N.shiftr n 6); N.lor 128 (N.land n 63)].

Fixpoint Buffer_from (s : string) : list N :=
  match s with
  | EmptyString => []
  | String c s' => utf8_char c ++ Buffer_from s'
  end.

Definition b64_alphabet : string :=
  "ABCDEFGHIJKLMNOPQRSTUVWXYZabcdefghijklmnopqrstuvwxyz0123456789+/".

Definition b64_char (n : N) : ascii :=
  match String.get (N.to_nat n) b64_alphabet with Some c => c | None => "="%char end.

(** [buf.toString("base64")] *)
Fixpoint base64 (bs : list N) : string :=
  match bs with
  | [] => ""
  | [a] =>
      String (b64_char (N.shiftr a 2))
        (String (b64_char (N.shiftl (N.land a 3) 4)) "==")
  | [a; b] =>
      String (b64_char (N.shiftr a 2))
        (String (b64_char (N.lor (N.shiftl (N.land a 3) 4) (N.shiftr b 4)))
           (String (b64_char (N.shiftl (N.land b 15) 2)) "="))
  | a :: b :: c :: rest =>
      String (b64_char (N.shiftr a 2))
        (String (b64_char (N.lor (N.shiftl (N.land a 3) 4) (N.shiftr b 4)))
           (String (b64_char (N.lor (N.shiftl (N.land b 15) 2) (N.shiftr c 6)))
              (String (b64_char (N.land c 63)) (base64 rest))))
  end.

End Js.

(** ** Fetch: [Headers] and [Response]

    A header list maps the byte-lowercased header name to its value.
    [Headers] objects are mutable: the store maps the identity of each
    [Headers] object to its current header list.  The store also holds the
    one piece of module-level state of [index.ts], the [kebabCache]. *)

Module Fetch.
Import Js.

Abbreviation HeaderList := (gmap string string).

Record Store : Type := {
  heap : gmap nat (gmap string string);
  kebabCache : gmap string string;
}.

Definition set_heap (st : Store) (h : gmap nat (gmap string string)) : Store :=
  {| heap := h; kebabCache := kebabCache st |}.

Definition set_kebabCache (st : Store) (c : gmap string string) : Store :=
  {| heap := heap st; kebabCache := c |}.

(** Computations that read and update the store and may throw. *)
Definition M (A : Type) : Type := Store -> Store * result A.

Definition ret {A} (a : A) : M A := fun st => (st, Ok a).

Definition throw {A} (e : JsError) : M A := fun st => (st, Throw e).

Definition bind {A B} (m : M A) (k : A -> M B) : M B :=
  fun st =>
    match m st with
    | (st', Ok a) => k a st'
    | (st', Throw e) => (st', Throw e)
    end.

Notation "'let!' x := m 'in' k" := (bind m (fun x => k))
  (at level 10, x name, m at level 200, k at level 200).

(** [for (const x of l) body(x)] *)
Fixpoint for_of {A} (l : list A) (body : A -> M unit) : M unit :=
  match l with
  | [] => ret tt
  | x :: l' => let! _ := body x in for_of l' body
  end.

Definition is_tchar (c : ascii) : bool :=
  let n := nat_of_ascii c in
  ((48 <=? n) && (n <=? 57)) || ((65 <=? n) && (n <=? 90)) || ((97 <=? n) && (n <=? 122))
  || bool_decide (c ∈ list_ascii_of_string "!#$%&'*+-.^_`|~").

Fixpoint string_forallb (f : ascii -> bool) (s : string) : bool :=
  match s with
  | EmptyString => true
  | String c s' => f c && string_forallb f s'
  end.

(** A header name is a non-empty token. *)
Definition valid_name (name : string) : bool :=
  negb (bool_decide (name = "")) && string_forallb is_tchar name.

(** HTTP whitespace: tab, line feed, carriage return, space. *)
Definition is_http_whitespace (c : ascii) : bool :=
  let n := nat_of_ascii c in
  bool_decide (n = 9) || bool_decide (n = 10) || bool_decide (n = 13) || bool_decide (n = 32).

Fixpoint strip_leading (s : string) : string :=
  match s with
  | EmptyString => EmptyString
  | String c s' => if is_http_whitespace c then strip_leading s' else s
  end.

Fixpoint strip_trailing (s : string) : string :=
  match s with
  | EmptyString => EmptyString
  | String c s' =>
      match strip_trailing s' with
      | EmptyString => if is_http_whitespace c then EmptyString else String c EmptyString
      | t => String c t
      end
  end.

(** Fetch normalizes a header value by removing leading and trailing
    HTTP whitespace. *)
Definition normalize (value : string) : string := strip_trailing (strip_leading value).

(** A normalized value is valid when it holds no NUL, LF or CR. *)
Definition valid_value (value : string) : bool :=
  string_forallb
    (fun c => let n := nat_of_ascii c in
              negb (bool_decide (n = 0) || bool_decide (n = 10) || bool_decide (n = 13)))
    value.

(** The header list of the [Headers] object [h]. *)
Definition header_list (st : Store) (h : nat) : gmap string string :=
  default ∅ (heap st !! h).

(** [new Headers(init)] where [init] is a [Headers] object: a new object
    holding a copy of the header list of [init]. *)
Definition new_Headers (init : nat) : M nat :=
  fun st =>
    let h := fresh (dom (heap st)) in
    (set_heap st (<[h := header_list st init]> (heap st)), Ok h).

(** [h.set(name, value)].  The text of the error stands for the text of
    the run time, which differs from one run time to the other; and
    strings being made of code units up to 255, the refusal of a value
    with a larger code unit is not part of the definition. *)
Definition Headers_set (h : nat) (name value : string) : M unit :=
  fun st =>
    let v := normalize value in
    if valid_name name && valid_value v then
      (set_heap st (<[h := <[toLowerCase name := v]> (header_list st h)]> (heap st)), Ok tt)
    else (st, Throw (TypeError "Invalid header name or value")).

(** [h.get(name)] for a valid name, read in store [st]; [None] is [null]. *)
Definition Headers_get (st : Store) (h : nat) (name : string) : option string :=
  header_list st h !! toLowerCase name.

Record Response : Type := {
  status : Z;
  statusText : string;
  body : option string;
  headers : nat;
}.

Definition null_body_status (s : Z) : bool :=
  bool_decide (s ∈ [101; 103; 204; 205; 304]%Z).

(** A reason phrase holds tabs, spaces and visible or obs-text bytes. *)
Definition valid_reason_phrase (s : string) : bool :=
  string_forallb
    (fun c => let n := nat_of_ascii c in
              bool_decide (n = 9) || ((32 <=? n) && negb (bool_decide (n = 127))))
    s.

(** [new Response(body, { status, statusText, headers })] with [headers] a
    [Headers] object: the new response gets a [Headers] object of its own,
    filled from the given one. *)
Definition new_Response (b : option string) (s : Z) (t : string) (h : nat) : M Response :=
  if negb ((200 <=? s)%Z && (s <=? 599)%Z) then
    throw (RangeError "The status provided is outside the range [200, 599]")
  else if negb (valid_reason_phrase t) then
    throw (TypeError "Invalid statusText")
  else
    let! own := new_Headers h in
    if bool_decide (b <> None) && null_body_status s then
      throw (TypeError "Response with null body status cannot have body")
    else ret {| status := s; statusText := t; body := b; headers := own |}.

End Fetch.

(** ** The middleware: [src/index.ts] *)

Module Helmet.
Import Js Fetch.

(** An optional property [k?: T] of a configuration object. *)
Inductive prop (T : Type) : Type :=
  | Absent
  | Undefined
  | Value (v : T).
Arguments Absent {T}.
Arguments Undefined {T}.
Arguments Value {T} v.

(** Reading [o.k]: an absent property reads as [undefined] ([None]). *)
Definition read {T} (p : prop T) : option T :=
  match p with
  | Value v => Some v
  | _ => None
  end.

(** The property [k] of [{ ...a, ...b }]. *)
Definition spread_prop {T} (a b : prop T) : prop T :=
  match b with
  | Absent => a
  | _ => b
  end.

Module ReportToConfig.
Record t : Type := {
  group : string;
  maxAge : Z;
  endpoints : list Json;
  includeSubdomains : option bool;
}.
End ReportToConfig.

(** The value of a [CSPConfig] property: a source list, the [reportUri]
    string, or one of the flags [useNonce] and [reportOnly]. *)
Inductive CSPValue : Type :=
  | CUndefined
  | CBool (b : bool)
  | CString (s : string)
  | CList (l : list string).

Definition CSPConfig : Type := Obj CSPValue.

(** The keys the [CSPConfig] interface declares, with the type of each. *)
Definition list_keys : list string :=
  ["defaultSrc"; "scriptSrc"; "styleSrc"; "imgSrc"; "fontSrc"; "connectSrc";
   "frameSrc"; "objectSrc"; "baseUri"].

Definition well_typed_entry (p : string * CSPValue) : Prop :=
  match snd p with
  | CUndefined => fst p ∈ list_keys ++ ["reportUri"; "useNonce"; "reportOnly"]
  | CList _ => fst p ∈ list_keys
  | CString _ => fst p = "reportUri"
  | CBool _ => fst p ∈ ["useNonce"; "reportOnly"]
  end.

Definition well_typed_csp (c : CSPConfig) : Prop := Forall well_typed_entry c.

Module HSTSConfig.
Record t : Type := {
  maxAge : prop Z;
  includeSubDomains : prop bool;
  preload : prop bool;
}.
End HSTSConfig.

Inductive FrameOptions : Type := DENY | SAMEORIGIN | ALLOW_FROM.

Inductive ReferrerPolicy : Type :=
  | no_referrer
  | no_referrer_when_downgrade
  | origin
  | origin_when_cross_origin
  | same_origin
  | strict_origin
  | strict_origin_when_cross_origin
  | unsafe_url.

Inductive CORP : Type := corp_same_origin | corp_same_site | corp_cross_origin.

Inductive COOP : Type := coop_unsafe_none | coop_same_origin_allow_popups | coop_same_origin.

(** The string each member of the literal unions stands for. *)
Definition FrameOptions_string (f : FrameOptions) : string :=
  match f with
  | DENY => "DENY"
  | SAMEORIGIN => "SAMEORIGIN"
  | ALLOW_FROM => "ALLOW-FROM"
  end.

Definition ReferrerPolicy_string (r : ReferrerPolicy) : string :=
  match r with
  | no_referrer => "no-referrer"
  | no_referrer_when_downgrade => "no-referrer-when-downgrade"
  | origin => "origin"
  | origin_when_cross_origin => "origin-when-cross-origin"
  | same_origin => "same-origin"
  | strict_origin => "strict-origin"
  | strict_origin_when_cross_origin => "strict-origin-when-cross-origin"
  | unsafe_url => "unsafe-url"
  end.

Definition CORP_string (c : CORP) : string :=
  match c with
  | corp_same_origin => "same-origin"
  | corp_same_site => "same-site"
  | corp_cross_origin => "cross-origin"
  end.

Definition COOP_string (c : COOP) : string :=
  match c with
  | coop_unsafe_none => "unsafe-none"
  | coop_same_origin_allow_popups => "same-origin-allow-popups"
  | coop_same_origin => "same-origin"
  end.

Record SecurityConfig : Type := {
  csp : prop CSPConfig;
  frameOptions : prop FrameOptions;
  xssProtection : prop bool;
  dnsPrefetch : prop bool;
  referrerPolicy : prop ReferrerPolicy;
  permissionsPolicy : prop (Obj (list string));
  hsts : prop HSTSConfig.t;
  corp : prop CORP;
  coop : prop COOP;
  reportTo : prop (list ReportToConfig.t);
  customHeaders : prop (Obj string);
}.

(** [permission] *)
Definition SELF : string := "'self'".
Definition UNSAFE_INLINE : string := "'unsafe-inline'".
Definition HTTPS : string := "https:".
Definition DATA : string := "data:".
Definition NONE : string := "'none'".
Definition BLOB : string := "blob:".

Definition DEFAULT_CSP_CONFIG : CSPConfig :=
  [ ("defaultSrc", CList [SELF]);
    ("scriptSrc", CList [SELF; UNSAFE_INLINE]);
    ("styleSrc", CList [SELF; UNSAFE_INLINE]);
    ("imgSrc", CList [SELF; DATA; BLOB]);
    ("fontSrc", CList [SELF]);
    ("connectSrc", CList [SELF]);
    ("frameSrc", CList [SELF]);
    ("objectSrc", CList [NONE]);
    ("baseUri", CList [SELF]) ].

Definition DEFAULT_SECURITY_CONFIG : SecurityConfig :=
  {| csp := Value DEFAULT_CSP_CONFIG;
     frameOptions := Value DENY;
     xssProtection := Value true;
     dnsPrefetch := Value false;
     referrerPolicy := Value strict_origin_when_cross_origin;
     permissionsPolicy :=
       Value [ ("camera", []); ("microphone", []); ("geolocation", []);
               ("interest-cohort", []) ];
     hsts :=
       Value {| HSTSConfig.maxAge := Value 15552000%Z;
                HSTSConfig.includeSubDomains := Value true;
                HSTSConfig.preload := Value true |};
     corp := Value corp_same_origin;
     coop := Value coop_same_origin;
     reportTo := Absent;
     customHeaders := Absent |}.

(** [str.replace(KEBAB_REGEX, (m) => "-" + m.toLowerCase())] *)
Fixpoint kebab_replace (str : string) : string :=
  match str with
  | EmptyString => EmptyString
  | String c s' =>
      if is_upper c then String "-" (String (lower_char c) (kebab_replace s'))
      else String c (kebab_replace s')
  end.

(** [toKebabCase]: a cached result is returned when it is truthy, that is,
    a non-empty string; otherwise the result is computed and cached.  The
    cache is the map of the own properties of [kebabCache]: the keys of a
    [CSPConfig] are no names of [Object.prototype]. *)
Definition toKebabCase (str : string) : M string :=
  fun st =>
    match kebabCache st !! str with
    | Some cached =>
        if bool_decide (cached <> "") then (st, Ok cached)
        else
          let result := kebab_replace str in
          (set_kebabCache st (<[str := result]> (kebabCache st)), Ok result)
    | None =>
        let result := kebab_replace str in
        (set_kebabCache st (<[str := result]> (kebabCache st)), Ok result)
    end.

(** [validateConfig]: the loop over [config.reportTo]. *)
Fixpoint validateReports (reports : list ReportToConfig.t) : result unit :=
  match reports with
  | [] => Ok tt
  | report :: rest =>
      if (ReportToConfig.maxAge report <? 0)%Z then
        Throw (Error "Report-To maxAge must be a positive number")
      else if bool_decide (length (ReportToConfig.endpoints report) = 0) then
        Throw (Error "Report-To must have at least one endpoint")
      else validateReports rest
  end.

(** [config.hsts?.maxAge] *)
Definition hsts_maxAge (config : SecurityConfig) : option Z :=
  match read (hsts config) with
  | Some h => read (HSTSConfig.maxAge h)
  | None => None
  end.

Definition validateConfig (config : SecurityConfig) : result unit :=
  if match hsts_maxAge config with
     | Some m => negb (m =? 0)%Z && (m <? 0)%Z
     | None => false
     end
  then Throw (Error "HSTS maxAge must be a positive number")
  else
    match read (reportTo config) with
    | Some reports => validateReports reports
    | None => Ok tt
    end.

(** [generateNonce]: [now] is [Date.now()] and [random36] is
    [Math.random().toString(36)]. *)
Definition generateNonce (now : Z) (random36 : string) : string :=
  base64 (Buffer_from (Number_toString now +:+ slice_last 6 random36)).

Definition lift {A} (r : result A) : M A := fun st => (st, r).

(** Truthiness of [csp.k], the value read from a [CSPConfig]. *)
Definition truthy (v : option CSPValue) : bool :=
  match v with
  | Some (CBool b) => b
  | Some (CString s) => bool_decide (s <> "")
  | Some (CList _) => true
  | _ => false
  end.

(** [values?.length] is truthy: a non-empty string or array. *)
Definition has_length (values : CSPValue) : bool :=
  match values with
  | CString s => bool_decide (s <> "")
  | CList l => bool_decide (l <> [])
  | _ => false
  end.

(** [values.join(" ")]: only an array has a [join] method. *)
Definition values_join (values : CSPValue) : result string :=
  match values with
  | CList l => Ok (join " " l)
  | _ => Throw (TypeError "values.join is not a function")
  end.

(** The [for] loop of [buildCSPString]; [parts.push(x)] appends [x]. *)
Fixpoint buildCSPString_loop (csp : CSPConfig) (nonce : option string)
    (entries : list (string * CSPValue)) (parts : list string) : M (list string) :=
  match entries with
  | [] => ret parts
  | (key, values) :: rest =>
      if negb (has_length values) || bool_decide (key = "useNonce")
         || bool_decide (key = "reportOnly")
      then buildCSPString_loop csp nonce rest parts
      else
        let plain :=
          let! k := toKebabCase key in
          let! joined := lift (values_join values) in
          buildCSPString_loop csp nonce rest (parts ++ [k +:+ " " +:+ joined]) in
        match nonce with
        | Some n =>
            if truthy (obj_get csp "useNonce") && bool_decide (n <> "")
               && (bool_decide (key = "scriptSrc") || bool_decide (key = "styleSrc"))
            then
              let! k := toKebabCase key in
              let! joined := lift (values_join values) in
              buildCSPString_loop csp nonce rest
                (parts ++ [k +:+ " " +:+ joined +:+ " 'nonce-" +:+ n +:+ "'"])
            else plain
        | None => plain
        end
  end.

Definition buildCSPString (csp : CSPConfig) (nonce : option string) : M string :=
  let! parts := buildCSPString_loop csp nonce (Object_entries csp) [] in
  ret (join "; " parts).

Definition buildPermissionsPolicyString (policies : Obj (list string)) : string :=
  join ", "
    (List.map
       (fun p =>
          if bool_decide (length (snd p) = 0) then fst p +:+ "=()"
          else fst p +:+ "=(" +:+ join " " (snd p) +:+ ")")
       (Object_entries policies)).

(** The object each report group is mapped to. *)
Definition reportObj (r : ReportToConfig.t) : Json :=
  JObject
    [ ("group", JString (ReportToConfig.group r));
      ("max_age", JNumber (ReportToConfig.maxAge r));
      ("endpoints", JArray (ReportToConfig.endpoints r));
      ("include_subdomains",
        match ReportToConfig.includeSubdomains r with
        | Some b => JBool b
        | None => JUndefined
        end) ].

Definition buildReportToString (reports : list ReportToConfig.t) : string :=
  default "undefined" (stringify (JArray (List.map reportObj reports))).

(** [{ ...a, ...b }] on [HSTSConfig] and on [SecurityConfig]. *)
Definition spread_HSTSConfig (a b : HSTSConfig.t) : HSTSConfig.t :=
  {| HSTSConfig.maxAge := spread_prop (HSTSConfig.maxAge a) (HSTSConfig.maxAge b);
     HSTSConfig.includeSubDomains :=
       spread_prop (HSTSConfig.includeSubDomains a) (HSTSConfig.includeSubDomains b);
     HSTSConfig.preload := spread_prop (HSTSConfig.preload a) (HSTSConfig.preload b) |}.

Definition spread_SecurityConfig (a b : SecurityConfig) : SecurityConfig :=
  {| csp := spread_prop (csp a) (csp b);
     frameOptions := spread_prop (frameOptions a) (frameOptions b);
     xssProtection := spread_prop (xssProtection a) (xssProtection b);
     dnsPrefetch := spread_prop (dnsPrefetch a) (dnsPrefetch b);
     referrerPolicy := spread_prop (referrerPolicy a) (referrerPolicy b);
     permissionsPolicy := spread_prop (permissionsPolicy a) (permissionsPolicy b);
     hsts := spread_prop (hsts a) (hsts b);
     corp := spread_prop (corp a) (corp b);
     coop := spread_prop (coop a) (coop b);
     reportTo := spread_prop (reportTo a) (reportTo b);
     customHeaders := spread_prop (customHeaders a) (customHeaders b) |}.

(** Spreading a value that may be [undefined] copies nothing in that case. *)
Definition or_empty {V} (o : option (Obj V)) : Obj V := default [] o.

Definition empty_HSTSConfig : HSTSConfig.t :=
  {| HSTSConfig.maxAge := Absent; HSTSConfig.includeSubDomains := Absent;
     HSTSConfig.preload := Absent |}.

(** [finalConfig] *)
Definition build_finalConfig (config : SecurityConfig) : SecurityConfig :=
  let merged := spread_SecurityConfig DEFAULT_SECURITY_CONFIG config in
  {| csp :=
       match read (csp config) with
       | Some c => Value (spread2 DEFAULT_CSP_CONFIG c)
       | None => Value DEFAULT_CSP_CONFIG
       end;
     frameOptions := frameOptions merged;
     xssProtection := xssProtection merged;
     dnsPrefetch := dnsPrefetch merged;
     referrerPolicy := referrerPolicy merged;
     permissionsPolicy :=
       match read (permissionsPolicy config) with
       | Some p =>
           Value (spread2 (or_empty (read (permissionsPolicy DEFAULT_SECURITY_CONFIG))) p)
       | None => permissionsPolicy DEFAULT_SECURITY_CONFIG
       end;
     hsts :=
       match read (hsts config) with
       | Some h =>
           Value (spread_HSTSConfig
                    (default empty_HSTSConfig (read (hsts DEFAULT_SECURITY_CONFIG))) h)
       | None => hsts DEFAULT_SECURITY_CONFIG
       end;
     corp := corp merged;
     coop := coop merged;
     reportTo := reportTo merged;
     customHeaders := customHeaders merged |}.

(** [staticHeaders], filled by the assignments of [tirneHelmet] in order. *)
Definition build_staticHeaders (finalConfig : SecurityConfig) : Obj string :=
  let s0 : Obj string := [] in
  let s1 :=
    match read (frameOptions finalConfig) with
    | Some f => obj_set s0 "X-Frame-Options" (FrameOptions_string f)
    | None => s0
    end in
  let s2 :=
    match read (xssProtection finalConfig) with
    | Some true => obj_set s1 "X-XSS-Protection" "1; mode=block"
    | _ => s1
    end in
  let s3 := obj_set s2 "X-Content-Type-Options" "nosniff" in
  let s4 :=
    match read (referrerPolicy finalConfig) with
    | Some r => obj_set s3 "Referrer-Policy" (ReferrerPolicy_string r)
    | None => s3
    end in
  let s5 :=
    match read (dnsPrefetch finalConfig) with
    | Some d => obj_set s4 "X-DNS-Prefetch-Control" (if d then "on" else "off")
    | None => s4
    end in
  let s6 :=
    match read (corp finalConfig) with
    | Some c => obj_set s5 "Cross-Origin-Resource-Policy" (CORP_string c)
    | None => s5
    end in
  let s7 :=
    match read (coop finalConfig) with
    | Some c => obj_set s6 "Cross-Origin-Opener-Policy" (COOP_string c)
    | None => s6
    end in
  let s8 :=
    match read (reportTo finalConfig) with
    | Some reports => obj_set s7 "Report-To" (buildReportToString reports)
    | None => s7
    end in
  match read (customHeaders finalConfig) with
  | Some custom => Object_assign s8 custom
  | None => s8
  end.

(** [`${x}`] for a number that may be [undefined]. *)
Definition template_number (x : option Z) : string :=
  match x with
  | Some z => Number_toString z
  | None => "undefined"
  end.

(** [hstsHeader]; [NODE_ENV] is [process.env.NODE_ENV] and [None] is [null]. *)
Definition build_hstsHeader (NODE_ENV : option string) (finalConfig : SecurityConfig)
    : option string :=
  let isProduction := bool_decide (NODE_ENV = Some "production") in
  match read (hsts finalConfig) with
  | Some h =>
      if isProduction then
        Some ("max-age=" +:+ template_number (read (HSTSConfig.maxAge h))
              +:+ (if default false (read (HSTSConfig.includeSubDomains h))
                   then "; includeSubDomains" else "")
              +:+ (if default false (read (HSTSConfig.preload h)) then "; preload" else ""))
      else None
  | None => None
  end.

(** What the returned closure captures. *)
Record Middleware : Type := {
  finalConfig : SecurityConfig;
  staticHeaders : Obj string;
  hstsHeader : option string;
}.

(** [tirneHelmet(config)], called while [process.env.NODE_ENV] is [NODE_ENV]. *)
Definition tirneHelmet (NODE_ENV : option string) (config : SecurityConfig)
    : result Middleware :=
  match validateConfig config with
  | Throw e => Throw e
  | Ok _ =>
      let final := build_finalConfig config in
      Ok {| finalConfig := final;
            staticHeaders := build_staticHeaders final;
            hstsHeader := build_hstsHeader NODE_ENV final |}
  end.

(** The body of the middleware after [await next()] returned [response].
    [now] and [random36] are what [Date.now()] and
    [Math.random().toString(36)] yield if [generateNonce] is called. *)
Definition inject (mw : Middleware) (now : Z) (random36 : string) (response : Response)
    : M Response :=
  let! newHeaders := new_Headers (headers response) in
  let! _ :=
    for_of (Object_entries (staticHeaders mw))
      (fun p => Headers_set newHeaders (fst p) (snd p)) in
  let! _ :=
    match read (csp (finalConfig mw)) with
    | Some c =>
        let nonce :=
          if truthy (obj_get c "useNonce") then Some (generateNonce now random36) else None in
        let headerName :=
          if truthy (obj_get c "reportOnly") then "Content-Security-Policy-Report-Only"
          else "Content-Security-Policy" in
        let! value := buildCSPString c nonce in
        let! _ := Headers_set newHeaders headerName value in
        match nonce with
        | Some n =>
            if bool_decide (n <> "") then Headers_set newHeaders "X-Nonce" n else ret tt
        | None => ret tt
        end
    | None => ret tt
    end in
  let! _ :=
    match read (permissionsPolicy (finalConfig mw)) with
    | Some p => Headers_set newHeaders "Permissions-Policy" (buildPermissionsPolicyString p)
    | None => ret tt
    end in
  let! _ :=
    match hstsHeader mw with
    | Some v =>
        if bool_decide (v <> "") then Headers_set newHeaders "Strict-Transport-Security" v
        else ret tt
    | None => ret tt
    end in
  new_Response (body response) (status response) (statusText response) newHeaders.

(** The middleware: [next] is the downstream handler's computation. *)
Definition middleware (mw : Middleware) (now : Z) (random36 : string)
    (next : M Response) : M Response :=
  let! response := next in
  inject mw now random36 response.

End Helmet.

(** ** Reference definitions

    What the statements below compare the program with: the header list a
    sequence of writes leaves, the writes the middleware is to perform in
    order, the clauses of the CSP header computed without the cache, and
    the coherence of the cache. *)

Module Spec.
Import Js Fetch Helmet.

(** The header list after the writes [ws], performed in order on [h]. *)
Definition apply_writes (ws : list (string * string)) (h : gmap string string)
    : gmap string string :=
  fold_left (fun h p => <[toLowerCase (fst p) := normalize (snd p)]> h) ws h.

(** The value given by the last write in [ws] to the header [name]. *)
Fixpoint last_write (ws : list (string * string)) (name : string) : option string :=
  match ws with
  | [] => None
  | (k, v) :: ws' =>
      match last_write ws' name with
      | Some x => Some x
      | None => if decide (toLowerCase k = toLowerCase name) then Some v else None
      end
  end.

(** Every cached entry is the kebab-case form of its key. *)
Definition coherent (cache : gmap string string) : Prop :=
  forall k v, cache !! k = Some v -> v = kebab_replace k.

(** The nonce of a response, and the name of its CSP header. *)
Definition nonce_of (c : CSPConfig) (now : Z) (random36 : string) : option string :=
  if truthy (obj_get c "useNonce") then Some (generateNonce now random36) else None.

Definition csp_header_name (c : CSPConfig) : string :=
  if truthy (obj_get c "reportOnly") then "Content-Security-Policy-Report-Only"
  else "Content-Security-Policy".

(** The token appended to [script-src] and [style-src] for the nonce [n]. *)
Definition nonce_token (n : string) : string := "'nonce-" +:+ n +:+ "'".

(** The clause of one directive. *)
Definition clause_text (csp : CSPConfig) (nonce : option string) (key joined : string)
    : string :=
  match nonce with
  | Some n =>
      if truthy (obj_get csp "useNonce") && bool_decide (n <> "")
         && (bool_decide (key = "scriptSrc") || bool_decide (key = "styleSrc"))
      then kebab_replace key +:+ " " +:+ joined +:+ " 'nonce-" +:+ n +:+ "'"
      else kebab_replace key +:+ " " +:+ joined
  | None => kebab_replace key +:+ " " +:+ joined
  end.

(** The clauses of the CSP header, in order. *)
Fixpoint csp_parts (csp : CSPConfig) (nonce : option string)
    (entries : list (string * CSPValue)) : result (list string) :=
  match entries with
  | [] => Ok []
  | (key, values) :: rest =>
      if negb (has_length values) || bool_decide (key = "useNonce")
         || bool_decide (key = "reportOnly")
      then csp_parts csp nonce rest
      else
        match values_join values with
        | Throw e => Throw e
        | Ok joined =>
            match csp_parts csp nonce rest with
            | Throw e => Throw e
            | Ok ps => Ok (clause_text csp nonce key joined :: ps)
            end
        end
  end.

(** The writes of the middleware, in the order the specification gives:
    static headers, then the CSP header [cspValue] and the nonce header,
    then Permissions-Policy, then HSTS. *)
Definition csp_writes (mw : Middleware) (cspValue : string) (now : Z) (random36 : string)
    : list (string * string) :=
  match read (csp (finalConfig mw)) with
  | Some c =>
      (csp_header_name c, cspValue)
      :: match nonce_of c now random36 with
         | Some n => if bool_decide (n <> "") then [("X-Nonce", n)] else []
         | None => []
         end
  | None => []
  end.

Definition permissions_writes (mw : Middleware) : list (string * string) :=
  match read (permissionsPolicy (finalConfig mw)) with
  | Some p => [("Permissions-Policy", buildPermissionsPolicyString p)]
  | None => []
  end.

Definition hsts_writes (mw : Middleware) : list (string * string) :=
  match hstsHeader mw with
  | Some v => if bool_decide (v <> "") then [("Strict-Transport-Security", v)] else []
  | None => []
  end.

Definition security_writes (mw : Middleware) (cspValue : string) (now : Z)
    (random36 : string) : list (string * string) :=
  Object_entries (staticHeaders mw) ++ csp_writes mw cspValue now random36
  ++ permissions_writes mw ++ hsts_writes mw.

(** The [Headers] object [h] received the writes [ws] between [st] and
    [st']; every other object is as it was, and none disappeared. *)
Definition wrote (h : nat) (ws : list (string * string)) (st st' : Store) : Prop :=
  header_list st' h = apply_writes ws (header_list st h)
  /\ (forall l, l <> h -> heap st' !! l = heap st !! l)
  /\ (forall l, is_Some (heap st !! l) -> is_Some (heap st' !! l)).

(** The names the middleware itself puts in [staticHeaders], apart from
    [X-Content-Type-Options]. *)
Definition optional_static_names : list string :=
  ["X-Frame-Options"; "X-XSS-Protection"; "Referrer-Policy"; "X-DNS-Prefetch-Control";
   "Cross-Origin-Resource-Policy"; "Cross-Origin-Opener-Policy"; "Report-To"].

(** The static headers the middleware derives from the resolved policy,
    before the custom headers are merged in. *)
Definition builtin_static (final : SecurityConfig) : list (string * string) :=
  match read (frameOptions final) with
  | Some f => [("X-Frame-Options", FrameOptions_string f)]
  | None => []
  end
  ++ match read (xssProtection final) with
     | Some true => [("X-XSS-Protection", "1; mode=block")]
     | _ => []
     end
  ++ [("X-Content-Type-Options", "nosniff")]
  ++ match read (referrerPolicy final) with
     | Some r => [("Referrer-Policy", ReferrerPolicy_string r)]
     | None => []
     end
  ++ match read (dnsPrefetch final) with
     | Some d => [("X-DNS-Prefetch-Control", if d then "on" else "off")]
     | None => []
     end
  ++ match read (corp final) with
     | Some c => [("Cross-Origin-Resource-Policy", CORP_string c)]
     | None => []
     end
  ++ match read (coop final) with
     | Some c => [("Cross-Origin-Opener-Policy", COOP_string c)]
     | None => []
     end
  ++ match read (reportTo final) with
     | Some reports => [("Report-To", buildReportToString reports)]
     | None => []
     end.

(** The JSON text of one report group, as the specification maps it:
    [group], [max_age], [endpoints] and, when the group defines
    [includeSubdomains], [include_subdomains]. *)
Definition report_members (r : ReportToConfig.t) : list string :=
  [ quote "group" +:+ ":" +:+ quote (ReportToConfig.group r);
    quote "max_age" +:+ ":" +:+ Number_toString (ReportToConfig.maxAge r);
    quote "endpoints" +:+ ":"
      +:+ default "null" (stringify (JArray (ReportToConfig.endpoints r))) ]
  ++ match ReportToConfig.includeSubdomains r with
     | Some b => [quote "include_subdomains" +:+ ":" +:+ (if b then "true" else "false")]
     | None => []
     end.

Definition report_element (r : ReportToConfig.t) : string :=
  "{" +:+ join "," (report_members r) +:+ "}".

(** A configuration error: what [validateConfig] throws. *)
Definition is_validation_error (e : JsError) : Prop :=
  e = Error "HSTS maxAge must be a positive number"
  \/ e = Error "Report-To maxAge must be a positive number"
  \/ e = Error "Report-To must have at least one endpoint".

(** The errors of the run time: a [TypeError] or a [RangeError], never a
    plain [Error]. *)
Definition is_runtime_error (e : JsError) : Prop :=
  match e with
  | Error _ => False
  | _ => True
  end.

(** The configurations the specification rejects. *)
Definition invalid_config (config : SecurityConfig) : Prop :=
  (exists m, hsts_maxAge config = Some m /\ (m < 0)%Z)
  \/ (exists reports r,
        read (reportTo config) = Some reports /\ In r reports
        /\ ((ReportToConfig.maxAge r < 0)%Z \/ ReportToConfig.endpoints r = [])).

(** Field-wise override: the user's property replaces the default when it
    is present, and the default stays when it is absent. *)
Definition overrides {T} (default user resolved : prop T) : Prop :=
  (user <> Absent -> resolved = user) /\ (user = Absent -> resolved = default).

(** Shallow merge of two objects, key by key: the user's keys override and
    the default keys absent from the user's object are retained. *)
Definition shallow_merge {V} (default user resolved : Obj V) : Prop :=
  forall k,
    obj_get resolved k =
      match obj_get user k with
      | Some v => Some v
      | None => obj_get default k
      end.

(** The number of times a token occurs among the tokens of a directive. *)
Definition occurrences (token : string) (ws : list string) : nat :=
  length (List.filter (fun w => bool_decide (w = token)) ws).

(** The closure [tirneHelmet] returns for a configuration it accepts. *)
Definition closure (NODE_ENV : option string) (config : SecurityConfig) : Middleware :=
  {| finalConfig := build_finalConfig config;
     staticHeaders := build_staticHeaders (build_finalConfig config);
     hstsHeader := build_hstsHeader NODE_ENV (build_finalConfig config) |}.

(** The configuration that sets nothing. *)
Definition empty_config : SecurityConfig :=
  {| csp := Absent; frameOptions := Absent; xssProtection := Absent;
     dnsPrefetch := Absent; referrerPolicy := Absent; permissionsPolicy := Absent;
     hsts := Absent; corp := Absent; coop := Absent; reportTo := Absent;
     customHeaders := Absent |}.

(** *** The directives of a CSP header value *)

(** ASCII whitespace, as the parsing of a policy uses it: tab, line feed,
    form feed, carriage return, space. *)
Definition is_ascii_whitespace (c : ascii) : bool :=
  let n := nat_of_ascii c in
  bool_decide (n = 9) || bool_decide (n = 10) || bool_decide (n = 12)
  || bool_decide (n = 13) || bool_decide (n = 32).

(** The pieces of a string between the characters [sep] holds of. *)
Fixpoint split_on (sep : ascii -> bool) (s : string) : list string :=
  match s with
  | EmptyString => [EmptyString]
  | String c s' =>
      if sep c then EmptyString :: split_on sep s'
      else
        match split_on sep s' with
        | h :: t => String c h :: t
        | [] => [String c EmptyString]
        end
  end.

(** The tokens of a directive: its pieces between ASCII whitespace. *)
Definition tokens (s : string) : list string :=
  List.filter (fun w => negb (bool_decide (w = ""))) (split_on is_ascii_whitespace s).

(** The separators of policies and of directives. *)
Definition is_comma (c : ascii) : bool := Ascii.eqb c ",".
Definition is_semicolon (c : ascii) : bool := Ascii.eqb c ";".

(** A directive with a token. *)
Definition nonempty_directive (d : list string) : bool :=
  match d with [] => false | _ => true end.

(** The directives of a CSP header value, each as the list of its tokens,
    the name first.  The value is a comma-separated list of policies, a
    policy a semicolon-separated list of directives, and a directive
    without any token is dropped. *)
Definition directives (value : string) : list (list string) :=
  List.filter nonempty_directive
    (List.map tokens (flat_map (split_on is_semicolon) (split_on is_comma value))).

(** The directive [d] has the name [name]; names are compared ignoring
    letter case. *)
Definition named (name : string) (d : list string) : Prop :=
  toLowerCase (hd "" d) = name.

(** Neither a comma nor a semicolon: a source of such characters cannot
    end its directive or its policy. *)
Definition no_separator (s : string) : bool :=
  string_forallb (fun c => negb (is_comma c) && negb (is_semicolon c)) s.

(** No source of the section holds a comma or a semicolon. *)
Definition separator_free (c : CSPConfig) : Prop :=
  forall key l s, In (key, CList l) c -> In s l -> no_separator s = true.

(** *** Reading a JSON text
    A reader for the JSON texts without insignificant whitespace, whose
    numbers are integers and whose strings hold code units up to 255.  A
    text it accepts is a JSON text, and the value it returns is the value
    the text stands for; an object is returned as the list of its members
    in the order of the text. *)



















End Spec.

(** ** Concrete requests

    A store with one downstream response, whose handler set a content type
    and a frame option of its own, a clock and a random string, and some
    configurations. *)

Module Example.
Import Js Fetch Helmet Spec.

Definition store : Store :=
  {| heap :=
       {[ 0%nat := {[ "content-type" := "application/json";
                      "x-frame-options" := "SAMEORIGIN" ]} ]};
     kebabCache := ∅ |}.

Definition response : Response :=
  {| status := 200; statusText := "OK"; body := Some "{}"; headers := 0 |}.

Definition next : M Response := ret response.

Definition now : Z := 1700000000000.

Definition random36 : string := "0.4fzyo82mvyr".

(** A configuration whose custom headers name [X-Content-Type-Options]. *)
Definition custom_sniff : SecurityConfig :=
  {| csp := Absent; frameOptions := Absent; xssProtection := Absent;
     dnsPrefetch := Absent; referrerPolicy := Absent; permissionsPolicy := Absent;
     hsts := Absent; corp := Absent; coop := Absent; reportTo := Absent;
     customHeaders := Value [("X-Content-Type-Options", "sniff")] |}.

(** A configuration with harmless custom headers. *)
Definition custom_plain : SecurityConfig :=
  {| csp := Absent; frameOptions := Absent; xssProtection := Absent;
     dnsPrefetch := Absent; referrerPolicy := Absent; permissionsPolicy := Absent;
     hsts := Absent; corp := Absent; coop := Absent; reportTo := Absent;
     customHeaders :=
       Value [("X-Custom-Header", "custom-value"); ("X-Another-Header", "another-value")] |}.

(** The nonce mode with no source for scripts and styles. *)
Definition nonce_without_sources : SecurityConfig :=
  {| csp :=
       Value [("useNonce", CBool true); ("scriptSrc", CList []); ("styleSrc", CList [])];
     frameOptions := Absent; xssProtection := Absent;
     dnsPrefetch := Absent; referrerPolicy := Absent; permissionsPolicy := Absent;
     hsts := Absent; corp := Absent; coop := Absent; reportTo := Absent;
     customHeaders := Absent |}.

(** A downstream response that carries an HSTS header of its own. *)
Definition store_with_hsts : Store :=
  {| heap := {[ 0%nat := {[ "strict-transport-security" := "max-age=63072000" ]} ]};
     kebabCache := ∅ |}.

(** A configuration that overrides one property of each kind. *)
Definition overriding : SecurityConfig :=
  {| csp := Value [("imgSrc", CList ["'self'"; "https:"]); ("reportOnly", CBool true)];
     frameOptions := Value SAMEORIGIN; xssProtection := Undefined;
     dnsPrefetch := Absent; referrerPolicy := Absent;
     permissionsPolicy := Value [("camera", ["self"]); ("fullscreen", [])];
     hsts :=
       Value {| HSTSConfig.maxAge := Value 31536000%Z;
                HSTSConfig.includeSubDomains := Absent;
                HSTSConfig.preload := Value false |};
     corp := Absent; coop := Absent; reportTo := Absent; customHeaders := Absent |}.


(** A CSP section with a report URI. *)
Definition with_reportUri : SecurityConfig :=
  {| csp := Value [("reportUri", CString "https://r.example/csp")];
     frameOptions := Absent; xssProtection := Absent;
     dnsPrefetch := Absent; referrerPolicy := Absent; permissionsPolicy := Absent;
     hsts := Absent; corp := Absent; coop := Absent; reportTo := Absent;
     customHeaders := Absent |}.

(** The nonce mode with the default sources. *)
Definition nonce_mode : SecurityConfig :=
  {| csp := Value [("useNonce", CBool true)];
     frameOptions := Absent; xssProtection := Absent;
     dnsPrefetch := Absent; referrerPolicy := Absent; permissionsPolicy := Absent;
     hsts := Absent; corp := Absent; coop := Absent; reportTo := Absent;
     customHeaders := Absent |}.

(** The nonce mode with a script source that is itself the nonce token of
    the request at [now] with [random36]. *)
Definition nonce_mode_with_token : SecurityConfig :=
  {| csp :=
       Value [("useNonce", CBool true);
              ("scriptSrc", CList ["'self'"; "'nonce-MTcwMDAwMDAwMDAwMDgybXZ5cg=='"])];
     frameOptions := Absent; xssProtection := Absent;
     dnsPrefetch := Absent; referrerPolicy := Absent; permissionsPolicy := Absent;
     hsts := Absent; corp := Absent; coop := Absent; reportTo := Absent;
     customHeaders := Absent |}.

(** The configurations of the repository's tests. *)
Definition test_security_headers : SecurityConfig :=
  {| csp :=
       Value [("defaultSrc", CList ["'self'"]);
              ("scriptSrc", CList ["'self'"; "'unsafe-inline'"])];
     frameOptions := Value DENY; xssProtection := Value true;
     dnsPrefetch := Absent; referrerPolicy := Absent; permissionsPolicy := Absent;
     hsts := Absent; corp := Absent; coop := Absent; reportTo := Absent;
     customHeaders := Absent |}.

Definition test_hsts : SecurityConfig :=
  {| csp := Absent; frameOptions := Absent; xssProtection := Absent;
     dnsPrefetch := Absent; referrerPolicy := Absent; permissionsPolicy := Absent;
     hsts :=
       Value {| HSTSConfig.maxAge := Value 31536000%Z;
                HSTSConfig.includeSubDomains := Value true;
                HSTSConfig.preload := Value true |};
     corp := Absent; coop := Absent; reportTo := Absent; customHeaders := Absent |}.

(** The response a run returned, and the store it left. *)
Definition returned (r : Store * result Response) : Response :=
  match snd r with
  | Ok resp => resp
  | Throw _ => response
  end.


End Example.

(** ** More reference definitions

    What the further properties below are stated with: the entries of a
    CSP section that give a clause, the inverse of base64 and of the UTF-8
    encoding of a buffer, and the validity of a report group. *)

Module Reference.
Import Js Fetch Helmet Spec.

(** The property names an ordinary object inherits from [Object.prototype].
    Reading one of them in [kebabCache] gives the inherited value, not a
    cached string: the model of the cache holds for the other keys. *)
Definition Object_prototype_names : list string :=
  ["constructor"; "__proto__"; "hasOwnProperty"; "isPrototypeOf";
   "propertyIsEnumerable"; "toLocaleString"; "toString"; "valueOf";
   "__defineGetter__"; "__defineSetter__"; "__lookupGetter__"; "__lookupSetter__"].

(** No character of the string is one of the letters A-Z. *)
Definition no_upper (s : string) : bool :=
  string_forallb (fun c => negb (is_upper c)) s.

(** The number of letters A-Z in a string. *)
Fixpoint count_upper (s : string) : nat :=
  match s with
  | EmptyString => 0
  | String c s' => (if is_upper c then 1 else 0) + count_upper s'
  end.

(** The entries of a CSP section that the builder does not skip. *)
Definition emitted (p : string * CSPValue) : bool :=
  has_length (snd p) && negb (bool_decide (fst p = "useNonce"))
  && negb (bool_decide (fst p = "reportOnly")).

(** The sources of an entry, joined. *)
Definition joined_sources (v : CSPValue) : string :=
  match v with
  | CList l => join " " l
  | _ => ""
  end.

(** A report group that [validateConfig] lets pass. *)
Definition valid_report (r : ReportToConfig.t) : Prop :=
  (0 <= ReportToConfig.maxAge r)%Z /\ ReportToConfig.endpoints r <> [].

(** The index of a base64 character, 64 for the padding and anything else. *)
Fixpoint index_in (c : ascii) (s : string) : N :=
  match s with
  | EmptyString => 0
  | String c' s' => if Ascii.eqb c c' then 0 else N.succ (index_in c s')
  end.

Definition b64_index (c : ascii) : N := index_in c b64_alphabet.

(** The bytes a base64 text stands for, read four characters at a time. *)
Fixpoint base64_decode (fuel : nat) (s : string) : list N :=
  match fuel with
  | O => []
  | S fuel' =>
      match s with
      | String c1 (String c2 (String c3 (String c4 rest))) =>
          let i1 := b64_index c1 in
          let i2 := b64_index c2 in
          let i3 := b64_index c3 in
          let i4 := b64_index c4 in
          let b1 := N.lor (N.shiftl i1 2) (N.shiftr i2 4) in
          let b2 := N.lor (N.shiftl (N.land i2 15) 4) (N.shiftr i3 2) in
          let b3 := N.lor (N.shiftl (N.land i3 3) 6) i4 in
          if Ascii.eqb c3 "=" then [b1]
          else if Ascii.eqb c4 "=" then [b1; b2]
          else b1 :: b2 :: b3 :: base64_decode fuel' rest
      | _ => []
      end
  end.

(** The string of Latin-1 code units a UTF-8 buffer stands for. *)
Fixpoint utf8_decode (fuel : nat) (bs : list N) : string :=
  match fuel with
  | O => EmptyString
  | S fuel' =>
      match bs with
      | [] => EmptyString
      | b :: bs' =>
          if (b <? 128)%N then String (ascii_of_N b) (utf8_decode fuel' bs')
          else
            match bs' with
            | b2 :: bs'' =>
                String (ascii_of_N (N.lor (N.shiftl (N.land b 3) 6) (N.land b2 63)))
                  (utf8_decode fuel' bs'')
            | [] => EmptyString
            end
      end
  end.

(** The names of the headers the middleware writes for each request. *)
Definition dynamic_names : list string :=
  ["content-security-policy"; "content-security-policy-report-only"; "x-nonce";
   "permissions-policy"; "strict-transport-security"].

(** The names of the built-in static headers. *)
Definition builtin_names : list string :=
  "X-Content-Type-Options" :: optional_static_names.

(** What the nonce adds to the clause of a key. *)
Definition nonce_suffix (csp : CSPConfig) (nonce : option string) (key : string) : string :=
  match nonce with
  | Some n =>
      if truthy (obj_get csp "useNonce") && bool_decide (n <> "")
         && (bool_decide (key = "scriptSrc") || bool_decide (key = "styleSrc"))
      then " 'nonce-" +:+ n +:+ "'"
      else ""
  | None => ""
  end.

(** The clause of an emitted entry. *)
Definition clause_of (csp : CSPConfig) (nonce : option string) (p : string * CSPValue)
    : string :=
  kebab_replace (fst p) +:+ " " +:+ joined_sources (snd p) +:+ nonce_suffix csp nonce (fst p).

(** The item of one feature. *)
Definition permission_item (p : string * list string) : string :=
  fst p +:+ "=(" +:+ join " " (snd p) +:+ ")".

(** A predicate holds of every number below [n]. *)
Definition all_below (n : nat) (f : N -> bool) : bool :=
  forallb f (List.map N.of_nat (seq 0 n)).

(** The first two characters of a base64 chunk give back its first byte
    and the high half of the second. *)
Definition chunk_ab (a b : N) : bool :=
  let c1 := b64_char (N.shiftr a 2) in
  let c2 := b64_char (N.lor (N.shiftl (N.land a 3) 4) (N.shiftr b 4)) in
  let i1 := b64_index c1 in
  let i2 := b64_index c2 in
  (N.lor (N.shiftl i1 2) (N.shiftr i2 4) =? a)%N
  && (N.land i2 15 =? N.shiftr b 4)%N.

(** The last two characters of a base64 chunk give back its third byte
    and the low half of the second. *)
Definition chunk_bc (b c : N) : bool :=
  let c3 := b64_char (N.lor (N.shiftl (N.land b 15) 2) (N.shiftr c 6)) in
  let c4 := b64_char (N.land c 63) in
  let i3 := b64_index c3 in
  let i4 := b64_index c4 in
  (N.shiftr i3 2 =? N.land b 15)%N
  && (N.lor (N.shiftl (N.land i3 3) 6) i4 =? c)%N
  && negb (Ascii.eqb c3 "=") && negb (Ascii.eqb c4 "=")
  && (N.lor (N.shiftl (N.shiftr b 4) 4) (N.land b 15) =? b)%N.

(** A character of a base64 text: a letter, a digit, [+], [/] or [=]. *)
Definition base64_text_char (c : ascii) : bool :=
  bool_decide (c ∈ list_ascii_of_string (b64_alphabet +:+ "=")).

(** Not a control character. *)
Definition printable (c : ascii) : bool := (32 <=? nat_of_ascii c)%nat.

(** A predicate holds of every character. *)
Definition all_ascii (f : ascii -> bool) : bool :=
  forallb (fun n => f (ascii_of_nat n)) (seq 0 256).

(** A computation that keeps the cache coherent, whatever it returns. *)
Definition keeps_cache {A} (m : M A) : Prop :=
  forall st st' r, m st = (st', r) -> coherent (kebabCache st) -> coherent (kebabCache st').

Fixpoint last_write_at (ws : list (string * string)) (key : string) : option string :=
  match ws with
  | [] => None
  | (k, v) :: ws' =>
      match last_write_at ws' key with
      | Some x => Some x
      | None => if decide (toLowerCase k = key) then Some v else None
      end
  end.

Definition invalid_custom : SecurityConfig :=
  {| csp := Absent; frameOptions := Absent; xssProtection := Absent;
     dnsPrefetch := Absent; referrerPolicy := Absent; permissionsPolicy := Absent;
     hsts := Absent; corp := Absent; coop := Absent; reportTo := Absent;
     customHeaders := Value [("X Custom", "v")] |}.



(** [l] with [post] appended to its last element. *)
Fixpoint append_last (l : list string) (post : string) : list string :=
  match l with
  | [] => []
  | [x] => [x +:+ post]
  | x :: l' => x :: append_last l' post
  end.

(** [l] with [pre] put before its first element. *)
Definition prepend_first (pre : string) (l : list string) : list string :=
  match l with
  | [] => []
  | h :: t => (pre +:+ h) :: t
  end.

(** What the nonce mode adds to the directive of a key. *)
Definition nonce_tokens (key nonce : string) : list string :=
  if bool_decide (key = "scriptSrc") || bool_decide (key = "styleSrc")
  then [nonce_token nonce] else [].






End Reference.

(** * Properties *)

Import Js Fetch Helmet Spec Reference.

(** ** Ordinary objects *)

Section objects.
Context {V : Type}.
Implicit Types (o t s : Obj V) (k : string) (v : V).

Lemma insert_by_index_perm i (p : string * V) l :
  Permutation (insert_by_index i p l) ((i, p) :: l).
Proof.
  induction l as [|[j q] l IH]; simpl; [done|].
  destruct (i <=? j)%N; [done|].
  rewrite IH. apply perm_swap.
Qed.

(** [Object.entries] lists every own property exactly once. *)
Lemma Object_entries_perm o : Permutation (Object_entries o) o.
Proof.
  unfold Object_entries.
  induction o as [|[k v] o IH]; simpl; [done|].
  destruct (array_index k) eqn:E; simpl.
  - rewrite insert_by_index_perm. simpl. by rewrite IH.
  - rewrite <- Permutation_middle. by rewrite IH.
Qed.

Lemma In_Object_entries o p : In p (Object_entries o) <-> In p o.
Proof.
  split; apply Permutation_in; [|symmetry]; apply Object_entries_perm.
Qed.

Lemma NoDup_keys_entries o :
  List.NoDup (List.map fst o) -> List.NoDup (List.map fst (Object_entries o)).
Proof.
  intros H. eapply Permutation_NoDup; [|exact H].
  apply Permutation_map. symmetry. apply Object_entries_perm.
Qed.

Lemma obj_get_set_eq o k v : obj_get (obj_set o k v) k = Some v.
Proof.
  induction o as [|[k' v'] o IH]; simpl.
  - by rewrite decide_True.
  - destruct (decide (k' = k)) as [->|Hne]; simpl.
    + by rewrite decide_True.
    + by rewrite decide_False.
Qed.

Lemma obj_get_set_ne o k k' v : k <> k' -> obj_get (obj_set o k v) k' = obj_get o k'.
Proof.
  intros Hne. induction o as [|[k0 v0] o IH]; simpl.
  - by rewrite decide_False.
  - destruct (decide (k0 = k)) as [->|Hne0]; simpl.
    + by rewrite !decide_False.
    + destruct (decide (k0 = k')); [done|apply IH].
Qed.

Lemma In_obj_set o k v p : In p (obj_set o k v) -> p = (k, v) \/ In p o.
Proof.
  induction o as [|[k' v'] o IH]; simpl.
  - intros [<-|[]]. by left.
  - destruct (decide (k' = k)) as [->|Hne]; simpl.
    + intros [<-|H]; [by left|by right; right].
    + intros [<-|H]; [by right; left|]. destruct (IH H); [by left|by right; right].
Qed.

Lemma In_obj_set_other o k v p : In p o -> fst p <> k -> In p (obj_set o k v).
Proof.
  intros Hin Hne. induction o as [|[k' v'] o IH]; simpl in *; [done|].
  destruct Hin as [<-|Hin]; simpl in *.
  - rewrite decide_False by done. by left.
  - destruct (decide (k' = k)); simpl; right; [done|by apply IH].
Qed.

Lemma obj_get_In o k v : obj_get o k = Some v -> In (k, v) o.
Proof.
  induction o as [|[k' v'] o IH]; simpl; [done|].
  destruct (decide (k' = k)) as [->|Hne].
  - intros [= ->]. by left.
  - intros H. right. by apply IH.
Qed.

Lemma obj_get_None o k : obj_get o k = None <-> forall v, ~ In (k, v) o.
Proof.
  induction o as [|[k' v'] o IH]; simpl; [naive_solver|].
  destruct (decide (k' = k)) as [->|Hne].
  - split; [done|]. intros H. destruct (H v'). by left.
  - rewrite IH. split.
    + intros H v [[= ? ?]|Hin]; [done|]. by apply (H v).
    + intros H v Hin. apply (H v). by right.
Qed.

Lemma In_obj_get o k v : List.NoDup (List.map fst o) -> In (k, v) o -> obj_get o k = Some v.
Proof.
  induction o as [|[k' v'] o IH]; simpl; [done|].
  intros Hnd [[= -> ->]|Hin].
  - by rewrite decide_True.
  - apply List.NoDup_cons_iff in Hnd as [Hk Hnd].
    rewrite decide_False; [by apply IH|].
    intros ->. apply Hk. apply (in_map fst) in Hin. exact Hin.
Qed.

Lemma obj_get_assign_all_notin l t k :
  (forall v, ~ In (k, v) l) -> obj_get (assign_all l t) k = obj_get t k.
Proof.
  revert t. induction l as [|[k' v'] l IH]; intros t H; simpl; [done|].
  rewrite IH.
  - apply obj_get_set_ne. intros ->. apply (H v'). by left.
  - intros v Hin. apply (H v). by right.
Qed.

Lemma obj_get_assign_all_in l t k v :
  List.NoDup (List.map fst l) -> In (k, v) l -> obj_get (assign_all l t) k = Some v.
Proof.
  revert t. induction l as [|[k' v'] l IH]; intros t Hnd Hin; simpl in *; [done|].
  apply List.NoDup_cons_iff in Hnd as [Hk Hnd].
  destruct Hin as [[= -> ->]|Hin].
  - rewrite obj_get_assign_all_notin; [apply obj_get_set_eq|].
    intros v' Hin. apply Hk. apply (in_map fst) in Hin. exact Hin.
  - by apply IH.
Qed.

Lemma In_assign_all l t p : In p (assign_all l t) -> In p t \/ In p l.
Proof.
  revert t. induction l as [|[k' v'] l IH]; intros t; simpl; [by left|].
  intros H. destruct (IH _ H) as [H'|H']; [|by right; right].
  destruct (In_obj_set _ _ _ _ H') as [->|H'']; [right; by left|by left].
Qed.

Lemma In_assign_all_other l t p :
  In p t -> (forall v, ~ In (fst p, v) l) -> In p (assign_all l t).
Proof.
  revert t. induction l as [|[k' v'] l IH]; intros t Hin H; simpl; [done|].
  apply IH.
  - apply In_obj_set_other; [done|]. simpl. intros E. apply (H v'). left. by rewrite E.
  - intros v Hv. apply (H v). by right.
Qed.

(** A property of [{ ...t, ...s }]-style assignment: the keys of the
    source override, every other key of the target is retained. *)
Lemma obj_get_Object_assign t s k :
  List.NoDup (List.map fst s) ->
  obj_get (Object_assign t s) k =
    match obj_get s k with
    | Some v => Some v
    | None => obj_get t k
    end.
Proof.
  intros Hnd. unfold Object_assign.
  destruct (obj_get s k) as [v|] eqn:E.
  - apply obj_get_assign_all_in; [by apply NoDup_keys_entries|].
    apply (proj2 (In_Object_entries _ _)). by apply obj_get_In.
  - apply obj_get_assign_all_notin. intros v Hin.
    apply (proj1 (In_Object_entries _ _)) in Hin. exact (proj1 (obj_get_None s k) E v Hin).
Qed.

Lemma obj_get_Object_assign_absent t s k :
  obj_get s k = None -> obj_get (Object_assign t s) k = obj_get t k.
Proof.
  intros E. unfold Object_assign.
  apply obj_get_assign_all_notin. intros v Hin.
  apply (proj1 (In_Object_entries _ _)) in Hin. exact (proj1 (obj_get_None s k) E v Hin).
Qed.

Lemma In_Object_assign t s p : In p (Object_assign t s) -> In p t \/ In p s.
Proof.
  unfold Object_assign.
  intros H. destruct (In_assign_all _ _ _ H); [by left|right].
  by apply (proj1 (In_Object_entries _ _)).
Qed.

Lemma In_Object_assign_other t s p :
  In p t -> (forall v, ~ In (fst p, v) s) -> In p (Object_assign t s).
Proof.
  intros Hin H. unfold Object_assign.
  apply In_assign_all_other; [done|].
  intros v Hv. apply (H v). by apply (proj1 (In_Object_entries _ _)).
Qed.

Lemma NoDup_keys_obj_set o k v :
  List.NoDup (List.map fst o) -> List.NoDup (List.map fst (obj_set o k v)).
Proof.
  induction o as [|[k' v'] o IH]; simpl; intros Hnd.
  - constructor; [by intros []|constructor].
  - apply List.NoDup_cons_iff in Hnd as [Hk Hnd].
    destruct (decide (k' = k)) as [->|Hne]; simpl.
    + by constructor.
    + constructor; [|by apply IH].
      intros Hin. apply in_map_iff in Hin as [[k0 v0] [Hk0 Hin]]. simpl in Hk0. subst k0.
      destruct (In_obj_set _ _ _ _ Hin) as [[= ? ?]|Hin']; [done|].
      apply Hk. apply (in_map fst) in Hin'. exact Hin'.
Qed.

Lemma NoDup_keys_assign_all l t :
  List.NoDup (List.map fst t) -> List.NoDup (List.map fst (assign_all l t)).
Proof.
  revert t. induction l as [|p l IH]; intros t H; simpl; [done|].
  apply IH. by apply NoDup_keys_obj_set.
Qed.
End objects.

(** ** Header lists and the store *)

Lemma apply_writes_app ws1 ws2 h :
  apply_writes (ws1 ++ ws2) h = apply_writes ws2 (apply_writes ws1 h).
Proof. apply fold_left_app. Qed.

(** Last writer wins: a header holds the normalized value of the last write
    to its name, and its former value when nothing wrote to it. *)
Lemma apply_writes_lookup ws h name :
  apply_writes ws h !! toLowerCase name =
    match last_write ws name with
    | Some v => Some (normalize v)
    | None => h !! toLowerCase name
    end.
Proof.
  revert h. induction ws as [|[k v] ws IH]; intros h; simpl; [done|].
  unfold apply_writes in *. simpl. rewrite IH.
  destruct (last_write ws name); [done|].
  destruct (decide (toLowerCase k = toLowerCase name)) as [->|Hne].
  - by rewrite lookup_insert_eq.
  - by rewrite lookup_insert_ne.
Qed.

Lemma last_write_app ws1 ws2 name :
  last_write (ws1 ++ ws2) name =
    match last_write ws2 name with
    | Some v => Some v
    | None => last_write ws1 name
    end.
Proof.
  induction ws1 as [|[k v] ws1 IH]; simpl.
  - by destruct (last_write ws2 name).
  - rewrite IH. by destruct (last_write ws2 name).
Qed.

Lemma last_write_None ws name :
  last_write ws name = None <->
  forall p, In p ws -> toLowerCase (fst p) <> toLowerCase name.
Proof.
  induction ws as [|[k v] ws IH]; simpl; [naive_solver|].
  destruct (last_write ws name) eqn:E.
  - split; [done|]. intros H. exfalso.
    assert (Some s = None) as Habs; [|done].
    apply (proj2 IH). intros p Hp. apply H. by right.
  - destruct (decide (toLowerCase k = toLowerCase name)) as [Heq|Hne].
    + split; [done|]. intros H. destruct (H (k, v)); [by left|done].
    + split; [|done]. intros _ p [<-|Hp]; [done|]. by apply (proj1 IH).
Qed.

Lemma last_write_In ws name v :
  last_write ws name = Some v ->
  exists k, In (k, v) ws /\ toLowerCase k = toLowerCase name.
Proof.
  induction ws as [|[k x] ws IH]; simpl; [done|].
  destruct (last_write ws name) eqn:E.
  - intros [= ->]. destruct IH as [k' [? ?]]; [done|]. exists k'. by split; [right|].
  - destruct (decide (toLowerCase k = toLowerCase name)); [|done].
    intros [= ->]. exists k. by split; [left|].
Qed.

(** When every write to [name] carries the same value, that value wins. *)
Lemma last_write_unique ws name k v :
  In (k, v) ws -> toLowerCase k = toLowerCase name ->
  (forall k' v', In (k', v') ws -> toLowerCase k' = toLowerCase name -> v' = v) ->
  last_write ws name = Some v.
Proof.
  intros Hin Hk Hall. destruct (last_write ws name) as [x|] eqn:E.
  - apply last_write_In in E as [k' [Hin' Hk']]. f_equal. by eapply Hall.
  - exfalso. by apply (proj1 (last_write_None _ _) E (k, v) Hin).
Qed.

Lemma wrote_refl h st st' : heap st' = heap st -> wrote h [] st st'.
Proof.
  intros E. unfold wrote, header_list. rewrite E. by repeat split.
Qed.

Lemma wrote_trans h ws1 ws2 st1 st2 st3 :
  wrote h ws1 st1 st2 -> wrote h ws2 st2 st3 -> wrote h (ws1 ++ ws2) st1 st3.
Proof.
  intros (E1 & F1 & D1) (E2 & F2 & D2). split; [|split].
  - by rewrite apply_writes_app, E2, E1.
  - intros l Hl. by rewrite F2, F1.
  - intros l Hl. by apply D2, D1.
Qed.

Lemma Headers_set_ok h k v st st' :
  Headers_set h k v st = (st', Ok tt) ->
  wrote h [(k, v)] st st' /\ kebabCache st' = kebabCache st.
Proof.
  unfold Headers_set. destruct (valid_name k && valid_value (normalize v)); [|done].
  intros [= <-]. split; [|done]. split; [|split].
  - unfold header_list at 1. simpl. by rewrite lookup_insert_eq.
  - intros l Hl. simpl. by rewrite lookup_insert_ne.
  - intros l Hl. simpl. destruct (decide (h = l)) as [->|Hne].
    + by rewrite lookup_insert_eq.
    + by rewrite lookup_insert_ne.
Qed.

Lemma Headers_set_throw h k v st st' e :
  Headers_set h k v st = (st', Throw e) ->
  st' = st /\ e = TypeError "Invalid header name or value".
Proof.
  unfold Headers_set. destruct (valid_name k && valid_value (normalize v)); [done|].
  by intros [= <- <-].
Qed.

Lemma for_of_set_ok h ws st st' :
  for_of ws (fun p => Headers_set h (fst p) (snd p)) st = (st', Ok tt) ->
  wrote h ws st st' /\ kebabCache st' = kebabCache st.
Proof.
  revert st. induction ws as [|[k v] ws IH]; intros st; simpl.
  - intros [= <-]. split; [by apply wrote_refl|done].
  - unfold bind. destruct (Headers_set h k v st) as [st1 [[]|e]] eqn:E; [|done].
    intros H. apply Headers_set_ok in E as [W1 C1]. apply IH in H as [W2 C2].
    split; [|congruence]. by apply (wrote_trans h [(k, v)] ws st st1 st').
Qed.

Lemma for_of_set_throw h ws st st' e :
  for_of ws (fun p => Headers_set h (fst p) (snd p)) st = (st', Throw e) ->
  e = TypeError "Invalid header name or value".
Proof.
  revert st. induction ws as [|[k v] ws IH]; intros st; simpl; [done|].
  unfold bind. destruct (Headers_set h k v st) as [st1 [[]|e1]] eqn:E.
  - apply IH.
  - intros [= <- <-]. by apply Headers_set_throw in E as [_ ->].
Qed.

(** A new [Headers] object is an object that did not exist, filled with a
    copy; nothing else changes. *)
Lemma new_Headers_ok init st :
  exists h st',
    new_Headers init st = (st', Ok h)
    /\ heap st !! h = None
    /\ header_list st' h = header_list st init
    /\ (forall l, l <> h -> heap st' !! l = heap st !! l)
    /\ is_Some (heap st' !! h)
    /\ kebabCache st' = kebabCache st.
Proof.
  eexists _, _. split; [reflexivity|]. simpl.
  set (h := fresh (dom (heap st))).
  assert (heap st !! h = None) as Hfresh.
  { apply not_elem_of_dom. apply is_fresh. }
  split; [done|]. split; [|split; [|split]].
  - unfold header_list at 1. simpl. by rewrite lookup_insert_eq.
  - intros l Hl. by rewrite lookup_insert_ne.
  - by rewrite lookup_insert_eq.
  - done.
Qed.

(** ** The kebab-case cache and the CSP builder *)

Lemma coherent_empty : coherent ∅.
Proof. intros k v H. by rewrite lookup_empty in H. Qed.

Lemma coherent_insert cache k :
  coherent cache -> coherent (<[k := kebab_replace k]> cache).
Proof.
  intros H k' v. destruct (decide (k = k')) as [->|Hne].
  - rewrite lookup_insert_eq. by intros [= <-].
  - rewrite lookup_insert_ne by done. apply H.
Qed.

(** [toKebabCase] never throws and leaves the [Headers] objects alone. *)
Lemma toKebabCase_heap key st :
  exists st' s, toKebabCase key st = (st', Ok s) /\ heap st' = heap st.
Proof.
  unfold toKebabCase. destruct (kebabCache st !! key) as [cached|].
  - destruct (bool_decide (cached <> "")); eauto.
  - eauto.
Qed.

(** With a coherent cache the memoized function computes [kebab_replace]. *)
Lemma toKebabCase_coherent key st :
  coherent (kebabCache st) ->
  exists st',
    toKebabCase key st = (st', Ok (kebab_replace key))
    /\ heap st' = heap st /\ coherent (kebabCache st').
Proof.
  intros Hc. unfold toKebabCase.
  destruct (kebabCache st !! key) as [cached|] eqn:E.
  - destruct (bool_decide (cached <> "")).
    + rewrite (Hc _ _ E). eauto.
    + eexists. split; [reflexivity|]. split; [done|]. by apply coherent_insert.
  - eexists. split; [reflexivity|]. split; [done|]. by apply coherent_insert.
Qed.

(** One pushed clause: the two statements that precede the recursive call. *)
Lemma clause_step_heap {A} key values (k : string -> string -> M A) st :
  (exists st1 s joined,
      heap st1 = heap st /\ values_join values = Ok joined
      /\ (let! x := toKebabCase key in let! j := lift (values_join values) in k x j) st
         = k s joined st1)
  \/ (exists st1,
        (let! x := toKebabCase key in let! j := lift (values_join values) in k x j) st
        = (st1, Throw (TypeError "values.join is not a function"))
        /\ heap st1 = heap st
        /\ values_join values = Throw (TypeError "values.join is not a function")).
Proof.
  destruct (toKebabCase_heap key st) as (st1 & s & E & Hh).
  unfold bind. rewrite E. unfold lift.
  destruct values; simpl; eauto 10.
Qed.

Lemma clause_step_coherent {A} key values (k : string -> string -> M A) st :
  coherent (kebabCache st) ->
  exists st1,
    heap st1 = heap st /\ coherent (kebabCache st1)
    /\ (let! x := toKebabCase key in let! j := lift (values_join values) in k x j) st
       = match values_join values with
         | Ok joined => k (kebab_replace key) joined st1
         | Throw e => (st1, Throw e)
         end.
Proof.
  intros Hc. destruct (toKebabCase_coherent key st Hc) as (st1 & E & Hh & Hc1).
  exists st1. split; [done|]. split; [done|].
  unfold bind. rewrite E. unfold lift. by destruct (values_join values).
Qed.

(** The builder only reads and fills the cache, and the only error it can
    throw is the missing [join] method. *)
Lemma buildCSPString_loop_heap c nonce entries parts st st' r :
  buildCSPString_loop c nonce entries parts st = (st', r) ->
  heap st' = heap st
  /\ (forall e, r = Throw e -> e = TypeError "values.join is not a function").
Proof.
  revert parts st. induction entries as [|[key values] rest IH]; intros parts st; simpl.
  - intros [= <- <-]. done.
  - destruct (negb (has_length values) || bool_decide (key = "useNonce")
              || bool_decide (key = "reportOnly")); [apply IH|].
    assert (forall (sfx : string -> string -> string),
      (let! k := toKebabCase key in
       let! joined := lift (values_join values) in
       buildCSPString_loop c nonce rest (parts ++ [sfx k joined])) st = (st', r) ->
      heap st' = heap st
      /\ (forall e, r = Throw e -> e = TypeError "values.join is not a function")) as Hstep.
    { intros sfx H.
      destruct (clause_step_heap key values
        (fun k joined => buildCSPString_loop c nonce rest (parts ++ [sfx k joined])) st)
        as [(st1 & s & joined & Hh & _ & E)|(st1 & E & Hh & _)]; rewrite E in H.
      - apply IH in H as [H1 H2]. split; [congruence|done].
      - injection H as <- <-. split; [done|]. by intros e [= <-]. }
    destruct nonce as [n|].
    + destruct (truthy (obj_get c "useNonce") && bool_decide (n <> "")
                && (bool_decide (key = "scriptSrc") || bool_decide (key = "styleSrc"))).
      * apply (Hstep (fun k joined => k +:+ " " +:+ joined +:+ " 'nonce-" +:+ n +:+ "'")).
      * apply (Hstep (fun k joined => k +:+ " " +:+ joined)).
    + apply (Hstep (fun k joined => k +:+ " " +:+ joined)).
Qed.

(** With a coherent cache the loop pushes exactly the clauses [csp_parts]. *)
Lemma buildCSPString_loop_coherent c nonce entries parts st st' r :
  coherent (kebabCache st) ->
  buildCSPString_loop c nonce entries parts st = (st', r) ->
  coherent (kebabCache st')
  /\ r = match csp_parts c nonce entries with
         | Ok ps => Ok (parts ++ ps)
         | Throw e => Throw e
         end.
Proof.
  revert parts st. induction entries as [|[key values] rest IH]; intros parts st Hc; simpl.
  - intros [= <- <-]. by rewrite app_nil_r.
  - destruct (negb (has_length values) || bool_decide (key = "useNonce")
              || bool_decide (key = "reportOnly")); [by apply IH|].
    unfold clause_text.
    assert (forall (sfx : string -> string -> string),
      (let! k := toKebabCase key in
       let! joined := lift (values_join values) in
       buildCSPString_loop c nonce rest (parts ++ [sfx k joined])) st = (st', r) ->
      coherent (kebabCache st')
      /\ r = match
               match values_join values with
               | Ok joined =>
                   match csp_parts c nonce rest with
                   | Ok ps => Ok (sfx (kebab_replace key) joined :: ps)
                   | Throw e => Throw e
                   end
               | Throw e => Throw e
               end
             with
             | Ok ps => Ok (parts ++ ps)
             | Throw e => Throw e
             end) as Hstep.
    { intros sfx H.
      destruct (clause_step_coherent key values
        (fun k joined => buildCSPString_loop c nonce rest (parts ++ [sfx k joined])) st Hc)
        as (st1 & Hh & Hc1 & E). rewrite E in H.
      destruct (values_join values) as [joined|e].
      - apply IH in H as [H1 ->]; [|done]. split; [done|].
        destruct (csp_parts c nonce rest); [|done]. by rewrite <- app_assoc.
      - by injection H as <- <-. }
    destruct nonce as [n|].
    + destruct (truthy (obj_get c "useNonce") && bool_decide (n <> "")
                && (bool_decide (key = "scriptSrc") || bool_decide (key = "styleSrc"))).
      * intros H.
        apply (Hstep (fun k joined => k +:+ " " +:+ joined +:+ " 'nonce-" +:+ n +:+ "'")) in H.
        destruct H as [H1 ->]. split; [done|]. by destruct (values_join values).
      * intros H. apply (Hstep (fun k joined => k +:+ " " +:+ joined)) in H.
        destruct H as [H1 ->]. split; [done|]. by destruct (values_join values).
    + intros H. apply (Hstep (fun k joined => k +:+ " " +:+ joined)) in H.
      destruct H as [H1 ->]. split; [done|]. by destruct (values_join values).
Qed.

Lemma buildCSPString_heap c nonce st st' r :
  buildCSPString c nonce st = (st', r) ->
  heap st' = heap st
  /\ (forall e, r = Throw e -> e = TypeError "values.join is not a function").
Proof.
  unfold buildCSPString, bind.
  destruct (buildCSPString_loop c nonce (Object_entries c) [] st) as [st1 [parts|e]] eqn:E;
    apply buildCSPString_loop_heap in E as [Hh He].
  - intros [= <- <-]. done.
  - intros [= <- <-]. split; [done|]. intros e' [= <-]. by apply He.
Qed.

Lemma buildCSPString_coherent c nonce st st' r :
  coherent (kebabCache st) ->
  buildCSPString c nonce st = (st', r) ->
  coherent (kebabCache st')
  /\ r = match csp_parts c nonce (Object_entries c) with
         | Ok ps => Ok (join "; " ps)
         | Throw e => Throw e
         end.
Proof.
  intros Hc. unfold buildCSPString, bind.
  destruct (buildCSPString_loop c nonce (Object_entries c) [] st) as [st1 r1] eqn:E.
  apply buildCSPString_loop_coherent in E as [Hc1 ->]; [|done].
  destruct (csp_parts c nonce (Object_entries c)); simpl; by intros [= <- <-].
Qed.

(** ** The stages of the middleware *)

Lemma csp_stage mw now random36 h st st' r :
  match read (csp (finalConfig mw)) with
  | Some c =>
      let nonce :=
        if truthy (obj_get c "useNonce") then Some (generateNonce now random36) else None in
      let headerName :=
        if truthy (obj_get c "reportOnly") then "Content-Security-Policy-Report-Only"
        else "Content-Security-Policy" in
      let! value := buildCSPString c nonce in
      let! _ := Headers_set h headerName value in
      match nonce with
      | Some n => if bool_decide (n <> "") then Headers_set h "X-Nonce" n else ret tt
      | None => ret tt
      end
  | None => ret tt
  end st = (st', r) ->
  match r with
  | Ok _ =>
      exists cspValue,
        wrote h (csp_writes mw cspValue now random36) st st'
        /\ forall c, read (csp (finalConfig mw)) = Some c ->
             exists sb, buildCSPString c (nonce_of c now random36) st = (sb, Ok cspValue)
  | Throw e => is_runtime_error e
  end.
Proof.
  unfold csp_writes, nonce_of, csp_header_name.
  destruct (read (csp (finalConfig mw))) as [c|]; simpl.
  2:{ intros [= <- <-]. exists "". split; [by apply wrote_refl|done]. }
  unfold bind.
  destruct (buildCSPString c _ st) as [st1 [value|e]] eqn:E1.
  2:{ intros [= <- <-]. apply buildCSPString_heap in E1 as [_ He].
      by rewrite (He e eq_refl). }
  pose proof (buildCSPString_heap _ _ _ _ _ E1) as [Hh1 _].
  destruct (Headers_set h _ value st1) as [st2 [[]|e]] eqn:E2.
  2:{ intros [= <- <-]. apply Headers_set_throw in E2 as [_ ->]. done. }
  apply Headers_set_ok in E2 as [W2 _].
  assert (wrote h [] st st1) as W1 by by apply wrote_refl.
  pose proof (wrote_trans _ _ _ _ _ _ W1 W2) as W12. simpl in W12.
  destruct (truthy (obj_get c "useNonce")) eqn:Hn.
  - destruct (bool_decide (generateNonce now random36 <> "")).
    + destruct r as [[]|e]; intros E3.
      * apply Headers_set_ok in E3 as [W3 _]. exists value. split.
        -- apply (wrote_trans _ _ _ _ _ _ W12 W3).
        -- intros c' [= <-]. rewrite Hn. eauto.
      * apply Headers_set_throw in E3 as [_ ->]. done.
    + intros [= <- <-]. exists value. split; [done|]. intros c' [= <-]. rewrite Hn. eauto.
  - intros [= <- <-]. exists value. split; [done|]. intros c' [= <-]. rewrite Hn. eauto.
Qed.

Lemma permissions_stage mw h st st' r :
  match read (permissionsPolicy (finalConfig mw)) with
  | Some p => Headers_set h "Permissions-Policy" (buildPermissionsPolicyString p)
  | None => ret tt
  end st = (st', r) ->
  match r with
  | Ok _ => wrote h (permissions_writes mw) st st'
  | Throw e => is_runtime_error e
  end.
Proof.
  unfold permissions_writes.
  destruct (read (permissionsPolicy (finalConfig mw))) as [p|].
  - destruct r as [[]|e]; intros E.
    + by apply Headers_set_ok in E as [W _].
    + by apply Headers_set_throw in E as [_ ->].
  - intros [= <- <-]. by apply wrote_refl.
Qed.

Lemma hsts_stage mw h st st' r :
  match hstsHeader mw with
  | Some v =>
      if bool_decide (v <> "") then Headers_set h "Strict-Transport-Security" v
      else ret tt
  | None => ret tt
  end st = (st', r) ->
  match r with
  | Ok _ => wrote h (hsts_writes mw) st st'
  | Throw e => is_runtime_error e
  end.
Proof.
  unfold hsts_writes.
  destruct (hstsHeader mw) as [v|]; [destruct (bool_decide (v <> ""))|].
  - destruct r as [[]|e]; intros E.
    + by apply Headers_set_ok in E as [W _].
    + by apply Headers_set_throw in E as [_ ->].
  - intros [= <- <-]. by apply wrote_refl.
  - intros [= <- <-]. by apply wrote_refl.
Qed.

Lemma new_Response_ok b s t h st st' resp :
  new_Response b s t h st = (st', Ok resp) ->
  status resp = s /\ statusText resp = t /\ body resp = b
  /\ heap st !! headers resp = None
  /\ header_list st' (headers resp) = header_list st h
  /\ (forall l, l <> headers resp -> heap st' !! l = heap st !! l).
Proof.
  unfold new_Response.
  destruct (negb ((200 <=? s)%Z && (s <=? 599)%Z)); [done|].
  destruct (negb (valid_reason_phrase t)); [done|].
  destruct (new_Headers_ok h st) as (own & st1 & E & Hfresh & Hl & Hf & _ & _).
  unfold bind. rewrite E.
  destruct (bool_decide (b <> None) && null_body_status s); [done|].
  intros [= <- <-]. simpl. done.
Qed.

Lemma new_Response_throw b s t h st st' e :
  new_Response b s t h st = (st', Throw e) -> is_runtime_error e.
Proof.
  unfold new_Response.
  destruct (negb ((200 <=? s)%Z && (s <=? 599)%Z)); [by intros [= <- <-]|].
  destruct (negb (valid_reason_phrase t)); [by intros [= <- <-]|].
  destruct (new_Headers_ok h st) as (own & st1 & E & _).
  unfold bind. rewrite E.
  destruct (bool_decide (b <> None) && null_body_status s); [by intros [= <- <-]|done].
Qed.

Lemma bind_ok {A B} (m : M A) (k : A -> M B) st st' b :
  bind m k st = (st', Ok b) ->
  exists a st1, m st = (st1, Ok a) /\ k a st1 = (st', Ok b).
Proof.
  unfold bind. destruct (m st) as [st1 [a|e]]; [eauto|done].
Qed.

Lemma bind_throw {A B} (m : M A) (k : A -> M B) st st' e :
  bind m k st = (st', Throw e) ->
  m st = (st', Throw e) \/ exists a st1, m st = (st1, Ok a) /\ k a st1 = (st', Throw e).
Proof.
  unfold bind. destruct (m st) as [st1 [a|e1]]; [eauto|].
  intros [= <- <-]. by left.
Qed.

Lemma new_Headers_inv init st st' h :
  new_Headers init st = (st', Ok h) ->
  heap st !! h = None
  /\ header_list st' h = header_list st init
  /\ (forall l, l <> h -> heap st' !! l = heap st !! l)
  /\ kebabCache st' = kebabCache st.
Proof.
  destruct (new_Headers_ok init st) as (h0 & st0 & E & H1 & H2 & H3 & _ & H5).
  rewrite E. intros [= <- <-]. done.
Qed.

(** What a run of the middleware body that returns a response has done:
    the new response has the status, status text and body of the old one;
    its [Headers] object is new and holds the old header list overwritten
    by the security writes in order; every object that existed is
    untouched; and the CSP value is what the builder returned. *)
Lemma inject_ok mw now random36 response st st' resp' :
  inject mw now random36 response st = (st', Ok resp') ->
  exists cspValue,
    header_list st' (headers resp')
      = apply_writes (security_writes mw cspValue now random36)
          (header_list st (headers response))
    /\ status resp' = status response
    /\ statusText resp' = statusText response
    /\ body resp' = body response
    /\ heap st !! headers resp' = None
    /\ (forall l, is_Some (heap st !! l) -> heap st' !! l = heap st !! l)
    /\ (forall c, read (csp (finalConfig mw)) = Some c ->
          exists sa sb,
            kebabCache sa = kebabCache st
            /\ buildCSPString c (nonce_of c now random36) sa = (sb, Ok cspValue)).
Proof.
  unfold inject. intros H.
  apply bind_ok in H as (h & st1 & E1 & H).
  apply new_Headers_inv in E1 as (Hfresh & Hcopy & Hl1 & Hc1).
  apply bind_ok in H as ([] & st2 & E2 & H).
  apply for_of_set_ok in E2 as [W2 Hc2].
  apply bind_ok in H as ([] & st3 & E3 & H).
  apply csp_stage in E3 as (cspValue & W3 & Hcsp).
  apply bind_ok in H as ([] & st4 & E4 & H).
  apply permissions_stage in E4. simpl in E4.
  apply bind_ok in H as ([] & st5 & E5 & H).
  apply hsts_stage in E5. simpl in E5.
  apply new_Response_ok in H as (Hs & Ht & Hb & Hown & Hfill & Hl6).
  pose proof (wrote_trans _ _ _ _ _ _ W2 (wrote_trans _ _ _ _ _ _ W3
    (wrote_trans _ _ _ _ _ _ E4 E5))) as (Hw & Hframe & Hdom).
  exists cspValue. split; [|split; [done|split; [done|split; [done|split; [|split]]]]].
  - rewrite Hfill, Hw, Hcopy. done.
  - destruct (heap st !! headers resp') as [x|] eqn:Ex; [|done].
    assert (is_Some (heap st5 !! headers resp')) as [y Hy]; [|congruence].
    apply Hdom. destruct (decide (headers resp' = h)) as [Heq|Hne];
      [rewrite Heq in Ex; congruence|].
    rewrite Hl1 by done. eauto.
  - intros l [x Hx].
    assert (l <> h) as Hlh by congruence.
    assert (l <> headers resp') as Hlo.
    { intros ->. assert (is_Some (heap st5 !! headers resp')) as [y Hy]; [|congruence].
      apply Hdom. rewrite Hl1 by done. eauto. }
    rewrite Hl6, Hframe, Hl1 by done. done.
  - intros c Hc. destruct (Hcsp c Hc) as [sb Hsb]. exists st2, sb. split; [congruence|done].
Qed.

(** A run of the middleware body that throws throws an error of the run
    time, never a plain [Error]. *)
Lemma inject_throw mw now random36 response st st' e :
  inject mw now random36 response st = (st', Throw e) -> is_runtime_error e.
Proof.
  unfold inject. intros H.
  apply bind_throw in H as [H|(h & st1 & _ & H)].
  { destruct (new_Headers_ok (headers response) st) as (? & ? & E & _). congruence. }
  apply bind_throw in H as [H|([] & st2 & _ & H)].
  { apply for_of_set_throw in H as ->. done. }
  apply bind_throw in H as [H|([] & st3 & _ & H)].
  { by apply csp_stage in H. }
  apply bind_throw in H as [H|([] & st4 & _ & H)].
  { by apply permissions_stage in H. }
  apply bind_throw in H as [H|([] & st5 & _ & H)].
  { by apply hsts_stage in H. }
  by apply new_Response_throw in H.
Qed.

(** ** Characters, strings and JSON values *)

Lemma string_forallb_app f s1 s2 :
  string_forallb f (s1 +:+ s2) = string_forallb f s1 && string_forallb f s2.
Proof.
  induction s1 as [|c s1 IH]; [done|].
  change (String c s1 +:+ s2) with (String c (s1 +:+ s2)).
  cbn [string_forallb]. rewrite IH. by rewrite andb_assoc.
Qed.

Lemma string_forallb_impl (f g : ascii -> bool) s :
  (forall c, f c = true -> g c = true) ->
  string_forallb f s = true -> string_forallb g s = true.
Proof.
  intros Hfg. induction s as [|c s IH]; [done|]. cbn [string_forallb].
  intros H. apply andb_true_iff in H as [H1 H2]. by rewrite (Hfg c H1), IH.
Qed.

Lemma string_forallb_join f sep l :
  string_forallb f sep = true ->
  Forall (fun s => string_forallb f s = true) l ->
  string_forallb f (join sep l) = true.
Proof.
  intros Hsep H. induction H as [|s l Hs H IH]; [done|].
  destruct l as [|s' l]; [by cbn [join]|].
  change (join sep (s :: s' :: l)) with (s +:+ sep +:+ join sep (s' :: l)).
  rewrite !string_forallb_app, Hs, Hsep. exact IH.
Qed.

Lemma append_empty s : s +:+ "" = s.
Proof. induction s as [|c s IH]; [done|]. exact (f_equal (String c) IH). Qed.

Lemma all_ascii_spec f : all_ascii f = true -> forall c, f c = true.
Proof.
  intros H c. unfold all_ascii in H. rewrite forallb_forall in H.
  rewrite <- (ascii_nat_embedding c). apply H. apply in_seq.
  pose proof (nat_ascii_bounded c). lia.
Qed.

Lemma Json_induction (P : Json -> Prop) :
  P JNull -> P JUndefined -> (forall b, P (JBool b)) -> (forall z, P (JNumber z)) ->
  (forall s, P (JString s)) ->
  (forall l, Forall P l -> P (JArray l)) ->
  (forall o, Forall (fun p => P (snd p)) o -> P (JObject o)) ->
  forall j, P j.
Proof.
  intros Hn Hu Hb Hz Hs Ha Ho. fix IH 1. intros [| |b|z|s|l|o].
  - exact Hn.
  - exact Hu.
  - apply Hb.
  - apply Hz.
  - apply Hs.
  - apply Ha. induction l as [|x l IHl]; constructor; [apply IH|exact IHl].
  - apply Ho. induction o as [|[k x] o IHo]; constructor; [apply IH|exact IHo].
Qed.

Lemma b64_char_text n : base64_text_char (b64_char n) = true.
Proof.
  unfold b64_char. generalize (N.to_nat n). intros k.
  do 65 (destruct k as [|k]; [reflexivity|]). reflexivity.
Qed.

Lemma base64_text bs : string_forallb base64_text_char (base64 bs) = true.
Proof.
  induction bs as [bs IH] using (induction_ltof1 _ (@length N)). unfold ltof in IH.
  destruct bs as [|a [|b [|c rest]]]; cbn [base64 string_forallb];
    rewrite ?b64_char_text; try reflexivity.
  apply IH. simpl. lia.
Qed.

(** * The specification, statement by statement *)

(** ** C8: the downstream response is not mutated *)

(** C8. The middleware does not mutate the downstream handler's response:
    every [Headers] object that existed when the handler returned, the
    response's own among them, holds the same header list afterwards, and
    the middleware returns a new response, with a new [Headers] object,
    whose status, status text and body are those of the original.  The new
    header list is the original one overwritten by the security writes in
    order (static headers, CSP and nonce, Permissions-Policy, HSTS): each
    header holds the value of the last security write to its name, and the
    handler's value only when no security write names it. *)
Theorem C8_response_preserved mw now random36 (next : M Response) st0 st response st' resp' :
  next st0 = (st, Ok response) ->
  is_Some (heap st !! headers response) ->
  middleware mw now random36 next st0 = (st', Ok resp') ->
  (forall l, is_Some (heap st !! l) -> heap st' !! l = heap st !! l)
  /\ headers resp' <> headers response
  /\ status resp' = status response
  /\ statusText resp' = statusText response
  /\ body resp' = body response
  /\ exists cspValue,
       (forall c, read (csp (finalConfig mw)) = Some c ->
          exists sa sb,
            kebabCache sa = kebabCache st
            /\ buildCSPString c (nonce_of c now random36) sa = (sb, Ok cspValue))
       /\ forall name,
            Headers_get st' (headers resp') name =
              match last_write (security_writes mw cspValue now random36) name with
              | Some v => Some (normalize v)
              | None => Headers_get st (headers response) name
              end.
Proof.
  intros Hnext [x Hx] H. unfold middleware, bind in H. rewrite Hnext in H.
  apply inject_ok in H as (cspValue & Hw & Hs & Ht & Hb & Hnew & Hframe & Hcsp).
  split; [done|]. split; [congruence|]. do 3 (split; [done|]).
  exists cspValue. split; [done|]. intros name.
  unfold Headers_get. rewrite Hw. apply apply_writes_lookup.
Qed.

Lemma C8_response_preserved_witness :
  let run :=
    middleware (closure (Some "production") empty_config)
      Example.now Example.random36 Example.next Example.store in
  heap (fst run) !! 0%nat = heap Example.store !! 0%nat
  /\ headers (Example.returned run) <> 0%nat
  /\ status (Example.returned run) = 200%Z
  /\ body (Example.returned run) = Some "{}"
  /\ Headers_get (fst run) (headers (Example.returned run)) "Content-Type"
     = Some "application/json"
  /\ Headers_get (fst run) (headers (Example.returned run)) "X-Frame-Options"
     = Some "DENY".
Proof.
  intros run.
  destruct (C8_response_preserved
              (closure (Some "production") empty_config)
              Example.now Example.random36 Example.next Example.store Example.store
              Example.response (fst run) (Example.returned run))
    as (Hframe & Hnew & Hs & _ & Hb & cspValue & _ & Hget).
  - reflexivity.
  - vm_compute. eauto.
  - vm_compute. reflexivity.
  - split; [apply Hframe; vm_compute; eauto|].
    split; [exact Hnew|]. split; [exact Hs|]. split; [exact Hb|].
    split; rewrite Hget; vm_compute; reflexivity.
Defined.

(** ** The static headers *)

Ltac static_cases H :=
  repeat match type of H with
    | In _ (obj_set _ _ _) => apply In_obj_set in H as [H|H]
    | In _ (match ?x with _ => _ end) => destruct x
    | In _ [] => destruct H
    | _ = _ => injection H as -> ->
    end.

(** Every static header is [X-Content-Type-Options: nosniff], one of the
    optional built-in headers, or a custom header. *)
Lemma In_build_staticHeaders final k v :
  In (k, v) (build_staticHeaders final) ->
  (exists custom, read (customHeaders final) = Some custom /\ In (k, v) custom)
  \/ (k = "X-Content-Type-Options" /\ v = "nosniff")
  \/ In k optional_static_names.
Proof.
  unfold build_staticHeaders. intros H.
  assert (forall s8 : Obj string,
    (In (k, v) s8 -> (k = "X-Content-Type-Options" /\ v = "nosniff")
                     \/ In k optional_static_names) ->
    In (k, v) match read (customHeaders final) with
              | Some custom => Object_assign s8 custom
              | None => s8
              end ->
    (exists custom, read (customHeaders final) = Some custom /\ In (k, v) custom)
    \/ (k = "X-Content-Type-Options" /\ v = "nosniff")
    \/ In k optional_static_names) as Hcustom.
  { intros s8 Hs8 Hin. destruct (read (customHeaders final)) as [custom|].
    - apply In_Object_assign in Hin as [Hin|Hin]; [right; by apply Hs8|left; eauto].
    - right. by apply Hs8. }
  apply Hcustom in H; [done|]. clear H Hcustom. intros H.
  unfold optional_static_names.
  static_cases H; simpl; auto 12.
Qed.

(** [X-Content-Type-Options: nosniff] is among the static headers unless a
    custom header has exactly that name. *)
Lemma nosniff_In_build_staticHeaders final :
  (forall custom v, read (customHeaders final) = Some custom ->
     ~ In ("X-Content-Type-Options", v) custom) ->
  In ("X-Content-Type-Options", "nosniff") (build_staticHeaders final).
Proof.
  intros Hc. unfold build_staticHeaders.
  assert (forall s2 : Obj string,
    In ("X-Content-Type-Options", "nosniff") (obj_set s2 "X-Content-Type-Options" "nosniff"))
    as H3.
  { intros s2. apply obj_get_In. apply obj_get_set_eq. }
  assert (forall (s : Obj string) k v, k <> "X-Content-Type-Options" ->
    In ("X-Content-Type-Options", "nosniff") s ->
    In ("X-Content-Type-Options", "nosniff") (obj_set s k v)) as Hkeep.
  { intros s k v Hk Hin. apply In_obj_set_other; [done|]. simpl. congruence. }
  destruct (read (customHeaders final)) as [custom|] eqn:E.
  - apply In_Object_assign_other; [|intros v; by apply Hc].
    repeat match goal with
      | |- In _ (match ?x with _ => _ end) => destruct x
      | |- In _ (obj_set _ "X-Content-Type-Options" _) => apply H3
      | |- In _ (obj_set _ _ _) => apply Hkeep; [done|]
      end.
  - repeat match goal with
      | |- In _ (match ?x with _ => _ end) => destruct x
      | |- In _ (obj_set _ "X-Content-Type-Options" _) => apply H3
      | |- In _ (obj_set _ _ _) => apply Hkeep; [done|]
      end.
Qed.

Lemma customHeaders_build_finalConfig config :
  read (customHeaders (build_finalConfig config)) = read (customHeaders config).
Proof. simpl. by destruct (customHeaders config). Qed.

(** ** C1: X-Content-Type-Options *)

Lemma last_write_static_nosniff final :
  (forall custom k v, read (customHeaders final) = Some custom ->
     In (k, v) custom -> toLowerCase k <> "x-content-type-options") ->
  last_write (Object_entries (build_staticHeaders final)) "X-Content-Type-Options"
  = Some "nosniff".
Proof.
  intros Hc.
  apply (last_write_unique _ _ "X-Content-Type-Options").
  - apply (proj2 (In_Object_entries _ _)). apply nosniff_In_build_staticHeaders.
    intros custom v E Hin. by apply (Hc custom _ v E Hin).
  - reflexivity.
  - intros k v Hin Hk. apply (proj1 (In_Object_entries _ _)) in Hin.
    apply In_build_staticHeaders in Hin as [(custom & E & Hin)|[[_ ->]|Hin]]; [|done|].
    + by destruct (Hc custom k v E Hin).
    + exfalso. unfold optional_static_names in Hin. simpl in Hin.
      repeat destruct Hin as [<-|Hin]; try discriminate Hk. done.
Qed.

(** No write after the static ones names [name] when [name] is none of the
    headers of the per-request stage. *)
Lemma last_write_dynamic_None mw cspValue now random36 name :
  toLowerCase name <> "content-security-policy" ->
  toLowerCase name <> "content-security-policy-report-only" ->
  toLowerCase name <> "x-nonce" ->
  toLowerCase name <> "permissions-policy" ->
  toLowerCase name <> "strict-transport-security" ->
  last_write (csp_writes mw cspValue now random36 ++ permissions_writes mw ++ hsts_writes mw)
    name = None.
Proof.
  intros H1 H2 H3 H4 H5. apply last_write_None. intros [k v] Hin. simpl.
  intros E. symmetry in E. revert E.
  apply in_app_or in Hin as [Hin|Hin]; [|apply in_app_or in Hin as [Hin|Hin]].
  - unfold csp_writes, csp_header_name in Hin.
    destruct (read (csp (finalConfig mw))) as [c|]; [|done].
    destruct Hin as [[= <- <-]|Hin].
    + destruct (truthy (obj_get c "reportOnly")); [exact H2|exact H1].
    + destruct (nonce_of c now random36) as [n|]; [|done].
      destruct (bool_decide (n <> "")); [|done].
      destruct Hin as [[= <- <-]|[]]. exact H3.
  - unfold permissions_writes in Hin.
    destruct (read (permissionsPolicy (finalConfig mw))); [|done].
    destruct Hin as [[= <- <-]|[]]. exact H4.
  - unfold hsts_writes in Hin. destruct (hstsHeader mw) as [x|]; [|done].
    destruct (bool_decide (x <> "")); [|done].
    destruct Hin as [[= <- <-]|[]]. exact H5.
Qed.

Lemma tirneHelmet_Ok NODE_ENV config mw :
  tirneHelmet NODE_ENV config = Ok mw ->
  mw = closure NODE_ENV config.
Proof.
  unfold tirneHelmet. destruct (validateConfig config); [|done]. by intros [= <-].
Qed.

(** C1 (as amended).  For every configuration whose custom headers do not
    name [X-Content-Type-Options] (in any letter case), every response the
    middleware returns carries [X-Content-Type-Options] with the value
    [nosniff], whatever the downstream response held. *)
Theorem C1_nosniff_unless_custom NODE_ENV config mw now random36 (next : M Response)
    st0 st response st' resp' :
  tirneHelmet NODE_ENV config = Ok mw ->
  (forall custom k v, read (customHeaders config) = Some custom ->
     In (k, v) custom -> toLowerCase k <> "x-content-type-options") ->
  next st0 = (st, Ok response) ->
  middleware mw now random36 next st0 = (st', Ok resp') ->
  Headers_get st' (headers resp') "X-Content-Type-Options" = Some "nosniff".
Proof.
  intros Hmw Hc Hnext H. apply tirneHelmet_Ok in Hmw as ->.
  unfold middleware, bind in H. rewrite Hnext in H.
  apply inject_ok in H as (cspValue & Hw & _).
  unfold Headers_get. rewrite Hw, apply_writes_lookup.
  unfold security_writes. rewrite last_write_app.
  rewrite last_write_dynamic_None by (vm_compute; discriminate).
  simpl staticHeaders. rewrite last_write_static_nosniff; [done|].
  intros custom k v E. rewrite customHeaders_build_finalConfig in E. by apply Hc.
Qed.

Lemma C1_nosniff_unless_custom_witness :
  let run :=
    middleware (closure None Example.custom_plain)
      Example.now Example.random36 Example.next Example.store in
  Headers_get (fst run) (headers (Example.returned run)) "X-Content-Type-Options"
  = Some "nosniff".
Proof.
  intros run.
  apply (C1_nosniff_unless_custom None Example.custom_plain
           (closure None Example.custom_plain)
           Example.now Example.random36 Example.next Example.store Example.store
           Example.response (fst run) (Example.returned run)).
  - reflexivity.
  - intros custom k v [= <-] Hin. simpl in Hin.
    destruct Hin as [[= <- <-]|[[= <- <-]|[]]]; vm_compute; discriminate.
  - reflexivity.
  - vm_compute. reflexivity.
Defined.

(** C1 (counterexample).  With the custom header
    [X-Content-Type-Options: sniff] the configuration is accepted and the
    response carries [sniff], not [nosniff]. *)
Lemma C1_counterexample :
  let run :=
    middleware (closure None Example.custom_sniff)
      Example.now Example.random36 Example.next Example.store in
  tirneHelmet None Example.custom_sniff = Ok (closure None Example.custom_sniff)
  /\ (exists resp', snd run = Ok resp')
  /\ Headers_get (fst run) (headers (Example.returned run)) "X-Content-Type-Options"
     = Some "sniff".
Proof.
  vm_compute. split; [reflexivity|]. split; [eauto|reflexivity].
Qed.

(** ** The nonce *)

Lemma b64_char_not_whitespace n : is_http_whitespace (b64_char n) = false.
Proof.
  unfold b64_char. generalize (N.to_nat n). intros k.
  do 65 (destruct k as [|k]; [reflexivity|]). reflexivity.
Qed.

Lemma b64_char_not_space n : Ascii.eqb (b64_char n) " " = false.
Proof.
  unfold b64_char. generalize (N.to_nat n). intros k.
  do 65 (destruct k as [|k]; [reflexivity|]). reflexivity.
Qed.

(** The base64 text of a buffer. *)
Lemma base64_cases bs :
  bs = [] \/ exists n1 n2 c3 c4 rest',
    base64 bs = String (b64_char n1) (String (b64_char n2) (String c3 (String c4 rest')))
    /\ is_http_whitespace c3 = false /\ Ascii.eqb c3 " " = false
    /\ is_http_whitespace c4 = false /\ Ascii.eqb c4 " " = false
    /\ exists bs', rest' = base64 bs' /\ (length bs' < length bs)%nat.
Proof.
  destruct bs as [|a [|b [|c rest]]]; [by left|right..]; simpl.
  - eexists _, _, _, _, _. split; [reflexivity|]. do 4 (split; [reflexivity|]).
    exists []. split; [reflexivity|simpl; lia].
  - eexists _, _, _, _, _. split; [reflexivity|].
    split; [apply b64_char_not_whitespace|]. split; [apply b64_char_not_space|].
    do 2 (split; [reflexivity|]). exists []. split; [reflexivity|simpl; lia].
  - eexists _, _, _, _, _. split; [reflexivity|].
    split; [apply b64_char_not_whitespace|]. split; [apply b64_char_not_space|].
    split; [apply b64_char_not_whitespace|]. split; [apply b64_char_not_space|].
    exists rest. split; [reflexivity|simpl; lia].
Qed.

(** No character of a base64 text is HTTP whitespace. *)
Lemma base64_no_whitespace bs :
  string_forallb (fun c => negb (is_http_whitespace c)) (base64 bs) = true.
Proof.
  induction bs as [bs IH] using (induction_ltof1 _ (@length N)). unfold ltof in IH.
  destruct (base64_cases bs) as [->|(n1 & n2 & c3 & c4 & rest' & E & H3 & _ & H4 & _ & bs' & -> & Hlt)];
    [done|].
  rewrite E. simpl. rewrite !b64_char_not_whitespace, H3, H4. simpl. by apply IH.
Qed.

Lemma base64_no_space bs :
  string_forallb (fun c => negb (Ascii.eqb c " ")) (base64 bs) = true.
Proof.
  induction bs as [bs IH] using (induction_ltof1 _ (@length N)). unfold ltof in IH.
  destruct (base64_cases bs) as [->|(n1 & n2 & c3 & c4 & rest' & E & _ & H3 & _ & H4 & bs' & -> & Hlt)];
    [done|].
  rewrite E. simpl. rewrite !b64_char_not_space, H3, H4. simpl. by apply IH.
Qed.

Lemma base64_nonempty bs : bs <> [] -> base64 bs <> "".
Proof.
  intros Hbs. destruct (base64_cases bs) as [->|(? & ? & ? & ? & ? & E & _)]; [done|].
  by rewrite E.
Qed.

Lemma Number_toString_nonempty z : exists c s, Number_toString z = String c s.
Proof.
  unfold Number_toString. destruct (Z.to_int z) as [d|d]; simpl.
  - unfold NilZero.string_of_uint. destruct d; simpl; eauto.
  - eauto.
Qed.

Lemma Buffer_from_nonempty c s : Buffer_from (String c s) <> [].
Proof.
  simpl. unfold utf8_char. by destruct (N_of_ascii c <? 128)%N.
Qed.

(** [generateNonce] never returns the empty string. *)
Lemma generateNonce_nonempty now random36 : generateNonce now random36 <> "".
Proof.
  unfold generateNonce. apply base64_nonempty.
  destruct (Number_toString_nonempty now) as (c & s & ->). apply Buffer_from_nonempty.
Qed.

Lemma strip_leading_id s :
  string_forallb (fun c => negb (is_http_whitespace c)) s = true -> strip_leading s = s.
Proof.
  destruct s as [|c s]; simpl; [done|].
  by destruct (is_http_whitespace c).
Qed.

Lemma strip_trailing_id s :
  string_forallb (fun c => negb (is_http_whitespace c)) s = true -> strip_trailing s = s.
Proof.
  induction s as [|c s IH]; simpl; [done|].
  destruct (is_http_whitespace c); simpl; [done|]. intros H. rewrite IH by done.
  by destruct s.
Qed.

(** A value without HTTP whitespace is stored as it is. *)
Lemma normalize_id s :
  string_forallb (fun c => negb (is_http_whitespace c)) s = true -> normalize s = s.
Proof.
  intros H. unfold normalize. rewrite strip_leading_id by done. by apply strip_trailing_id.
Qed.

Lemma normalize_generateNonce now random36 :
  normalize (generateNonce now random36) = generateNonce now random36.
Proof. apply normalize_id. apply base64_no_whitespace. Qed.

(** ** C10: the nonce header *)

(** The nonce header of a returned response, in nonce mode. *)
Lemma inject_nonce_header mw c now random36 response st st' resp' :
  read (csp (finalConfig mw)) = Some c ->
  truthy (obj_get c "useNonce") = true ->
  inject mw now random36 response st = (st', Ok resp') ->
  Headers_get st' (headers resp') "X-Nonce" = Some (generateNonce now random36).
Proof.
  intros Hc Hn H.
  apply inject_ok in H as (cspValue & Hw & _).
  unfold Headers_get. rewrite Hw, apply_writes_lookup.
  unfold security_writes. rewrite app_assoc, last_write_app.
  assert (last_write (permissions_writes mw ++ hsts_writes mw) "X-Nonce" = None) as ->.
  { apply last_write_None. intros [k v] Hin. simpl.
    intros E. symmetry in E. revert E.
    unfold permissions_writes, hsts_writes in Hin.
    destruct (read (permissionsPolicy (finalConfig mw)));
      destruct (hstsHeader mw) as [x|]; try destruct (bool_decide (x <> ""));
      simpl in Hin; repeat destruct Hin as [[= <- <-]|Hin]; try done. }
  rewrite last_write_app. unfold csp_writes, nonce_of. rewrite Hc, Hn.
  rewrite bool_decide_true by apply generateNonce_nonempty. simpl.
  by rewrite normalize_generateNonce.
Qed.

(** C10.  Whenever [useNonce] is truthy in the resolved CSP section, every
    response the middleware returns carries [X-Nonce] with the nonce
    generated for it.  Nothing is assumed of the source lists: the header is
    there also when [scriptSrc] and [styleSrc] are empty or absent and no
    clause of the CSP header received the nonce token. *)
Theorem C10_nonce_header_present mw c now random36 (next : M Response)
    st0 st response st' resp' :
  read (csp (finalConfig mw)) = Some c ->
  truthy (obj_get c "useNonce") = true ->
  next st0 = (st, Ok response) ->
  middleware mw now random36 next st0 = (st', Ok resp') ->
  Headers_get st' (headers resp') "X-Nonce" = Some (generateNonce now random36).
Proof.
  intros Hc Hn Hnext H.
  unfold middleware, bind in H. rewrite Hnext in H.
  by apply (inject_nonce_header mw c now random36 response st).
Qed.

Lemma C10_nonce_header_present_witness :
  let run :=
    middleware (closure None Example.nonce_without_sources)
      Example.now Example.random36 Example.next Example.store in
  Headers_get (fst run) (headers (Example.returned run)) "X-Nonce"
  = Some "MTcwMDAwMDAwMDAwMDgybXZ5cg=="
  /\ Headers_get (fst run) (headers (Example.returned run)) "Content-Security-Policy"
     = Some "default-src 'self'; img-src 'self' data: blob:; font-src 'self'; connect-src 'self'; frame-src 'self'; object-src 'none'; base-uri 'self'".
Proof.
  intros run. split; [|vm_compute; reflexivity].
  apply (C10_nonce_header_present
           (closure None Example.nonce_without_sources)
           (spread2 DEFAULT_CSP_CONFIG
              [("useNonce", CBool true); ("scriptSrc", CList []); ("styleSrc", CList [])])
           Example.now Example.random36 Example.next Example.store Example.store
           Example.response (fst run) (Example.returned run)).
  - reflexivity.
  - vm_compute. reflexivity.
  - reflexivity.
  - vm_compute. reflexivity.
Defined.

(** ** C5: Strict-Transport-Security *)

Lemma hsts_build_finalConfig config :
  exists h, read (hsts (build_finalConfig config)) = Some h.
Proof.
  simpl. destruct (read (hsts config)); simpl; eauto.
Qed.

(** In production the closure holds a non-empty HSTS value. *)
Lemma build_hstsHeader_production config :
  exists v,
    build_hstsHeader (Some "production") (build_finalConfig config) = Some v /\ v <> "".
Proof.
  destruct (hsts_build_finalConfig config) as [h Hh].
  unfold build_hstsHeader. rewrite Hh. rewrite bool_decide_true by done.
  eexists. split; [reflexivity|]. done.
Qed.

Lemma build_hstsHeader_other NODE_ENV final :
  NODE_ENV <> Some "production" -> build_hstsHeader NODE_ENV final = None.
Proof.
  intros H. unfold build_hstsHeader. rewrite bool_decide_false by done.
  by destruct (read (hsts final)).
Qed.

Lemma last_write_static_None final name :
  (forall custom k v, read (customHeaders final) = Some custom ->
     In (k, v) custom -> toLowerCase k <> toLowerCase name) ->
  toLowerCase name <> "x-content-type-options" ->
  (forall k, In k optional_static_names -> toLowerCase k <> toLowerCase name) ->
  last_write (Object_entries (build_staticHeaders final)) name = None.
Proof.
  intros Hc Hx Ho. apply last_write_None. intros [k v] Hin. simpl.
  apply (proj1 (In_Object_entries _ _)) in Hin.
  apply In_build_staticHeaders in Hin as [(custom & E & Hin)|[[-> ->]|Hin]].
  - by apply (Hc custom k v).
  - intros E. apply Hx. by rewrite <- E.
  - by apply Ho.
Qed.

(** C5 (as amended).  In production every response the middleware returns
    carries [Strict-Transport-Security], built from the resolved [hsts]
    section.  Outside production the middleware does not write the header:
    when no custom header names it and the downstream response does not
    carry it, the returned response carries it if and only if the mode read
    at construction is production. *)
Theorem C5_hsts_iff_production NODE_ENV config mw now random36 (next : M Response)
    st0 st response st' resp' :
  tirneHelmet NODE_ENV config = Ok mw ->
  next st0 = (st, Ok response) ->
  middleware mw now random36 next st0 = (st', Ok resp') ->
  (NODE_ENV = Some "production" ->
     exists v, hstsHeader mw = Some v
       /\ Headers_get st' (headers resp') "Strict-Transport-Security" = Some (normalize v))
  /\ ((forall custom k v, read (customHeaders config) = Some custom ->
         In (k, v) custom -> toLowerCase k <> "strict-transport-security") ->
      Headers_get st (headers response) "Strict-Transport-Security" = None ->
      (is_Some (Headers_get st' (headers resp') "Strict-Transport-Security")
       <-> NODE_ENV = Some "production")).
Proof.
  intros Hmw Hnext H. apply tirneHelmet_Ok in Hmw as ->.
  unfold middleware, bind in H. rewrite Hnext in H.
  apply inject_ok in H as (cspValue & Hw & _).
  unfold Headers_get. rewrite Hw, apply_writes_lookup.
  unfold security_writes. rewrite !app_assoc, last_write_app.
  assert (NODE_ENV = Some "production" ->
    exists v, hstsHeader (closure NODE_ENV config) = Some v
      /\ last_write (hsts_writes (closure NODE_ENV config))
           "Strict-Transport-Security" = Some v) as Hprod.
  { intros ->. destruct (build_hstsHeader_production config) as (v & E & Hv).
    exists v. split; [done|]. unfold hsts_writes. simpl hstsHeader. rewrite E.
    rewrite bool_decide_true by done. reflexivity. }
  split.
  - intros Hp. destruct (Hprod Hp) as (v & E & ->). eauto.
  - intros Hc Horig. split.
    + destruct (decide (NODE_ENV = Some "production")) as [|Hne]; [done|].
      intros Hsome. exfalso.
      unfold hsts_writes in Hsome. simpl hstsHeader in Hsome.
      rewrite build_hstsHeader_other in Hsome by done. simpl last_write in Hsome.
      rewrite <- !app_assoc, last_write_app in Hsome.
      assert (last_write
                (csp_writes (closure NODE_ENV config) cspValue now random36
                 ++ permissions_writes (closure NODE_ENV config))
                "Strict-Transport-Security" = None) as E.
      { apply last_write_None. intros [k v] Hin. simpl.
        intros E. symmetry in E. revert E.
        apply in_app_or in Hin as [Hin|Hin].
        - unfold csp_writes, csp_header_name in Hin.
          destruct (read (csp (finalConfig (closure NODE_ENV config)))) as [c|];
            [|done].
          destruct Hin as [[= <- <-]|Hin].
          + by destruct (truthy (obj_get c "reportOnly")).
          + destruct (nonce_of c now random36) as [n|]; [|done].
            destruct (bool_decide (n <> "")); [|done].
            by destruct Hin as [[= <- <-]|[]].
        - unfold permissions_writes in Hin.
          destruct (read (permissionsPolicy (finalConfig (closure NODE_ENV config))));
            [|done].
          by destruct Hin as [[= <- <-]|[]]. }
      rewrite E in Hsome. simpl staticHeaders in Hsome.
      rewrite last_write_static_None in Hsome.
      * unfold Headers_get in Horig. rewrite Horig in Hsome. by destruct Hsome.
      * intros custom k v Ec. rewrite customHeaders_build_finalConfig in Ec. by apply Hc.
      * vm_compute. discriminate.
      * intros k Hk. unfold optional_static_names in Hk. simpl in Hk.
        repeat destruct Hk as [<-|Hk]; try (vm_compute; discriminate). done.
    + intros Hp. destruct (Hprod Hp) as (v & E & ->). eauto.
Qed.

Lemma C5_hsts_iff_production_witness :
  let run :=
    middleware (closure (Some "production") empty_config)
      Example.now Example.random36 Example.next Example.store in
  Headers_get (fst run) (headers (Example.returned run)) "Strict-Transport-Security"
  = Some "max-age=15552000; includeSubDomains; preload".
Proof.
  intros run.
  destruct (C5_hsts_iff_production (Some "production") empty_config
              (closure (Some "production") empty_config)
              Example.now Example.random36 Example.next Example.store Example.store
              Example.response (fst run) (Example.returned run))
    as [Hprod _].
  - reflexivity.
  - reflexivity.
  - vm_compute. reflexivity.
  - destruct (Hprod eq_refl) as (v & Hv & ->).
    vm_compute in Hv. injection Hv as <-. vm_compute. reflexivity.
Defined.

(** C5 (counterexample).  In development mode, with the default
    configuration, a downstream response that carries
    [Strict-Transport-Security] yields a response that carries it too. *)
Lemma C5_counterexample :
  let run :=
    middleware (closure (Some "development") empty_config)
      Example.now Example.random36 Example.next Example.store_with_hsts in
  tirneHelmet (Some "development") empty_config
  = Ok (closure (Some "development") empty_config)
  /\ (exists resp', snd run = Ok resp')
  /\ Headers_get (fst run) (headers (Example.returned run)) "Strict-Transport-Security"
     = Some "max-age=63072000".
Proof.
  vm_compute. split; [reflexivity|]. split; [eauto|reflexivity].
Qed.

(** ** C2 and C6: resolution of the configuration *)

(** The keys of a concrete object are distinct. *)
Ltac solve_NoDup :=
  apply NoDup_ListNoDup; apply (bool_decide_unpack _); vm_compute; exact I.

Lemma overrides_spread_prop {T} (d u : prop T) : overrides d u (spread_prop d u).
Proof. unfold overrides. by destruct u. Qed.

Lemma obj_get_copy {V} (d : Obj V) k :
  List.NoDup (List.map fst d) -> obj_get (Object_assign [] d) k = obj_get d k.
Proof.
  intros Hnd. rewrite obj_get_Object_assign by done. simpl. by destruct (obj_get d k).
Qed.

Lemma spread2_lookup {V} (d u : Obj V) :
  List.NoDup (List.map fst d) -> List.NoDup (List.map fst u) ->
  shallow_merge d u (spread2 d u).
Proof.
  intros Hd Hnd k. unfold spread2. rewrite obj_get_Object_assign by done.
  by rewrite obj_get_copy.
Qed.

Lemma spread2_lookup_absent {V} (d u : Obj V) k :
  List.NoDup (List.map fst d) ->
  obj_get u k = None -> obj_get (spread2 d u) k = obj_get d k.
Proof.
  intros Hnd E. unfold spread2.
  rewrite obj_get_Object_assign_absent by done. by apply obj_get_copy.
Qed.

(** C2 (as amended).  When the configuration has no [csp], the resolved CSP
    section is the built-in default, and when it has one, every key it
    omits resolves to the default of that key.  The default restricts
    [default-src], [font-src], [connect-src], [frame-src] and [base-uri] to
    ['self'], [script-src] and [style-src] to ['self'] and
    ['unsafe-inline'], sets [object-src] to ['none'], and gives [img-src]
    the three sources ['self'], [data:] and [blob:]. *)
Theorem C2_default_csp config :
  (read (csp config) = None -> csp (build_finalConfig config) = Value DEFAULT_CSP_CONFIG)
  /\ (forall c k, read (csp config) = Some c -> obj_get c k = None ->
        exists r, csp (build_finalConfig config) = Value r
                  /\ obj_get r k = obj_get DEFAULT_CSP_CONFIG k)
  /\ DEFAULT_CSP_CONFIG =
       [ ("defaultSrc", CList ["'self'"]);
         ("scriptSrc", CList ["'self'"; "'unsafe-inline'"]);
         ("styleSrc", CList ["'self'"; "'unsafe-inline'"]);
         ("imgSrc", CList ["'self'"; "data:"; "blob:"]);
         ("fontSrc", CList ["'self'"]);
         ("connectSrc", CList ["'self'"]);
         ("frameSrc", CList ["'self'"]);
         ("objectSrc", CList ["'none'"]);
         ("baseUri", CList ["'self'"]) ]
  /\ csp_parts DEFAULT_CSP_CONFIG None (Object_entries DEFAULT_CSP_CONFIG) =
       Ok [ "default-src 'self'"; "script-src 'self' 'unsafe-inline'";
            "style-src 'self' 'unsafe-inline'"; "img-src 'self' data: blob:";
            "font-src 'self'"; "connect-src 'self'"; "frame-src 'self'";
            "object-src 'none'"; "base-uri 'self'" ].
Proof.
  split; [|split; [|split; reflexivity]].
  - intros E. unfold build_finalConfig. cbn [csp]. by rewrite E.
  - intros c k E Hk. unfold build_finalConfig. cbn [csp]. rewrite E.
    eexists. split; [reflexivity|].
    apply spread2_lookup_absent; [|done].
    solve_NoDup.
Qed.

(** C2 (counterexample).  With no [csp] in the configuration the resolved
    [imgSrc] is ['self'], [data:], [blob:]: three sources, not the single
    self-origin token. *)
Lemma C2_counterexample :
  exists r,
    csp (build_finalConfig empty_config) = Value r
    /\ obj_get r "imgSrc" = Some (CList ["'self'"; "data:"; "blob:"])
    /\ CList ["'self'"; "data:"; "blob:"] <> CList ["'self'"].
Proof.
  eexists. split; [reflexivity|]. split; [reflexivity|discriminate].
Qed.

(** C6.  Each top-level field other than [csp], [permissionsPolicy] and
    [hsts] resolves to the user's property when the user's object has it
    and to the default otherwise.  The three sections are merged key by
    key with their defaults when the user gives them (the user's keys
    override, the default keys the user omits are retained) and are the
    defaults when the user does not. *)
Theorem C6_resolution config :
  (forall c, read (csp config) = Some c -> List.NoDup (List.map fst c)) ->
  (forall p, read (permissionsPolicy config) = Some p -> List.NoDup (List.map fst p)) ->
  let final := build_finalConfig config in
  let D := DEFAULT_SECURITY_CONFIG in
  overrides (frameOptions D) (frameOptions config) (frameOptions final)
  /\ overrides (xssProtection D) (xssProtection config) (xssProtection final)
  /\ overrides (dnsPrefetch D) (dnsPrefetch config) (dnsPrefetch final)
  /\ overrides (referrerPolicy D) (referrerPolicy config) (referrerPolicy final)
  /\ overrides (corp D) (corp config) (corp final)
  /\ overrides (coop D) (coop config) (coop final)
  /\ overrides (reportTo D) (reportTo config) (reportTo final)
  /\ overrides (customHeaders D) (customHeaders config) (customHeaders final)
  /\ match read (csp config) with
     | Some c =>
         exists r, csp final = Value r /\ shallow_merge DEFAULT_CSP_CONFIG c r
     | None => csp final = csp D
     end
  /\ match read (permissionsPolicy config) with
     | Some p =>
         exists d r, permissionsPolicy D = Value d /\ permissionsPolicy final = Value r
                     /\ shallow_merge d p r
     | None => permissionsPolicy final = permissionsPolicy D
     end
  /\ match read (hsts config) with
     | Some h =>
         exists d r, hsts D = Value d /\ hsts final = Value r
           /\ overrides (HSTSConfig.maxAge d) (HSTSConfig.maxAge h) (HSTSConfig.maxAge r)
           /\ overrides (HSTSConfig.includeSubDomains d) (HSTSConfig.includeSubDomains h)
                (HSTSConfig.includeSubDomains r)
           /\ overrides (HSTSConfig.preload d) (HSTSConfig.preload h) (HSTSConfig.preload r)
     | None => hsts final = hsts D
     end.
Proof.
  intros Hc Hp final D. subst final D.
  do 8 (split; [apply overrides_spread_prop|]).
  split; [|split].
  - simpl. destruct (read (csp config)) as [c|] eqn:E; [|done].
    eexists. split; [reflexivity|]. apply spread2_lookup; [|by apply Hc].
    solve_NoDup.
  - simpl. destruct (read (permissionsPolicy config)) as [p|] eqn:E; [|done].
    eexists _, _. split; [reflexivity|]. split; [reflexivity|].
    apply spread2_lookup; [|by apply Hp].
    solve_NoDup.
  - simpl. destruct (read (hsts config)) as [h|] eqn:E; [|done].
    eexists _, _. split; [reflexivity|]. split; [reflexivity|].
    simpl. repeat split; apply overrides_spread_prop.
Qed.

Lemma C6_resolution_witness :
  let final := build_finalConfig Example.overriding in
  frameOptions final = Value SAMEORIGIN
  /\ xssProtection final = Undefined
  /\ dnsPrefetch final = Value false
  /\ (exists r, csp final = Value r
        /\ obj_get r "imgSrc" = Some (CList ["'self'"; "https:"])
        /\ obj_get r "scriptSrc" = Some (CList ["'self'"; "'unsafe-inline'"])
        /\ obj_get r "reportOnly" = Some (CBool true))
  /\ (exists r, permissionsPolicy final = Value r
        /\ obj_get r "camera" = Some ["self"]
        /\ obj_get r "microphone" = Some []
        /\ obj_get r "fullscreen" = Some [])
  /\ (exists r, hsts final = Value r
        /\ HSTSConfig.maxAge r = Value 31536000%Z
        /\ HSTSConfig.includeSubDomains r = Value true
        /\ HSTSConfig.preload r = Value false).
Proof.
  intros final.
  destruct (C6_resolution Example.overriding) as
    (Hf & Hx & Hd & _ & _ & _ & _ & _ & Hcsp & Hpp & Hh).
  - intros c [= <-]. solve_NoDup.
  - intros p [= <-]. solve_NoDup.
  - split; [by apply Hf|]. split; [by apply Hx|]. split; [by apply Hd|].
    simpl in Hcsp, Hpp, Hh.
    destruct Hcsp as (r & Er & Hr). destruct Hpp as (d & r' & Ed & Er' & Hr').
    destruct Hh as (dh & rh & Edh & Erh & H1 & H2 & H3).
    injection Ed as <-. injection Edh as <-.
    split; [|split].
    + exists r. split; [exact Er|]. rewrite !Hr. by repeat split.
    + exists r'. split; [exact Er'|]. rewrite !Hr'. by repeat split.
    + exists rh. split; [exact Erh|].
      split; [by apply H1|]. split; [by apply H2|]. by apply H3.
Defined.

(** ** C4: validation of the configuration *)

Lemma validateReports_throws reports :
  (exists e, validateReports reports = Throw e) <->
  (exists r, In r reports
     /\ ((ReportToConfig.maxAge r < 0)%Z \/ ReportToConfig.endpoints r = [])).
Proof.
  induction reports as [|report rest IH]; simpl.
  - split; [by intros [e ?]|by intros (r & [] & _)].
  - destruct (ReportToConfig.maxAge report <? 0)%Z eqn:Hm.
    { split; [|eauto]. intros _. exists report. split; [by left|]. left. lia. }
    destruct (bool_decide (length (ReportToConfig.endpoints report) = 0)) eqn:Hl.
    { split; [|eauto]. intros _. exists report. split; [by left|]. right.
      apply bool_decide_eq_true_1 in Hl. by destruct (ReportToConfig.endpoints report). }
    rewrite IH. split.
    + intros (r & Hin & Hr). exists r. split; [by right|done].
    + intros (r & [<-|Hin] & Hr); [|eauto]. exfalso.
      destruct Hr as [Hr|Hr]; [lia|].
      apply bool_decide_eq_false_1 in Hl. by rewrite Hr in Hl.
Qed.

Lemma validateReports_error reports e :
  validateReports reports = Throw e -> is_validation_error e.
Proof.
  unfold is_validation_error.
  induction reports as [|report rest IH]; simpl; [done|].
  destruct (ReportToConfig.maxAge report <? 0)%Z; [intros [= <-]; auto|].
  destruct (bool_decide (length (ReportToConfig.endpoints report) = 0));
    [intros [= <-]; auto|done].
Qed.

Lemma validateConfig_throws config :
  (exists e, validateConfig config = Throw e) <-> invalid_config config.
Proof.
  unfold validateConfig, invalid_config.
  destruct (hsts_maxAge config) as [m|].
  - destruct (negb (m =? 0)%Z && (m <? 0)%Z) eqn:Hm.
    + split; [|eauto]. intros _. left. exists m. split; [done|]. lia.
    + destruct (read (reportTo config)) as [reports|].
      * rewrite validateReports_throws. split.
        -- intros (r & Hr). right. eauto.
        -- intros [(m' & [= <-] & Hneg)|(reports' & r & [= <-] & Hr)]; [lia|eauto].
      * split; [by intros [e ?]|].
        intros [(m' & [= <-] & Hneg)|(reports' & r & [=] & _)]. lia.
  - destruct (read (reportTo config)) as [reports|].
    + rewrite validateReports_throws. split.
      * intros (r & Hr). right. eauto.
      * intros [(m' & [=] & _)|(reports' & r & [= <-] & Hr)]. eauto.
    + split; [by intros [e ?]|].
      by intros [(m' & [=] & _)|(reports' & r & [=] & _)].
Qed.

Lemma validateConfig_error config e :
  validateConfig config = Throw e -> is_validation_error e.
Proof.
  unfold validateConfig.
  destruct (match hsts_maxAge config with
            | Some m => negb (m =? 0)%Z && (m <? 0)%Z
            | None => false
            end).
  - intros [= <-]. by left.
  - destruct (read (reportTo config)); [apply validateReports_error|done].
Qed.

(** C4.  Construction throws if and only if [hsts.maxAge] is present and
    negative, or some [reportTo] entry has a negative [maxAge], or some
    [reportTo] entry has no endpoint; what it throws is then a validation
    error, and it throws nothing else.  Handling a request never throws a
    validation error: when the downstream handler returned a response, an
    error of the middleware is an error of the run time. *)
Theorem C4_validation_at_construction NODE_ENV config :
  ((exists e, tirneHelmet NODE_ENV config = Throw e) <-> invalid_config config)
  /\ (forall e, tirneHelmet NODE_ENV config = Throw e -> is_validation_error e)
  /\ (forall mw now random36 (next : M Response) st0 st response st' e,
        tirneHelmet NODE_ENV config = Ok mw ->
        next st0 = (st, Ok response) ->
        middleware mw now random36 next st0 = (st', Throw e) ->
        is_runtime_error e /\ ~ is_validation_error e).
Proof.
  split; [|split].
  - rewrite <- validateConfig_throws. unfold tirneHelmet.
    destruct (validateConfig config) as [u|e0]; split; intros [e H]; try done; eauto.
  - intros e. unfold tirneHelmet.
    destruct (validateConfig config) as [|e'] eqn:E; [done|].
    intros [= <-]. by apply (validateConfig_error config).
  - intros mw now random36 next st0 st response st' e _ Hnext H.
    unfold middleware, bind in H. rewrite Hnext in H.
    apply inject_throw in H. split; [done|].
    unfold is_validation_error. destruct e; simpl in H; [done|..];
      by intros [?|[?|?]].
Qed.

(** ** C9: the Report-To header *)

(** The built-in static headers are static headers, with their values,
    and the only other static headers are the custom ones. *)
Lemma In_build_staticHeaders_value final k v :
  In (k, v) (build_staticHeaders final) ->
  (exists custom, read (customHeaders final) = Some custom /\ In (k, v) custom)
  \/ In (k, v) (builtin_static final).
Proof.
  unfold build_staticHeaders, builtin_static. intros H.
  assert (forall s8 : Obj string,
    In (k, v) match read (customHeaders final) with
              | Some custom => Object_assign s8 custom
              | None => s8
              end ->
    (exists custom, read (customHeaders final) = Some custom /\ In (k, v) custom)
    \/ In (k, v) s8) as Hcustom.
  { intros s8 Hin. destruct (read (customHeaders final)) as [custom|]; [|by right].
    apply In_Object_assign in Hin as [Hin|Hin]; [by right|left; eauto]. }
  apply Hcustom in H as [H|H]; [by left|right]. clear Hcustom.
  destruct (read (frameOptions final)); destruct (read (xssProtection final)) as [[]|];
    destruct (read (referrerPolicy final)); destruct (read (dnsPrefetch final));
    destruct (read (corp final)); destruct (read (coop final));
    destruct (read (reportTo final));
    static_cases H; simpl; auto 12.
Qed.

Lemma builtin_static_In final k v :
  In (k, v) (builtin_static final) ->
  (forall custom v', read (customHeaders final) = Some custom -> ~ In (k, v') custom) ->
  In (k, v) (build_staticHeaders final).
Proof.
  unfold build_staticHeaders, builtin_static. intros H Hc.
  assert (forall s8 : Obj string, obj_get s8 k = Some v ->
    In (k, v) match read (customHeaders final) with
              | Some custom => Object_assign s8 custom
              | None => s8
              end) as Hcustom.
  { intros s8 Hs8. apply obj_get_In in Hs8.
    destruct (read (customHeaders final)) as [custom|] eqn:E; [|done].
    apply In_Object_assign_other; [done|]. intros v'. by apply Hc. }
  apply Hcustom. clear Hc Hcustom.
  destruct (read (frameOptions final)); destruct (read (xssProtection final)) as [[]|];
    destruct (read (referrerPolicy final)); destruct (read (dnsPrefetch final));
    destruct (read (corp final)); destruct (read (coop final));
    destruct (read (reportTo final)); simpl in H;
    repeat destruct H as [[= <- <-]|H]; try done.
Qed.

Lemma stringify_reportObj r : stringify (reportObj r) = Some (report_element r).
Proof.
  unfold reportObj, report_element, report_members.
  destruct (ReportToConfig.includeSubdomains r) as [[]|]; reflexivity.
Qed.

Lemma buildReportToString_format reports :
  buildReportToString reports = "[" +:+ join "," (List.map report_element reports) +:+ "]".
Proof.
  unfold buildReportToString. simpl. do 3 f_equal.
  rewrite List.map_map. apply List.map_ext. intros r. by rewrite stringify_reportObj.
Qed.

Lemma strip_trailing_bracket s : strip_trailing (s +:+ "]") = s +:+ "]".
Proof.
  induction s as [|c s IH]; [reflexivity|].
  change (String c s +:+ "]") with (String c (s +:+ "]")).
  cbn [strip_trailing]. rewrite IH. by destruct s.
Qed.

Lemma normalize_bracketed s : normalize ("[" +:+ s +:+ "]") = "[" +:+ s +:+ "]".
Proof.
  unfold normalize.
  change ("[" +:+ s +:+ "]") with (String "[" (s +:+ "]")).
  cbn [strip_leading]. change (is_http_whitespace "[") with false. cbv iota.
  change (String "[" (s +:+ "]")) with (String "[" s +:+ "]").
  apply strip_trailing_bracket.
Qed.

(** *** Reading back the text of a value *)

(** **** Strings *)





(** **** Numbers *)











(** **** Objects *)






(** **** Values *)








(** *** The header *)





(** ** C3: the CSP builder and [reportUri] *)

Lemma buildCSPString_loop_reportUri c nonce entries parts st s :
  In ("reportUri", CString s) entries -> s <> "" ->
  exists st',
    buildCSPString_loop c nonce entries parts st
    = (st', Throw (TypeError "values.join is not a function")).
Proof.
  intros Hin Hs. revert parts st.
  induction entries as [|[key values] rest IH]; intros parts st; [done|].
  assert (forall (sfx : string -> string -> string),
    (In ("reportUri", CString s) rest \/ values_join values
       = Throw (TypeError "values.join is not a function")) ->
    exists st',
      (let! k := toKebabCase key in
       let! joined := lift (values_join values) in
       buildCSPString_loop c nonce rest (parts ++ [sfx k joined])) st
      = (st', Throw (TypeError "values.join is not a function"))) as Hstep.
  { intros sfx Hcase.
    destruct (clause_step_heap key values
      (fun k joined => buildCSPString_loop c nonce rest (parts ++ [sfx k joined])) st)
      as [(st1 & k & joined & _ & Hj & E)|(st1 & E & _)]; rewrite E; [|eauto].
    destruct Hcase as [Hrest|Hthrow]; [by apply IH|congruence]. }
  cbn [buildCSPString_loop]. destruct Hin as [[= -> ->]|Hin].
  - cbn [has_length]. rewrite (bool_decide_true (s <> "")) by done.
    rewrite !(bool_decide_false ("reportUri" = _)) by done. cbn [negb orb andb].
    destruct nonce as [n|]; [rewrite andb_false_r|]; apply Hstep; by right.
  - destruct (negb (has_length values) || bool_decide (key = "useNonce")
              || bool_decide (key = "reportOnly")); [by apply IH|].
    destruct nonce as [n|];
      [destruct (truthy (obj_get c "useNonce") && bool_decide (n <> "")
                 && (bool_decide (key = "scriptSrc") || bool_decide (key = "styleSrc")))|];
      apply Hstep; by left.
Qed.

(** C3 (the defect).  A CSP section whose [reportUri] is a non-empty
    string, which the [CSPConfig] interface declares and construction
    accepts, makes the CSP builder throw a [TypeError], with or without a
    nonce and whatever else the section holds: the builder calls [join] on
    the string. *)
Theorem C3_reportUri_builder_throws (c : CSPConfig) nonce st s :
  In ("reportUri", CString s) c -> s <> "" ->
  exists st',
    buildCSPString c nonce st = (st', Throw (TypeError "values.join is not a function")).
Proof.
  intros Hin Hs. unfold buildCSPString, bind.
  destruct (buildCSPString_loop_reportUri c nonce (Object_entries c) [] st s)
    as [st' E]; [by apply (proj2 (In_Object_entries _ _))|done|].
  rewrite E. eauto.
Qed.

Lemma C3_reportUri_builder_throws_witness :
  let run :=
    middleware (closure None Example.with_reportUri)
      Example.now Example.random36 Example.next Example.store in
  tirneHelmet None Example.with_reportUri = Ok (closure None Example.with_reportUri)
  /\ (exists st',
        buildCSPString
          (spread2 DEFAULT_CSP_CONFIG [("reportUri", CString "https://r.example/csp")])
          None Example.store
        = (st', Throw (TypeError "values.join is not a function")))
  /\ snd run = Throw (TypeError "values.join is not a function").
Proof.
  intros run. split; [reflexivity|]. split; [|vm_compute; reflexivity].
  apply (C3_reportUri_builder_throws
           (spread2 DEFAULT_CSP_CONFIG [("reportUri", CString "https://r.example/csp")])
           None Example.store "https://r.example/csp").
  - vm_compute. do 9 right. by left.
  - discriminate.
Defined.

(** Without a non-empty string among its values the CSP builder returns. *)
Lemma buildCSPString_loop_total c nonce entries parts st :
  (forall k s, In (k, CString s) entries -> s = "") ->
  exists st' ps, buildCSPString_loop c nonce entries parts st = (st', Ok ps).
Proof.
  revert parts st. induction entries as [|[key values] rest IH]; intros parts st Hs.
  - simpl. eauto.
  - cbn [buildCSPString_loop].
    assert (forall k s, In (k, CString s) rest -> s = "") as Hrest.
    { intros k s Hin. apply (Hs k s). by right. }
    destruct (negb (has_length values) || bool_decide (key = "useNonce")
              || bool_decide (key = "reportOnly")) eqn:Hskip; [by apply IH|].
    assert (forall (sfx : string -> string -> string),
      exists st' ps,
        (let! k := toKebabCase key in
         let! joined := lift (values_join values) in
         buildCSPString_loop c nonce rest (parts ++ [sfx k joined])) st = (st', Ok ps))
      as Hstep.
    { intros sfx.
      destruct (clause_step_heap key values
        (fun k joined => buildCSPString_loop c nonce rest (parts ++ [sfx k joined])) st)
        as [(st1 & k & joined & _ & Hj & E)|(st1 & E & _ & Hj)].
      - rewrite E. by apply IH.
      - exfalso. destruct values as [|b|s|l]; simpl in Hskip, Hj; try done.
        rewrite (Hs key s) in Hskip by by left. done. }
    destruct nonce as [n|];
      [destruct (truthy (obj_get c "useNonce") && bool_decide (n <> "")
                 && (bool_decide (key = "scriptSrc") || bool_decide (key = "styleSrc")))|];
      apply Hstep.
Qed.

(** ** C7: the nonce token *)

Lemma occurrences_app token l1 l2 :
  occurrences token (l1 ++ l2) = (occurrences token l1 + occurrences token l2)%nat.
Proof. unfold occurrences. by rewrite List.filter_app, length_app. Qed.

Lemma occurrences_not_In token l : ~ In token l -> occurrences token l = 0%nat.
Proof.
  unfold occurrences. induction l as [|x l IH]; simpl; [done|]. intros H.
  rewrite bool_decide_false by (intros ->; apply H; by left).
  apply IH. intros Hin. apply H. by right.
Qed.

(** Every clause comes from a non-empty source list of the section. *)
Lemma csp_parts_In c nonce entries ps p :
  csp_parts c nonce entries = Ok ps -> In p ps ->
  exists key l,
    In (key, CList l) entries /\ l <> []
    /\ p = clause_text c nonce key (join " " l).
Proof.
  revert ps. induction entries as [|[key values] rest IH]; intros ps; simpl.
  - by intros [= <-].
  - destruct (negb (has_length values) || bool_decide (key = "useNonce")
              || bool_decide (key = "reportOnly")) eqn:Hskip.
    { intros H Hin. destruct (IH _ H Hin) as (k & l & ? & ? & ?). exists k, l. auto. }
    destruct values as [|b|s|l]; simpl; try done.
    destruct (csp_parts c nonce rest) as [ps'|]; [|done].
    intros [= <-] [<-|Hin].
    + exists key, l. split; [by left|]. split; [|done].
      simpl in Hskip. intros ->. done.
    + destruct (IH _ eq_refl Hin) as (k & l' & ? & ? & ?). exists k, l'. auto.
Qed.

Lemma In_csp_parts c nonce entries ps key l :
  csp_parts c nonce entries = Ok ps ->
  In (key, CList l) entries -> l <> [] -> key <> "useNonce" -> key <> "reportOnly" ->
  In (clause_text c nonce key (join " " l)) ps.
Proof.
  intros H Hin Hl Hk1 Hk2. revert ps H.
  induction entries as [|[key' values] rest IH]; intros ps; [done|]. simpl.
  destruct Hin as [[= -> ->]|Hin].
  - simpl. rewrite bool_decide_true, !bool_decide_false by done. simpl.
    destruct (csp_parts c nonce rest); [|done]. intros [= <-]. by left.
  - destruct (negb (has_length values) || bool_decide (key' = "useNonce")
              || bool_decide (key' = "reportOnly")); [by apply IH|].
    destruct (values_join values); [|done].
    destruct (csp_parts c nonce rest) as [ps'|]; [|done].
    intros [= <-]. right. by apply IH.
Qed.

(** The CSP header is the last of the writes to its name. *)
Lemma last_write_csp_name mw c cspValue now random36 :
  read (csp (finalConfig mw)) = Some c ->
  last_write
    (csp_writes mw cspValue now random36 ++ permissions_writes mw ++ hsts_writes mw)
    (csp_header_name c) = Some cspValue.
Proof.
  intros Hc. unfold csp_writes, permissions_writes, hsts_writes, csp_header_name.
  rewrite Hc.
  destruct (truthy (obj_get c "reportOnly")); destruct (nonce_of c now random36) as [n|];
    try destruct (bool_decide (n <> ""));
    destruct (read (permissionsPolicy (finalConfig mw)));
    destruct (hstsHeader mw) as [x|]; try destruct (bool_decide (x <> ""));
    reflexivity.
Qed.

(** *** Splitting *)

Lemma split_on_nonempty sep s : split_on sep s <> [].
Proof.
  destruct s as [|c s]; [done|]. cbn [split_on].
  destruct (sep c); [done|]. by destruct (split_on sep s).
Qed.

Lemma split_on_free sep s :
  string_forallb (fun c => negb (sep c)) s = true -> split_on sep s = [s].
Proof.
  induction s as [|c s IH]; [done|]. cbn [string_forallb split_on].
  intros [Hc Hs]%andb_true_iff. apply negb_true_iff in Hc. rewrite Hc.
  by rewrite IH.
Qed.

(** A separator splits. *)
Lemma split_on_sep sep s1 c s2 :
  sep c = true ->
  split_on sep (s1 +:+ String c s2) = split_on sep s1 ++ split_on sep s2.
Proof.
  intros Hc. induction s1 as [|a s1 IH].
  - change ("" +:+ String c s2) with (String c s2). cbn [split_on]. by rewrite Hc.
  - change (String a s1 +:+ String c s2) with (String a (s1 +:+ String c s2)).
    cbn [split_on]. rewrite IH. destruct (sep a); [done|].
    pose proof (split_on_nonempty sep s1). by destruct (split_on sep s1).
Qed.

Lemma split_on_prepend sep pre s :
  string_forallb (fun c => negb (sep c)) pre = true ->
  split_on sep (pre +:+ s) = prepend_first pre (split_on sep s).
Proof.
  induction pre as [|a pre IH].
  - intros _. change ("" +:+ s) with s. unfold prepend_first.
    pose proof (split_on_nonempty sep s). by destruct (split_on sep s).
  - cbn [string_forallb]. intros [Ha Hpre]%andb_true_iff. apply negb_true_iff in Ha.
    change (String a pre +:+ s) with (String a (pre +:+ s)).
    cbn [split_on]. rewrite Ha, IH by done.
    pose proof (split_on_nonempty sep s). by destruct (split_on sep s).
Qed.

Lemma split_on_append sep s post :
  string_forallb (fun c => negb (sep c)) post = true ->
  split_on sep (s +:+ post) = append_last (split_on sep s) post.
Proof.
  intros Hpost. induction s as [|a s IH].
  - change ("" +:+ post) with post. by rewrite split_on_free.
  - change (String a s +:+ post) with (String a (s +:+ post)).
    cbn [split_on]. rewrite IH.
    pose proof (split_on_nonempty sep s) as Hne.
    destruct (sep a).
    + destruct (split_on sep s); done.
    + destruct (split_on sep s) as [|h [|h2 t]]; done.
Qed.

(** *** Tokens *)

Lemma tokens_app_whitespace a w b :
  is_ascii_whitespace w = true -> tokens (a +:+ String w b) = tokens a ++ tokens b.
Proof.
  intros Hw. unfold tokens. rewrite split_on_sep by done. apply List.filter_app.
Qed.

Lemma tokens_whitespace s :
  string_forallb is_ascii_whitespace s = true -> tokens s = [].
Proof.
  induction s as [|c s IH]; [done|]. cbn [string_forallb].
  intros [Hc Hs]%andb_true_iff.
  change (String c s) with ("" +:+ String c s).
  rewrite tokens_app_whitespace by done. by rewrite IH.
Qed.

Lemma tokens_prepend pre s :
  string_forallb is_ascii_whitespace pre = true -> tokens (pre +:+ s) = tokens s.
Proof.
  induction pre as [|c pre IH]; [done|]. cbn [string_forallb].
  intros [Hc Hs]%andb_true_iff.
  change (String c pre +:+ s) with ("" +:+ String c (pre +:+ s)).
  rewrite tokens_app_whitespace by done. by rewrite IH.
Qed.

Lemma tokens_append s post :
  string_forallb is_ascii_whitespace post = true -> tokens (s +:+ post) = tokens s.
Proof.
  destruct post as [|c post]; [by rewrite append_empty|]. cbn [string_forallb].
  intros [Hc Hs]%andb_true_iff.
  rewrite tokens_app_whitespace by done. rewrite (tokens_whitespace post) by done.
  apply app_nil_r.
Qed.

Lemma tokens_word s :
  s <> "" -> string_forallb (fun c => negb (is_ascii_whitespace c)) s = true ->
  tokens s = [s].
Proof.
  intros Hne Hs. unfold tokens. rewrite split_on_free by done. cbn [List.filter].
  by rewrite bool_decide_false.
Qed.

Lemma tokens_join l : tokens (join " " l) = flat_map tokens l.
Proof.
  induction l as [|s l IH]; [done|]. destruct l as [|s' l].
  - cbn [join String.concat flat_map]. by rewrite app_nil_r.
  - change (join " " (s :: s' :: l)) with (s +:+ String " " (join " " (s' :: l))).
    rewrite tokens_app_whitespace by done. by rewrite IH.
Qed.

Lemma map_tokens_prepend pre l :
  string_forallb is_ascii_whitespace pre = true ->
  List.map tokens (prepend_first pre l) = List.map tokens l.
Proof.
  intros Hpre. destruct l as [|h t]; [done|]. cbn [prepend_first List.map].
  by rewrite tokens_prepend.
Qed.

Lemma map_tokens_append l post :
  string_forallb is_ascii_whitespace post = true ->
  List.map tokens (append_last l post) = List.map tokens l.
Proof.
  intros Hpost. induction l as [|h t IH]; [done|]. destruct t as [|h2 t].
  - cbn [append_last List.map]. by rewrite tokens_append.
  - change (append_last (h :: h2 :: t) post) with (h :: append_last (h2 :: t) post).
    cbn [List.map] in *. by rewrite IH.
Qed.

(** *** Normalization removes whitespace at both ends *)

Lemma strip_leading_decompose s :
  exists pre, s = pre +:+ strip_leading s /\ string_forallb is_http_whitespace pre = true.
Proof.
  induction s as [|c s (pre & E & Hpre)]; [by exists ""|]. cbn [strip_leading].
  destruct (is_http_whitespace c) eqn:Hc.
  - exists (String c pre). split; [|by cbn [string_forallb]; rewrite Hc].
    change (String c pre +:+ strip_leading s) with (String c (pre +:+ strip_leading s)).
    by rewrite <- E.
  - by exists "".
Qed.

Lemma strip_trailing_decompose s :
  exists post, s = strip_trailing s +:+ post /\ string_forallb is_http_whitespace post = true.
Proof.
  induction s as [|c s (post & E & Hpost)]; [by exists ""|]. cbn [strip_trailing].
  destruct (strip_trailing s) as [|a t] eqn:Es.
  - change ("" +:+ post) with post in E. subst s.
    destruct (is_http_whitespace c) eqn:Hc.
    + exists (String c post). split; [done|]. cbn [string_forallb]. by rewrite Hc.
    + by exists post.
  - exists post. split; [|done].
    change (String c (String a t) +:+ post) with (String c (String a t +:+ post)).
    by rewrite <- E.
Qed.

Lemma normalize_decompose s :
  exists pre post,
    s = pre +:+ normalize s +:+ post
    /\ string_forallb is_http_whitespace pre = true
    /\ string_forallb is_http_whitespace post = true.
Proof.
  destruct (strip_leading_decompose s) as (pre & E1 & Hpre).
  destruct (strip_trailing_decompose (strip_leading s)) as (post & E2 & Hpost).
  exists pre, post. unfold normalize. by rewrite <- E2.
Qed.

Lemma http_whitespace_ascii c : is_http_whitespace c = true -> is_ascii_whitespace c = true.
Proof.
  unfold is_http_whitespace, is_ascii_whitespace. cbn zeta.
  rewrite !orb_true_iff. tauto.
Qed.

Lemma http_whitespace_no_separator c sep :
  (sep = is_comma \/ sep = is_semicolon) ->
  is_http_whitespace c = true -> negb (sep c) = true.
Proof.
  intros Hsep Hc. assert (c = ascii_of_nat 9 \/ c = ascii_of_nat 10 \/ c = ascii_of_nat 13
                          \/ c = ascii_of_nat 32) as Hcases.
  { unfold is_http_whitespace in Hc. cbn zeta in Hc. rewrite !orb_true_iff in Hc.
    rewrite <- (ascii_nat_embedding c).
    destruct Hc as [[[H|H]|H]|H]; apply bool_decide_eq_true in H; rewrite H; tauto. }
  destruct Hsep as [-> | ->]; destruct Hcases as [->|[->|[->| ->]]]; reflexivity.
Qed.

(** Splitting a normalized value gives, token for token, what splitting
    the value gives. *)
Lemma map_tokens_split_normalize sep s :
  (sep = is_comma \/ sep = is_semicolon) ->
  List.map tokens (split_on sep (normalize s)) = List.map tokens (split_on sep s).
Proof.
  intros Hsep. destruct (normalize_decompose s) as (pre & post & E & Hpre & Hpost).
  rewrite E at 2.
  rewrite split_on_prepend, split_on_append.
  - rewrite map_tokens_prepend, map_tokens_append; [done|..];
      eapply string_forallb_impl; try eassumption; apply http_whitespace_ascii.
  - eapply string_forallb_impl; [|exact Hpost].
    intros c. by apply http_whitespace_no_separator.
  - eapply string_forallb_impl; [|exact Hpre].
    intros c. by apply http_whitespace_no_separator.
Qed.

Lemma string_forallb_normalize f s :
  string_forallb f s = true -> string_forallb f (normalize s) = true.
Proof.
  destruct (normalize_decompose s) as (pre & post & E & _). rewrite E at 1.
  rewrite !string_forallb_app. intros [_ [H _]%andb_true_iff]%andb_true_iff. exact H.
Qed.

(** *** The directives of the clauses joined *)

Lemma no_separator_semicolon s :
  no_separator s = true -> string_forallb (fun c => negb (is_semicolon c)) s = true.
Proof.
  apply string_forallb_impl. intros c H. by apply andb_true_iff in H as [_ H].
Qed.

Lemma no_separator_comma s :
  no_separator s = true -> string_forallb (fun c => negb (is_comma c)) s = true.
Proof.
  apply string_forallb_impl. intros c H. by apply andb_true_iff in H as [H _].
Qed.

Lemma map_tokens_split_join parts :
  Forall (fun p => no_separator p = true) parts ->
  List.filter nonempty_directive
    (List.map tokens (split_on is_semicolon (join "; " parts)))
  = List.filter nonempty_directive (List.map tokens parts).
Proof.
  intros H. induction H as [|p ps Hp H IH]; [done|]. destruct ps as [|p2 ps].
  - cbn [join String.concat]. by rewrite split_on_free by by apply no_separator_semicolon.
  - change (join "; " (p :: p2 :: ps))
      with (p +:+ String ";" (" " +:+ join "; " (p2 :: ps))).
    rewrite split_on_sep by done.
    rewrite split_on_free by by apply no_separator_semicolon.
    rewrite split_on_prepend by done.
    cbn [app List.map List.filter]. rewrite map_tokens_prepend by done.
    by rewrite IH.
Qed.

(** The directives of a header value made of clauses without comma or
    semicolon are the clauses. *)
Lemma directives_join parts :
  Forall (fun p => no_separator p = true) parts ->
  directives (normalize (join "; " parts))
  = List.filter nonempty_directive (List.map tokens parts).
Proof.
  intros H. unfold directives.
  assert (string_forallb (fun c => negb (is_comma c)) (join "; " parts) = true) as Hj.
  { apply string_forallb_join; [done|]. revert H. apply List.Forall_impl.
    apply no_separator_comma. }
  rewrite split_on_free by by apply string_forallb_normalize.
  cbn [flat_map]. rewrite app_nil_r.
  rewrite map_tokens_split_normalize by by right.
  by apply map_tokens_split_join.
Qed.

(** *** The clauses in nonce mode *)

Lemma base64_text_no_separator c :
  base64_text_char c = true -> negb (is_comma c) && negb (is_semicolon c) = true.
Proof.
  assert (forall c, implb (base64_text_char c)
                      (negb (is_comma c) && negb (is_semicolon c)) = true) as H
    by (apply all_ascii_spec; vm_compute; reflexivity).
  intros Hc. specialize (H c). by rewrite Hc in H.
Qed.

Lemma base64_text_no_whitespace c :
  base64_text_char c = true -> negb (is_ascii_whitespace c) = true.
Proof.
  assert (forall c, implb (base64_text_char c) (negb (is_ascii_whitespace c)) = true) as H
    by (apply all_ascii_spec; vm_compute; reflexivity).
  intros Hc. specialize (H c). by rewrite Hc in H.
Qed.

Lemma nonce_token_no_separator now random36 :
  no_separator (nonce_token (generateNonce now random36)) = true.
Proof.
  unfold no_separator, nonce_token. rewrite !string_forallb_app.
  apply andb_true_iff. split; [done|]. apply andb_true_iff. split; [|done].
  eapply string_forallb_impl; [apply base64_text_no_separator|apply base64_text].
Qed.

Lemma tokens_nonce_token now random36 :
  tokens (nonce_token (generateNonce now random36))
  = [nonce_token (generateNonce now random36)].
Proof.
  apply tokens_word; [done|].
  unfold nonce_token. rewrite !string_forallb_app.
  apply andb_true_iff. split; [done|]. apply andb_true_iff. split; [|done].
  eapply string_forallb_impl; [apply base64_text_no_whitespace|apply base64_text].
Qed.

(** A clause of a well-typed section in nonce mode: it has no comma or
    semicolon when its sources have none, and its tokens are the name, the
    tokens of the sources and, for [scriptSrc] and [styleSrc], the nonce
    token. *)
Lemma nonce_clause_tokens (c : CSPConfig) now random36 key l :
  well_typed_entry (key, CList l) ->
  truthy (obj_get c "useNonce") = true ->
  let p := clause_text c (Some (generateNonce now random36)) key (join " " l) in
  tokens p
  = kebab_replace key :: flat_map tokens l ++ nonce_tokens key (generateNonce now random36)
  /\ toLowerCase (kebab_replace key) = kebab_replace key
  /\ (kebab_replace key = "script-src" -> key = "scriptSrc")
  /\ (kebab_replace key = "style-src" -> key = "styleSrc")
  /\ (Forall (fun s => no_separator s = true) l -> no_separator p = true).
Proof.
  intros Hwt Hn p. subst p. unfold clause_text, nonce_tokens. rewrite Hn.
  rewrite bool_decide_true by apply generateNonce_nonempty.
  assert (forall name : string,
    name <> "" -> string_forallb (fun c => negb (is_ascii_whitespace c)) name = true ->
    tokens (name +:+ " " +:+ join " " l +:+ " 'nonce-"
              +:+ generateNonce now random36 +:+ "'")
    = name :: flat_map tokens l ++ [nonce_token (generateNonce now random36)]) as Hwith.
  { intros name H1 H2.
    change (name +:+ " " +:+ join " " l +:+ " 'nonce-" +:+ generateNonce now random36 +:+ "'")
      with (name +:+ String " " (join " " l
              +:+ String " " (nonce_token (generateNonce now random36)))).
    rewrite !tokens_app_whitespace by done.
    by rewrite tokens_word, tokens_join, tokens_nonce_token. }
  assert (forall name : string,
    name <> "" -> string_forallb (fun c => negb (is_ascii_whitespace c)) name = true ->
    tokens (name +:+ " " +:+ join " " l) = name :: flat_map tokens l ++ []) as Hwithout.
  { intros name H1 H2.
    change (name +:+ " " +:+ join " " l) with (name +:+ String " " (join " " l)).
    rewrite tokens_app_whitespace by done.
    by rewrite tokens_word, tokens_join, app_nil_r. }
  assert (forall name : string,
    no_separator name = true -> Forall (fun s => no_separator s = true) l ->
    no_separator (name +:+ " " +:+ join " " l +:+ " 'nonce-"
                    +:+ generateNonce now random36 +:+ "'") = true
    /\ no_separator (name +:+ " " +:+ join " " l) = true) as Hsep.
  { intros name H1 H2.
    assert (no_separator (join " " l) = true) as Hj
      by (unfold no_separator; by apply string_forallb_join).
    pose proof (nonce_token_no_separator now random36) as Ht.
    unfold no_separator in *.
    change (name +:+ " " +:+ join " " l +:+ " 'nonce-" +:+ generateNonce now random36 +:+ "'")
      with (name +:+ " " +:+ join " " l +:+ " "
              +:+ nonce_token (generateNonce now random36)).
    rewrite !string_forallb_app, H1, Hj, Ht. done. }
  unfold well_typed_entry, list_keys in Hwt. simpl in Hwt.
  repeat (apply elem_of_cons in Hwt as [->|Hwt]).
  all: try (by apply elem_of_nil in Hwt).
  all: cbn [bool_decide decide_rel andb orb]; simpl kebab_replace.
  all: (split; [first [by apply Hwith|by apply Hwithout]|]).
  all: (split; [reflexivity|]).
  all: (split; [done|]).
  all: (split; [done|]).
  all: intros Hl; by apply Hsep.
Qed.

Lemma occurrences_cons_ne token w ws :
  w <> token -> occurrences token (w :: ws) = occurrences token ws.
Proof. intros H. unfold occurrences. cbn [List.filter]. by rewrite bool_decide_false. Qed.

Lemma occurrences_snoc token ws :
  occurrences token (ws ++ [token]) = S (occurrences token ws).
Proof.
  rewrite occurrences_app. unfold occurrences at 2. cbn [List.filter].
  rewrite bool_decide_true by done. simpl. lia.
Qed.

(** C7 (as amended).  In nonce mode, with a well-typed CSP section and a
    coherent cache, every response the middleware returns carries the
    generated nonce in [X-Nonce].  When no configured source holds a comma
    or a semicolon, its CSP header is read directive by directive: a
    non-empty [scriptSrc] or [styleSrc] list gives the directive of its
    name, made of the name, the tokens of the configured sources and the
    token ['nonce-<v>'] of that nonce; and every [script-src] or
    [style-src] directive of the header is such a directive, so it holds
    the token once more often than the configured sources hold it, that
    is, exactly once when they do not hold it. *)
Theorem C7_nonce_token_once mw c now random36 (next : M Response)
    st0 st response st' resp' :
  read (csp (finalConfig mw)) = Some c ->
  truthy (obj_get c "useNonce") = true ->
  well_typed_csp c ->
  coherent (kebabCache st) ->
  next st0 = (st, Ok response) ->
  middleware mw now random36 next st0 = (st', Ok resp') ->
  let token := nonce_token (generateNonce now random36) in
  Headers_get st' (headers resp') "X-Nonce" = Some (generateNonce now random36)
  /\ exists value,
       Headers_get st' (headers resp') (csp_header_name c) = Some value
       /\ (separator_free c ->
           (forall key l, In (key, CList l) c -> l <> [] ->
              key = "scriptSrc" \/ key = "styleSrc" ->
              In (kebab_replace key :: flat_map tokens l ++ [token]) (directives value))
           /\ Forall
                (fun d =>
                   named "script-src" d \/ named "style-src" d ->
                   exists key l,
                     In (key, CList l) c
                     /\ (key = "scriptSrc" \/ key = "styleSrc")
                     /\ d = kebab_replace key :: flat_map tokens l ++ [token]
                     /\ occurrences token d = S (occurrences token (flat_map tokens l))
                     /\ (~ In token (flat_map tokens l) -> occurrences token d = 1%nat))
                (directives value)).
Proof.
  intros Hc Hn Hwt Hcoh Hnext H token.
  unfold middleware, bind in H. rewrite Hnext in H.
  split; [by apply (inject_nonce_header mw c now random36 response st)|].
  apply inject_ok in H as (cspValue & Hw & _ & _ & _ & _ & _ & Hcsp).
  destruct (Hcsp c Hc) as (sa & sb & Ecache & Ebuild).
  apply buildCSPString_coherent in Ebuild as [_ Eparts]; [|by rewrite Ecache].
  unfold nonce_of in Eparts. rewrite Hn in Eparts.
  destruct (csp_parts c (Some (generateNonce now random36)) (Object_entries c))
    as [parts|e] eqn:E; [|done].
  injection Eparts as ->.
  exists (normalize (join "; " parts)). split.
  { unfold Headers_get. rewrite Hw, apply_writes_lookup.
    unfold security_writes. rewrite last_write_app.
    by rewrite last_write_csp_name. }
  intros Hfree.
  assert (forall key l, In (key, CList l) c -> well_typed_entry (key, CList l)) as Hwt'.
  { intros key l Hin. unfold well_typed_csp in Hwt. rewrite List.Forall_forall in Hwt.
    by apply Hwt. }
  assert (forall p, In p parts ->
            exists key l, In (key, CList l) c /\ l <> []
              /\ p = clause_text c (Some (generateNonce now random36)) key (join " " l))
    as Hparts.
  { intros p Hp. destruct (csp_parts_In _ _ _ _ _ E Hp) as (key & l & Hin & Hl & ->).
    apply (proj1 (In_Object_entries _ _)) in Hin. eauto. }
  assert (Forall (fun p => no_separator p = true) parts) as Hsep.
  { apply List.Forall_forall. intros p Hp.
    destruct (Hparts p Hp) as (key & l & Hin & Hl & ->).
    apply (nonce_clause_tokens c now random36 key l); [by apply Hwt'|done|].
    apply List.Forall_forall. intros s Hs. by apply (Hfree key l s). }
  rewrite directives_join by done. split.
  - intros key l Hin Hl Hk. apply filter_In. split; [|done].
    apply in_map_iff.
    exists (clause_text c (Some (generateNonce now random36)) key (join " " l)). split.
    + destruct (nonce_clause_tokens c now random36 key l (Hwt' _ _ Hin) Hn) as (-> & _).
      unfold nonce_tokens. by destruct Hk as [-> | ->].
    + apply (In_csp_parts _ _ _ _ _ _ E); [by apply (proj2 (In_Object_entries _ _))|done|..];
        destruct Hk as [-> | ->]; done.
  - apply List.Forall_forall. intros d Hd.
    apply filter_In in Hd as [Hd _]. apply in_map_iff in Hd as (p & <- & Hp).
    destruct (Hparts p Hp) as (key & l & Hin & Hl & ->).
    destruct (nonce_clause_tokens c now random36 key l (Hwt' _ _ Hin) Hn)
      as (-> & Hlow & Hs & Hy & _).
    unfold named. cbn [hd]. rewrite Hlow. intros Hname.
    assert (key = "scriptSrc" \/ key = "styleSrc") as Hk by (destruct Hname; auto).
    exists key, l. split; [done|]. split; [done|].
    assert (nonce_tokens key (generateNonce now random36) = [token]) as ->.
    { unfold nonce_tokens. by destruct Hk as [-> | ->]. }
    assert (kebab_replace key <> token) as Hne.
    { destruct Hk as [-> | ->]; done. }
    assert (occurrences token (kebab_replace key :: flat_map tokens l ++ [token])
            = S (occurrences token (flat_map tokens l))) as Hocc.
    { rewrite occurrences_cons_ne by done. apply occurrences_snoc. }
    split; [done|]. split; [done|].
    intros Hnot. rewrite Hocc. by rewrite occurrences_not_In.
Qed.

Lemma C7_nonce_token_once_witness :
  let run :=
    middleware (closure None Example.nonce_mode)
      Example.now Example.random36 Example.next Example.store in
  Headers_get (fst run) (headers (Example.returned run)) "X-Nonce"
  = Some "MTcwMDAwMDAwMDAwMDgybXZ5cg=="
  /\ exists value,
       Headers_get (fst run) (headers (Example.returned run)) "Content-Security-Policy"
       = Some value
       /\ In ["script-src"; "'self'"; "'unsafe-inline'";
              "'nonce-MTcwMDAwMDAwMDAwMDgybXZ5cg=='"] (directives value)
       /\ Forall
            (fun d =>
               named "script-src" d \/ named "style-src" d ->
               occurrences "'nonce-MTcwMDAwMDAwMDAwMDgybXZ5cg=='" d = 1%nat)
            (directives value).
Proof.
  intros run.
  destruct (C7_nonce_token_once
              (closure None Example.nonce_mode)
              (spread2 DEFAULT_CSP_CONFIG [("useNonce", CBool true)])
              Example.now Example.random36 Example.next Example.store Example.store
              Example.response (fst run) (Example.returned run))
    as (Hnonce & value & Hget & Hdir).
  - reflexivity.
  - vm_compute. reflexivity.
  - vm_compute. repeat constructor;
      unfold well_typed_entry; cbn [fst snd]; apply list_elem_of_In; simpl; tauto.
  - apply coherent_empty.
  - reflexivity.
  - vm_compute. reflexivity.
  - assert (nonce_token (generateNonce Example.now Example.random36)
            = "'nonce-MTcwMDAwMDAwMDAwMDgybXZ5cg=='") as Etok by (vm_compute; reflexivity).
    rewrite Etok in Hdir.
    split; [rewrite Hnonce; vm_compute; reflexivity|].
    clear Hnonce. clearbody run.
    exists value. split; [exact Hget|].
    assert (separator_free (spread2 DEFAULT_CSP_CONFIG [("useNonce", CBool true)])) as Hfree.
    { intros key l s Hin Hs. vm_compute in Hin.
      repeat destruct Hin as [Hin|Hin]; try done; injection Hin as <- <-;
        simpl in Hs; repeat destruct Hs as [<-|Hs]; try done. }
    destruct (Hdir Hfree) as [Hin Hall].
    split.
    + pose proof (Hin "scriptSrc" ["'self'"; "'unsafe-inline'"]) as H.
      assert (kebab_replace "scriptSrc"
                :: flat_map tokens ["'self'"; "'unsafe-inline'"]
                   ++ ["'nonce-MTcwMDAwMDAwMDAwMDgybXZ5cg=='"]
              = ["script-src"; "'self'"; "'unsafe-inline'";
                 "'nonce-MTcwMDAwMDAwMDAwMDgybXZ5cg=='"]) as E by (vm_compute; reflexivity).
      rewrite E in H. apply H; [|done|by left].
      vm_compute. tauto.
    + revert Hall. apply List.Forall_impl. intros d Hd Hname.
      destruct (Hd Hname) as (key & l & Hkl & _ & _ & _ & Honce). apply Honce.
      vm_compute in Hkl.
      repeat destruct Hkl as [Hkl|Hkl]; try done; injection Hkl as <- <-;
        vm_compute; intros H; repeat destruct H as [H|H]; done.
Defined.

(** C7 (counterexample).  A configuration in nonce mode whose [scriptSrc]
    already lists the token of the nonce that the request at
    [Example.now] with [Example.random36] generates: the response carries
    that nonce in [X-Nonce], and the [script-src] directive of its CSP
    header holds the token twice. *)
Lemma C7_counterexample :
  let run :=
    middleware (closure None Example.nonce_mode_with_token)
      Example.now Example.random36 Example.next Example.store in
  tirneHelmet None Example.nonce_mode_with_token
  = Ok (closure None Example.nonce_mode_with_token)
  /\ Headers_get (fst run) (headers (Example.returned run)) "X-Nonce"
     = Some "MTcwMDAwMDAwMDAwMDgybXZ5cg=="
  /\ Headers_get (fst run) (headers (Example.returned run)) "Content-Security-Policy"
     = Some "default-src 'self'; script-src 'self' 'nonce-MTcwMDAwMDAwMDAwMDgybXZ5cg==' 'nonce-MTcwMDAwMDAwMDAwMDgybXZ5cg=='; style-src 'self' 'unsafe-inline' 'nonce-MTcwMDAwMDAwMDAwMDgybXZ5cg=='; img-src 'self' data: blob:; font-src 'self'; connect-src 'self'; frame-src 'self'; object-src 'none'; base-uri 'self'"
  /\ exists value d,
       Headers_get (fst run) (headers (Example.returned run)) "Content-Security-Policy"
       = Some value
       /\ In d (directives value)
       /\ named "script-src" d
       /\ occurrences (nonce_token (generateNonce Example.now Example.random36)) d
          = 2%nat.
Proof.
  intros run. split; [reflexivity|]. split; [vm_compute; reflexivity|].
  split; [vm_compute; reflexivity|].
  eexists _, ["script-src"; "'self'"; "'nonce-MTcwMDAwMDAwMDAwMDgybXZ5cg=='";
             "'nonce-MTcwMDAwMDAwMDAwMDgybXZ5cg=='"].
  split; [vm_compute; reflexivity|]. split; [vm_compute; tauto|].
  split; vm_compute; reflexivity.
Qed.

(** ** Well-typed sections stay well typed *)

(** Resolving a well-typed CSP section gives a well-typed section. *)
Lemma well_typed_csp_resolved (c : CSPConfig) :
  well_typed_csp c -> well_typed_csp (spread2 DEFAULT_CSP_CONFIG c).
Proof.
  unfold well_typed_csp. rewrite !List.Forall_forall. intros Hc p Hin.
  unfold spread2 in Hin. apply In_Object_assign in Hin as [Hin|Hin]; [|by apply Hc].
  apply In_Object_assign in Hin as [[]|Hin].
  unfold DEFAULT_CSP_CONFIG in Hin. simpl in Hin.
  repeat destruct Hin as [<-|Hin]; try done;
    unfold well_typed_entry; cbn [fst snd]; apply list_elem_of_In; simpl; tauto.
Qed.

(** The flag the user sets is the flag of the resolved section. *)
Lemma useNonce_resolved (c : CSPConfig) :
  List.NoDup (List.map fst c) ->
  obj_get c "useNonce" = Some (CBool true) ->
  truthy (obj_get (spread2 DEFAULT_CSP_CONFIG c) "useNonce") = true.
Proof.
  intros Hnd Hn. rewrite spread2_lookup; [by rewrite Hn|solve_NoDup|done].
Qed.

(** ** The repository's tests, run on the embedding *)

(** [should add security headers to responses] *)
Example test_adds_security_headers :
  let run :=
    middleware (closure None Example.test_security_headers)
      Example.now Example.random36 Example.next Example.store in
  let get := Headers_get (fst run) (headers (Example.returned run)) in
  get "X-Frame-Options" = Some "DENY"
  /\ get "X-XSS-Protection" = Some "1; mode=block"
  /\ get "X-Content-Type-Options" = Some "nosniff"
  /\ get "Content-Security-Policy"
     = Some "default-src 'self'; script-src 'self' 'unsafe-inline'; style-src 'self' 'unsafe-inline'; img-src 'self' data: blob:; font-src 'self'; connect-src 'self'; frame-src 'self'; object-src 'none'; base-uri 'self'".
Proof. vm_compute. repeat split; reflexivity. Qed.

(** [should handle custom headers] *)
Example test_handles_custom_headers :
  let run :=
    middleware (closure None Example.custom_plain)
      Example.now Example.random36 Example.next Example.store in
  let get := Headers_get (fst run) (headers (Example.returned run)) in
  get "X-Custom-Header" = Some "custom-value"
  /\ get "X-Another-Header" = Some "another-value".
Proof. vm_compute. repeat split; reflexivity. Qed.

(** [should handle HSTS headers in production] *)
Example test_hsts_in_production :
  let run :=
    middleware (closure (Some "production") Example.test_hsts)
      Example.now Example.random36 Example.next Example.store in
  Headers_get (fst run) (headers (Example.returned run)) "Strict-Transport-Security"
  = Some "max-age=31536000; includeSubDomains; preload".
Proof. vm_compute. reflexivity. Qed.

(** The Permissions-Policy builder on the example of the specification. *)
Example test_permissions_policy :
  buildPermissionsPolicyString [("camera", [])] = "camera=()"
  /\ buildPermissionsPolicyString [("camera", ["self"; "https://a.example"]); ("geolocation", [])]
     = "camera=(self https://a.example), geolocation=()".
Proof. split; reflexivity. Qed.

(** Construction rejects the two configurations the specification names. *)
Example test_validation :
  validateConfig
    {| csp := Absent; frameOptions := Absent; xssProtection := Absent;
       dnsPrefetch := Absent; referrerPolicy := Absent; permissionsPolicy := Absent;
       hsts :=
         Value {| HSTSConfig.maxAge := Value (-1)%Z; HSTSConfig.includeSubDomains := Absent;
                  HSTSConfig.preload := Absent |};
       corp := Absent; coop := Absent; reportTo := Absent; customHeaders := Absent |}
  = Throw (Error "HSTS maxAge must be a positive number")
  /\ validateConfig
       {| csp := Absent; frameOptions := Absent; xssProtection := Absent;
          dnsPrefetch := Absent; referrerPolicy := Absent; permissionsPolicy := Absent;
          hsts := Absent; corp := Absent; coop := Absent;
          reportTo :=
            Value [ {| ReportToConfig.group := "g"; ReportToConfig.maxAge := 10%Z;
                       ReportToConfig.endpoints := [];
                       ReportToConfig.includeSubdomains := None |} ];
          customHeaders := Absent |}
     = Throw (Error "Report-To must have at least one endpoint").
Proof. split; reflexivity. Qed.

(** * Further properties of the code *)

(** ** [toKebabCase] *)

Lemma lower_char_not_upper c : is_upper c = true -> is_upper (lower_char c) = false.
Proof.
  destruct c as [[] [] [] [] [] [] [] []]; vm_compute; congruence.
Qed.

Lemma kebab_replace_no_upper s : no_upper (kebab_replace s) = true.
Proof.
  unfold no_upper. induction s as [|c s IH]; [reflexivity|].
  cbn [kebab_replace]. destruct (is_upper c) eqn:E; cbn [string_forallb].
  - rewrite (lower_char_not_upper c E), IH. reflexivity.
  - by rewrite E, IH.
Qed.

Lemma kebab_replace_fixed s : no_upper s = true -> kebab_replace s = s.
Proof.
  unfold no_upper. induction s as [|c s IH]; [reflexivity|].
  cbn [kebab_replace string_forallb]. destruct (is_upper c); [done|].
  simpl. intros H. by rewrite IH.
Qed.

(** X1.  The kebab-case form has no letter A-Z left, so converting twice
    is converting once; a key without capitals is returned as it is; and
    the form is longer than the key by one hyphen for each capital. *)
Theorem kebab_replace_shape s :
  no_upper (kebab_replace s) = true
  /\ kebab_replace (kebab_replace s) = kebab_replace s
  /\ (no_upper s = true -> kebab_replace s = s)
  /\ String.length (kebab_replace s) = (String.length s + count_upper s)%nat.
Proof.
  split; [apply kebab_replace_no_upper|].
  split; [apply kebab_replace_fixed, kebab_replace_no_upper|].
  split; [apply kebab_replace_fixed|].
  induction s as [|c s IH]; [reflexivity|].
  cbn [kebab_replace count_upper]. destruct (is_upper c); simpl; rewrite IH; lia.
Qed.

Lemma set_kebabCache_id st c :
  c = kebabCache st -> set_kebabCache st c = st.
Proof. intros ->. by destruct st. Qed.

(** X2.  With a coherent cache, and for a key that is no property name of
    [Object.prototype], [toKebabCase] returns the kebab-case form of its
    key and records it; the cache stays coherent and the [Headers] objects
    are not touched.  A second call with the same key returns the same
    string and changes nothing at all. *)
Theorem toKebabCase_memoizes key st st1 r1 st2 r2 :
  key ∉ Object_prototype_names ->
  coherent (kebabCache st) ->
  toKebabCase key st = (st1, r1) ->
  toKebabCase key st1 = (st2, r2) ->
  r1 = Ok (kebab_replace key)
  /\ kebabCache st1 !! key = Some (kebab_replace key)
  /\ (forall k, k <> key -> kebabCache st1 !! k = kebabCache st !! k)
  /\ heap st1 = heap st
  /\ coherent (kebabCache st1)
  /\ r2 = r1 /\ st2 = st1.
Proof.
  intros _ Hc E1 E2.
  assert (r1 = Ok (kebab_replace key)
          /\ kebabCache st1 !! key = Some (kebab_replace key)
          /\ (forall k, k <> key -> kebabCache st1 !! k = kebabCache st !! k)
          /\ heap st1 = heap st /\ coherent (kebabCache st1)) as (-> & Hk & Ho & Hh & Hc1).
  { unfold toKebabCase in E1.
    destruct (kebabCache st !! key) as [cached|] eqn:E.
    - pose proof (Hc _ _ E) as ->.
      destruct (bool_decide (kebab_replace key <> "")); injection E1 as <- <-; simpl.
      + done.
      + rewrite lookup_insert_eq. repeat split; try done.
        * intros k Hne. by rewrite lookup_insert_ne.
        * by apply coherent_insert.
    - injection E1 as <- <-. simpl. rewrite lookup_insert_eq. repeat split; try done.
      + intros k Hne. by rewrite lookup_insert_ne.
      + by apply coherent_insert. }
  do 5 (split; [done|]).
  unfold toKebabCase in E2. rewrite Hk in E2.
  assert (set_kebabCache st1 (<[key := kebab_replace key]> (kebabCache st1)) = st1) as Hid.
  { apply set_kebabCache_id. by apply insert_id. }
  destruct (bool_decide (kebab_replace key <> "")); [by injection E2 as <- <-|].
  rewrite Hid in E2. by injection E2 as <- <-.
Qed.

Lemma toKebabCase_memoizes_witness :
  let run1 := toKebabCase "scriptSrc" Example.store in
  let run2 := toKebabCase "scriptSrc" (fst run1) in
  snd run1 = Ok "script-src" /\ snd run2 = Ok "script-src" /\ fst run2 = fst run1.
Proof.
  intros run1 run2.
  destruct (toKebabCase_memoizes "scriptSrc" Example.store (fst run1) (snd run1)
              (fst run2) (snd run2))
    as (H1 & _ & _ & _ & _ & H2 & H3).
  - apply (bool_decide_unpack _). vm_compute. exact I.
  - apply coherent_empty.
  - reflexivity.
  - reflexivity.
  - split; [rewrite H1; reflexivity|]. split; [rewrite H2, H1; reflexivity|exact H3].
Defined.

(** ** [buildCSPString] *)

Lemma clause_text_suffix c nonce key joined :
  clause_text c nonce key joined
  = kebab_replace key +:+ " " +:+ joined +:+ nonce_suffix c nonce key.
Proof.
  unfold clause_text, nonce_suffix. destruct nonce as [n|].
  - destruct (truthy (obj_get c "useNonce") && bool_decide (n <> "")
              && (bool_decide (key = "scriptSrc") || bool_decide (key = "styleSrc")));
      [done|by rewrite append_empty].
  - by rewrite append_empty.
Qed.

Lemma csp_parts_filter_map c nonce entries :
  (forall k s, In (k, CString s) entries -> s = "") ->
  csp_parts c nonce entries
  = Ok (List.map (clause_of c nonce) (List.filter emitted entries)).
Proof.
  induction entries as [|[key values] rest IH]; intros Hs; [reflexivity|].
  assert (forall k s, In (k, CString s) rest -> s = "") as Hrest.
  { intros k s Hin. apply (Hs k s). by right. }
  cbn [csp_parts List.filter]. unfold emitted at 1. cbn [fst snd].
  destruct (has_length values) eqn:Hl; cbn [negb orb andb].
  2:{ by apply IH. }
  destruct (bool_decide (key = "useNonce")); cbn [negb orb andb]; [by apply IH|].
  destruct (bool_decide (key = "reportOnly")); cbn [negb orb andb]; [by apply IH|].
  destruct values as [|b|s|l]; try discriminate Hl.
  - rewrite (Hs key s) in Hl by by left. done.
  - cbn [values_join List.map]. rewrite IH by done.
    unfold clause_of at 2. cbn [fst snd joined_sources]. by rewrite clause_text_suffix.
Qed.

(** X3.  With a coherent cache, no key that is a property name of
    [Object.prototype] and no non-empty string among its values, the CSP
    builder returns, and what it returns is the clauses, joined by
    a semicolon and a space, of the entries it does not skip, taken in the
    order of [Object.entries]: an entry is skipped when its value is
    undefined, a flag, an empty string or an empty list, or when its key
    is [useNonce] or [reportOnly].  A clause is the kebab-case form of the
    key, a space and the sources joined by spaces; the nonce token is
    appended only to the clauses of [scriptSrc] and [styleSrc], and only
    when [useNonce] is truthy and a non-empty nonce is passed.  In
    particular a section without any non-empty list gives the empty
    string.  The builder touches no [Headers] object and leaves the cache
    coherent. *)
Theorem buildCSPString_clauses (c : CSPConfig) nonce st :
  coherent (kebabCache st) ->
  (forall k v, In (k, v) c -> k ∉ Object_prototype_names) ->
  (forall k s, In (k, CString s) c -> s = "") ->
  exists st',
    buildCSPString c nonce st
    = (st', Ok (join "; " (List.map (clause_of c nonce)
                             (List.filter emitted (Object_entries c)))))
    /\ heap st' = heap st
    /\ coherent (kebabCache st').
Proof.
  intros Hc _ Hs.
  destruct (buildCSPString c nonce st) as [st' r] eqn:E. exists st'.
  pose proof (buildCSPString_heap _ _ _ _ _ E) as [Hh _].
  apply buildCSPString_coherent in E as [Hc' ->]; [|done].
  rewrite csp_parts_filter_map; [done|].
  intros k s Hin. apply (Hs k s). by apply (proj1 (In_Object_entries _ _)).
Qed.

Lemma buildCSPString_clauses_witness :
  exists st',
    buildCSPString
      [("defaultSrc", CList ["'self'"]); ("imgSrc", CList []); ("reportUri", CString "");
       ("reportOnly", CBool true); ("baseUri", CUndefined);
       ("scriptSrc", CList ["'self'"; "https:"])]
      None Example.store
    = (st', Ok "default-src 'self'; script-src 'self' https:").
Proof.
  destruct (buildCSPString_clauses
              [("defaultSrc", CList ["'self'"]); ("imgSrc", CList []);
               ("reportUri", CString ""); ("reportOnly", CBool true);
               ("baseUri", CUndefined); ("scriptSrc", CList ["'self'"; "https:"])]
              None Example.store) as (st' & E & _).
  - apply coherent_empty.
  - intros k v Hin. apply (bool_decide_unpack _). simpl in Hin.
    repeat destruct Hin as [Hin|Hin]; try done; injection Hin as <- <-;
      vm_compute; exact I.
  - intros k s Hin. simpl in Hin.
    repeat destruct Hin as [Hin|Hin]; try done; by injection Hin as <- <-.
  - exists st'. exact E.
Defined.

(** ** [buildPermissionsPolicyString] *)

(** X4.  The Permissions-Policy value lists every feature of the policy
    exactly once, as [feature=(origins joined by spaces)], the items
    joined by a comma and a space.  A feature with an empty list gives
    [feature=()]: the special case the builder makes for it yields what
    the general case yields. *)
Theorem buildPermissionsPolicyString_items (policies : Obj (list string)) :
  buildPermissionsPolicyString policies
  = join ", " (List.map permission_item (Object_entries policies))
  /\ Permutation (Object_entries policies) policies
  /\ (forall feature, permission_item (feature, []) = feature +:+ "=()").
Proof.
  split; [|split; [apply Object_entries_perm|done]].
  unfold buildPermissionsPolicyString. f_equal. apply List.map_ext.
  intros [k l]. unfold permission_item. cbn [fst snd].
  destruct l; [done|]. by rewrite bool_decide_false.
Qed.

(** ** [validateConfig] *)

Lemma validateReports_prefix pre rest :
  Forall valid_report pre -> validateReports (pre ++ rest) = validateReports rest.
Proof.
  induction pre as [|r pre IH]; [done|]. intros H. apply Forall_cons in H as [[Hm He] H].
  cbn [app validateReports].
  destruct (ReportToConfig.maxAge r <? 0)%Z eqn:E; [lia|].
  rewrite bool_decide_false; [by apply IH|].
  by destruct (ReportToConfig.endpoints r).
Qed.

(** X5.  [validateConfig] reports the first offence only.  A negative
    [hsts.maxAge] is reported whatever [reportTo] holds.  Otherwise the
    first report group that is not valid decides: its negative [maxAge] is
    reported, also when it has no endpoint, and its missing endpoints are
    reported when its [maxAge] is not negative.  Groups after it are not
    looked at. *)
Theorem validateConfig_first_offence config :
  (forall m, hsts_maxAge config = Some m -> (m < 0)%Z ->
     validateConfig config = Throw (Error "HSTS maxAge must be a positive number"))
  /\ (forall pre r rest,
        (forall m, hsts_maxAge config = Some m -> (0 <= m)%Z) ->
        read (reportTo config) = Some (pre ++ r :: rest) ->
        Forall valid_report pre ->
        ((ReportToConfig.maxAge r < 0)%Z ->
           validateConfig config = Throw (Error "Report-To maxAge must be a positive number"))
        /\ ((0 <= ReportToConfig.maxAge r)%Z -> ReportToConfig.endpoints r = [] ->
              validateConfig config
              = Throw (Error "Report-To must have at least one endpoint"))).
Proof.
  unfold validateConfig. split.
  - intros m -> Hm.
    assert (negb (m =? 0)%Z && (m <? 0)%Z = true) as ->; [|done].
    apply andb_true_iff. split; [apply negb_true_iff|]; lia.
  - intros pre r rest Hh Hr Hpre.
    assert (match hsts_maxAge config with
            | Some m => negb (m =? 0)%Z && (m <? 0)%Z
            | None => false
            end = false) as ->.
    { destruct (hsts_maxAge config) as [m|]; [|done].
      specialize (Hh m eq_refl). apply andb_false_iff. right. lia. }
    rewrite Hr, validateReports_prefix by done. cbn [validateReports]. split.
    + intros Hm. by assert ((ReportToConfig.maxAge r <? 0)%Z = true) as -> by lia.
    + intros Hm He. assert ((ReportToConfig.maxAge r <? 0)%Z = false) as -> by lia.
      by rewrite He.
Qed.

(** ** [generateNonce] *)

Lemma all_below_spec n f x : all_below n f = true -> (x < N.of_nat n)%N -> f x = true.
Proof.
  unfold all_below. rewrite forallb_forall. intros H Hx. apply H.
  apply in_map_iff. exists (N.to_nat x). split; [lia|]. apply in_seq. lia.
Qed.

Lemma chunk_ab_ok a b : (a < 256)%N -> (b < 256)%N -> chunk_ab a b = true.
Proof.
  intros Ha Hb.
  assert (all_below 256 (fun a => all_below 256 (chunk_ab a)) = true) as H
    by (vm_compute; reflexivity).
  apply (all_below_spec 256 _ b); [|done].
  apply (all_below_spec 256 (fun a => all_below 256 (chunk_ab a)) a H Ha).
Qed.

Lemma chunk_bc_ok b c : (b < 256)%N -> (c < 256)%N -> chunk_bc b c = true.
Proof.
  intros Hb Hc.
  assert (all_below 256 (fun b => all_below 256 (chunk_bc b)) = true) as H
    by (vm_compute; reflexivity).
  apply (all_below_spec 256 _ c); [|done].
  apply (all_below_spec 256 (fun b => all_below 256 (chunk_bc b)) b H Hb).
Qed.

Lemma chunk_ab_facts a b :
  (a < 256)%N -> (b < 256)%N ->
  let i1 := b64_index (b64_char (N.shiftr a 2)) in
  let i2 := b64_index (b64_char (N.lor (N.shiftl (N.land a 3) 4) (N.shiftr b 4))) in
  N.lor (N.shiftl i1 2) (N.shiftr i2 4) = a /\ N.land i2 15 = N.shiftr b 4.
Proof.
  intros Ha Hb. pose proof (chunk_ab_ok a b Ha Hb) as H. unfold chunk_ab in H.
  apply andb_true_iff in H as [H1 H2]. split; by apply N.eqb_eq.
Qed.

Lemma chunk_bc_facts b c :
  (b < 256)%N -> (c < 256)%N ->
  let c3 := b64_char (N.lor (N.shiftl (N.land b 15) 2) (N.shiftr c 6)) in
  let c4 := b64_char (N.land c 63) in
  N.shiftr (b64_index c3) 2 = N.land b 15
  /\ N.lor (N.shiftl (N.land (b64_index c3) 3) 6) (b64_index c4) = c
  /\ Ascii.eqb c3 "=" = false /\ Ascii.eqb c4 "=" = false
  /\ N.lor (N.shiftl (N.shiftr b 4) 4) (N.land b 15) = b.
Proof.
  intros Hb Hc. pose proof (chunk_bc_ok b c Hb Hc) as H. unfold chunk_bc in H.
  repeat (apply andb_true_iff in H as [H ?]).
  repeat split; try (by apply N.eqb_eq); by apply negb_true_iff.
Qed.

(** Decoding the base64 text of a buffer of bytes gives the buffer back. *)
Lemma base64_decode_base64 bs fuel :
  Forall (fun b => (b < 256)%N) bs -> (length bs <= fuel)%nat ->
  base64_decode fuel (base64 bs) = bs.
Proof.
  revert fuel. induction bs as [bs IH] using (induction_ltof1 _ (@length N)).
  unfold ltof in IH. intros fuel Hbs Hfuel.
  destruct bs as [|a [|b [|c rest]]].
  - by destruct fuel.
  - destruct fuel as [|fuel]; [simpl in Hfuel; lia|].
    apply Forall_cons in Hbs as [Ha _].
    destruct (chunk_ab_facts a 0 Ha) as [H1 _]; [lia|].
    change (N.shiftr 0 4) with 0%N in H1. rewrite N.lor_0_r in H1.
    cbn [base64 base64_decode]. cbv zeta. rewrite H1. reflexivity.
  - destruct fuel as [|fuel]; [simpl in Hfuel; lia|].
    apply Forall_cons in Hbs as [Ha Hbs]. apply Forall_cons in Hbs as [Hb _].
    destruct (chunk_ab_facts a b Ha Hb) as [H1 H2].
    destruct (chunk_bc_facts b 0 Hb) as (H3 & _ & H5 & _ & H7); [lia|].
    change (N.shiftr 0 6) with 0%N in H3, H5. rewrite N.lor_0_r in H3, H5.
    cbn [base64 base64_decode]. cbv zeta. rewrite H1, H2, H3, H5, H7. reflexivity.
  - destruct fuel as [|fuel]; [simpl in Hfuel; lia|].
    apply Forall_cons in Hbs as [Ha Hbs]. apply Forall_cons in Hbs as [Hb Hbs].
    apply Forall_cons in Hbs as [Hc Hbs].
    destruct (chunk_ab_facts a b Ha Hb) as [H1 H2].
    destruct (chunk_bc_facts b c Hb Hc) as (H3 & H4 & H5 & H6 & H7).
    cbn [base64 base64_decode]. cbv zeta. rewrite H1, H2, H3, H4, H5, H6, H7.
    rewrite IH; [done| |done|]; simpl in *; lia.
Qed.

Lemma utf8_char_bytes c : Forall (fun b => (b < 256)%N) (utf8_char c).
Proof.
  destruct c as [[] [] [] [] [] [] [] []]; vm_compute; repeat constructor.
Qed.

Lemma Buffer_from_bytes s : Forall (fun b => (b < 256)%N) (Buffer_from s).
Proof.
  induction s as [|c s IH]; [constructor|]. cbn [Buffer_from].
  apply Forall_app. split; [apply utf8_char_bytes|done].
Qed.

Lemma utf8_decode_char c rest fuel :
  utf8_decode (S fuel) (utf8_char c ++ rest) = String c (utf8_decode fuel rest).
Proof.
  destruct c as [[] [] [] [] [] [] [] []]; reflexivity.
Qed.

(** Decoding the UTF-8 bytes of a string gives the string back. *)
Lemma utf8_decode_Buffer_from s fuel :
  (String.length s <= fuel)%nat -> utf8_decode fuel (Buffer_from s) = s.
Proof.
  revert fuel. induction s as [|c s IH]; intros fuel Hf.
  - by destruct fuel.
  - destruct fuel as [|fuel]; [simpl in Hf; lia|].
    cbn [Buffer_from]. rewrite utf8_decode_char, IH; [done|simpl in Hf; lia].
Qed.

Lemma length_Buffer_from s : (String.length s <= length (Buffer_from s))%nat.
Proof.
  induction s as [|c s IH]; [done|]. cbn [Buffer_from String.length].
  rewrite length_app. assert (1 <= length (utf8_char c))%nat; [|lia].
  unfold utf8_char. destruct (N_of_ascii c <? 128)%N; simpl; lia.
Qed.

Lemma length_base64 bs :
  String.length (base64 bs) = (4 * ((length bs + 2) / 3))%nat.
Proof.
  induction bs as [bs IH] using (induction_ltof1 _ (@length N)). unfold ltof in IH.
  destruct bs as [|a [|b [|c rest]]]; try reflexivity.
  cbn [base64 String.length length]. rewrite IH by (simpl; lia).
  replace (S (S (S (length rest))) + 2)%nat with (1 * 3 + (length rest + 2))%nat by lia.
  rewrite Nat.div_add_l by lia. lia.
Qed.

Lemma base64_text_char_safe c :
  base64_text_char c = true ->
  negb (bool_decide (nat_of_ascii c = 0) || bool_decide (nat_of_ascii c = 10)
        || bool_decide (nat_of_ascii c = 13)) = true
  /\ negb (bool_decide (c ∈ list_ascii_of_string " ';")) = true
  /\ negb (bool_decide (c = dquote)) = true.
Proof.
  destruct c as [[] [] [] [] [] [] [] []]; vm_compute; intros H; try discriminate H;
    repeat split; reflexivity.
Qed.

(** X6.  The nonce is a base64 text: only letters, digits, [+], [/] and
    [=], four characters for every three bytes of the timestamp followed
    by the random suffix, and never empty.  It therefore holds no space,
    quote or semicolon that could end the ['nonce-...'] token or its
    directive, and no byte that [Headers.set] refuses: writing [X-Nonce]
    never throws. *)
Theorem generateNonce_is_base64_text now random36 h st :
  let n := generateNonce now random36 in
  string_forallb base64_text_char n = true
  /\ String.length n
     = (4 * ((length (Buffer_from (Number_toString now +:+ slice_last 6 random36)) + 2) / 3))%nat
  /\ (4 <= String.length n)%nat
  /\ string_forallb
       (fun c => negb (bool_decide (c ∈ list_ascii_of_string " ';"))
                 && negb (bool_decide (c = dquote))) n = true
  /\ exists st', Headers_set h "X-Nonce" n st = (st', Ok tt).
Proof.
  intros n. subst n. unfold generateNonce.
  set (bs := Buffer_from (Number_toString now +:+ slice_last 6 random36)).
  pose proof (base64_text bs) as Htext.
  split; [done|]. split; [apply length_base64|]. split; [|split].
  - rewrite length_base64.
    assert (1 <= length bs)%nat as Hlen.
    { subst bs. destruct (Number_toString_nonempty now) as (c & s & ->).
      pose proof (Buffer_from_nonempty c (s +:+ slice_last 6 random36)) as Hne.
      change (String c s +:+ slice_last 6 random36)
        with (String c (s +:+ slice_last 6 random36)).
      destruct (Buffer_from (String c (s +:+ slice_last 6 random36))); [done|simpl; lia]. }
    assert (1 <= (length bs + 2) / 3)%nat; [|lia].
    apply Nat.div_le_lower_bound; lia.
  - revert Htext. apply string_forallb_impl. intros c Hc.
    destruct (base64_text_char_safe c Hc) as (_ & H2 & H3). by rewrite H2, H3.
  - unfold Headers_set.
    rewrite normalize_id by apply base64_no_whitespace.
    assert (valid_value (base64 bs) = true) as ->.
    { revert Htext. apply string_forallb_impl. intros c Hc.
      by destruct (base64_text_char_safe c Hc) as (H1 & _). }
    eexists. reflexivity.
Qed.

(** X7.  The nonce can be decoded: the base64 text read back as UTF-8 is
    the decimal timestamp followed by the last six characters of the
    random string.  Two nonces are therefore equal exactly when that text
    is the same for both requests. *)
Theorem generateNonce_decodes now random36 :
  let n := generateNonce now random36 in
  utf8_decode (String.length n) (base64_decode (String.length n) n)
  = Number_toString now +:+ slice_last 6 random36
  /\ forall now' random36',
       generateNonce now random36 = generateNonce now' random36'
       <-> Number_toString now +:+ slice_last 6 random36
           = Number_toString now' +:+ slice_last 6 random36'.
Proof.
  assert (forall t r,
    utf8_decode (String.length (generateNonce t r))
      (base64_decode (String.length (generateNonce t r)) (generateNonce t r))
    = Number_toString t +:+ slice_last 6 r) as Hdec.
  { intros t r. unfold generateNonce.
    set (s := Number_toString t +:+ slice_last 6 r).
    assert (length (Buffer_from s) <= String.length (base64 (Buffer_from s)))%nat as Hl.
    { rewrite length_base64.
      pose proof (Nat.div_mod_eq (length (Buffer_from s) + 2) 3).
      pose proof (Nat.mod_upper_bound (length (Buffer_from s) + 2) 3). lia. }
    rewrite base64_decode_base64; [|apply Buffer_from_bytes|done].
    apply utf8_decode_Buffer_from. pose proof (length_Buffer_from s). lia. }
  intros n. split; [apply Hdec|].
  intros now' random36'. split.
  - intros E. rewrite <- (Hdec now random36), <- (Hdec now' random36'). by rewrite E.
  - intros E. unfold generateNonce. by rewrite E.
Qed.

(** ** [buildReportToString] *)

Lemma printable_quote_char c : string_forallb printable (quote_char c) = true.
Proof.
  revert c. apply all_ascii_spec. vm_compute. reflexivity.
Qed.

Lemma printable_quote s : string_forallb printable (quote s) = true.
Proof.
  unfold quote. cbn [string_forallb]. rewrite string_forallb_app.
  apply andb_true_iff. split; [done|]. apply andb_true_iff. split; [|done].
  induction s as [|c s IH]; [done|]. cbn [quote_body].
  by rewrite string_forallb_app, printable_quote_char.
Qed.

Lemma printable_uint d : string_forallb printable (NilZero.string_of_uint d) = true.
Proof.
  unfold NilZero.string_of_uint. destruct d; try done;
    cbn [NilEmpty.string_of_uint string_forallb]; apply andb_true_iff; (split; [done|]).
  all: match goal with |- context [NilEmpty.string_of_uint ?d] => induction d end; done.
Qed.

Lemma printable_Number_toString z : string_forallb printable (Number_toString z) = true.
Proof.
  unfold Number_toString, NilZero.string_of_int.
  destruct (Z.to_int z) as [d|d]; [apply printable_uint|].
  cbn [string_forallb]. apply andb_true_iff. split; [done|apply printable_uint].
Qed.

Lemma printable_stringify j :
  string_forallb printable (default "null" (stringify j)) = true.
Proof.
  induction j as [| |b|z|s|l IH|o IH] using Json_induction; try done.
  - by destruct b.
  - apply printable_Number_toString.
  - apply printable_quote.
  - cbn [stringify default id]. rewrite !string_forallb_app.
    apply andb_true_iff. split; [done|]. apply andb_true_iff. split; [|done].
    apply string_forallb_join; [done|]. apply List.Forall_forall. intros s Hs.
    apply in_map_iff in Hs as (x & <- & Hx).
    rewrite List.Forall_forall in IH. by apply IH.
  - cbn [stringify default id]. rewrite !string_forallb_app.
    apply andb_true_iff. split; [done|]. apply andb_true_iff. split; [|done].
    apply string_forallb_join; [done|]. apply List.Forall_forall. intros s Hs.
    apply in_flat_map in Hs as ([k v] & Hin & Hm).
    apply (proj1 (In_Object_entries _ _)), in_map_iff in Hin as ([k' x] & E & Hx).
    injection E as -> <-. unfold member in Hm. cbn [fst snd] in Hm.
    destruct (stringify x) as [t|] eqn:Et; [|done]. destruct Hm as [<-|[]].
    rewrite !string_forallb_app, printable_quote. cbn [andb string_forallb].
    rewrite List.Forall_forall in IH. specialize (IH (k, x) Hx). cbn [snd] in IH.
    by rewrite Et in IH.
Qed.

(** X8.  Whatever the strings of the report groups hold, the [Report-To]
    value has no control character: [JSON.stringify] escapes them, also
    inside the endpoint objects.  No group name and no endpoint can
    therefore put a NUL, a line feed or a carriage return into the header
    value, and normalization leaves the value as it was built. *)
Theorem buildReportToString_header_safe reports :
  string_forallb printable (buildReportToString reports) = true
  /\ valid_value (buildReportToString reports) = true
  /\ normalize (buildReportToString reports) = buildReportToString reports.
Proof.
  assert (string_forallb printable (buildReportToString reports) = true) as Hp.
  { apply (printable_stringify (JArray (List.map reportObj reports))). }
  split; [done|]. split.
  - revert Hp. apply string_forallb_impl. intros c Hc. unfold printable in Hc.
    apply Nat.leb_le in Hc. cbn beta zeta. rewrite !bool_decide_false by lia. done.
  - rewrite buildReportToString_format. apply normalize_bracketed.
Qed.

(** ** The cache across requests *)

Lemma keeps_cache_bind {A B} (m : M A) (k : A -> M B) :
  keeps_cache m -> (forall a, keeps_cache (k a)) -> keeps_cache (bind m k).
Proof.
  intros Hm Hk st st' r. unfold bind.
  destruct (m st) as [st1 [a|e]] eqn:E.
  - intros H Hc. apply (Hk a _ _ _ H). by apply (Hm _ _ _ E).
  - intros [= <- <-] Hc. by apply (Hm _ _ _ E).
Qed.

Lemma keeps_cache_ret {A} (a : A) : keeps_cache (ret a).
Proof. by intros st st' r [= <- <-]. Qed.

Lemma keeps_cache_throw {A} e : keeps_cache (@throw A e).
Proof. by intros st st' r [= <- <-]. Qed.

Lemma keeps_cache_Headers_set h k v : keeps_cache (Headers_set h k v).
Proof.
  intros st st' r. unfold Headers_set.
  destruct (valid_name k && valid_value (normalize v)); by intros [= <- <-].
Qed.

Lemma keeps_cache_new_Headers h : keeps_cache (new_Headers h).
Proof. by intros st st' r [= <- <-]. Qed.

Lemma keeps_cache_for_of {A} (l : list A) (body : A -> M unit) :
  (forall x, keeps_cache (body x)) -> keeps_cache (for_of l body).
Proof.
  intros Hb. induction l as [|x l IH]; [apply keeps_cache_ret|].
  cbn [for_of]. apply keeps_cache_bind; [apply Hb|done].
Qed.

Lemma keeps_cache_buildCSPString c nonce : keeps_cache (buildCSPString c nonce).
Proof.
  intros st st' r E Hc. by apply buildCSPString_coherent in E as [? _].
Qed.

Lemma keeps_cache_new_Response b s t h : keeps_cache (new_Response b s t h).
Proof.
  unfold new_Response.
  destruct (negb ((200 <=? s)%Z && (s <=? 599)%Z)); [apply keeps_cache_throw|].
  destruct (negb (valid_reason_phrase t)); [apply keeps_cache_throw|].
  apply keeps_cache_bind; [apply keeps_cache_new_Headers|]. intros own.
  destruct (bool_decide (b <> None) && null_body_status s);
    [apply keeps_cache_throw|apply keeps_cache_ret].
Qed.

Lemma keeps_cache_inject mw now random36 response :
  keeps_cache (inject mw now random36 response).
Proof.
  unfold inject.
  apply keeps_cache_bind; [apply keeps_cache_new_Headers|]. intros h.
  apply keeps_cache_bind.
  { apply keeps_cache_for_of. intros p. apply keeps_cache_Headers_set. }
  intros _. apply keeps_cache_bind.
  { destruct (read (csp (finalConfig mw))) as [c|]; [|apply keeps_cache_ret].
    cbv zeta. apply keeps_cache_bind; [apply keeps_cache_buildCSPString|]. intros v.
    apply keeps_cache_bind; [apply keeps_cache_Headers_set|]. intros _.
    destruct (truthy (obj_get c "useNonce")); [|apply keeps_cache_ret].
    destruct (bool_decide (generateNonce now random36 <> ""));
      [apply keeps_cache_Headers_set|apply keeps_cache_ret]. }
  intros _. apply keeps_cache_bind.
  { destruct (read (permissionsPolicy (finalConfig mw)));
      [apply keeps_cache_Headers_set|apply keeps_cache_ret]. }
  intros _. apply keeps_cache_bind.
  { destruct (hstsHeader mw) as [v|]; [|apply keeps_cache_ret].
    destruct (bool_decide (v <> "")); [apply keeps_cache_Headers_set|apply keeps_cache_ret]. }
  intros _. apply keeps_cache_new_Response.
Qed.

(** X9.  The cache invariant.  The cache starts empty, hence coherent,
    and every run of the middleware, whether the downstream handler or the
    middleware itself returns or throws, leaves a coherent cache when the
    handler does: the memoized conversion never changes what a later
    request computes. *)
Theorem middleware_keeps_cache mw now random36 (next : M Response) st0 st' r :
  keeps_cache next ->
  coherent (kebabCache st0) ->
  middleware mw now random36 next st0 = (st', r) ->
  coherent (kebabCache st').
Proof.
  intros Hnext Hc H. revert H Hc.
  apply (keeps_cache_bind next (inject mw now random36) Hnext).
  intros response. apply keeps_cache_inject.
Qed.

Lemma middleware_keeps_cache_witness :
  coherent
    (kebabCache
       (fst (middleware (closure None empty_config) Example.now Example.random36
               Example.next Example.store)))
  /\ kebabCache
       (fst (middleware (closure None empty_config) Example.now Example.random36
               Example.next Example.store)) !! "scriptSrc" = Some "script-src".
Proof.
  split; [|vm_compute; reflexivity].
  apply (middleware_keeps_cache (closure None empty_config) Example.now Example.random36
           Example.next Example.store _
           (snd (middleware (closure None empty_config) Example.now Example.random36
                   Example.next Example.store))).
  - apply keeps_cache_ret.
  - apply coherent_empty.
  - by destruct (middleware (closure None empty_config) Example.now Example.random36
                   Example.next Example.store).
Defined.

(** ** The middleware applied twice *)

Lemma apply_writes_lookup_at ws h key :
  apply_writes ws h !! key =
    match last_write_at ws key with
    | Some v => Some (normalize v)
    | None => h !! key
    end.
Proof.
  revert h. induction ws as [|[k v] ws IH]; intros h; simpl; [done|].
  unfold apply_writes in *. simpl. rewrite IH.
  destruct (last_write_at ws key); [done|].
  destruct (decide (toLowerCase k = key)) as [->|Hne].
  - by rewrite lookup_insert_eq.
  - by rewrite lookup_insert_ne.
Qed.

(** Performing the same writes a second time changes nothing. *)
Lemma apply_writes_twice ws h : apply_writes ws (apply_writes ws h) = apply_writes ws h.
Proof.
  apply map_eq. intros key. rewrite !apply_writes_lookup_at.
  by destruct (last_write_at ws key).
Qed.

Lemma security_writes_same mw v1 v2 now random36 now' random36' :
  (forall c, read (csp (finalConfig mw)) = Some c ->
     v1 = v2 /\ nonce_of c now random36 = nonce_of c now' random36') ->
  security_writes mw v1 now random36 = security_writes mw v2 now' random36'.
Proof.
  intros H. unfold security_writes, csp_writes.
  destruct (read (csp (finalConfig mw))) as [c|]; [|done].
  destruct (H c eq_refl) as [-> ->]. done.
Qed.

(** X10.  Applying the middleware twice is applying it once.  When the
    same middleware wraps itself (the helmet registered on a route and
    again around it), the cache is coherent, and the two runs use the same
    nonce or none, the response that comes out has the same status, status
    text, body and header list as the response of the inner run. *)
Theorem middleware_twice_is_once mw now random36 now' random36' (next : M Response)
    st0 st2 r2 :
  keeps_cache next ->
  coherent (kebabCache st0) ->
  (forall c, read (csp (finalConfig mw)) = Some c ->
     nonce_of c now random36 = nonce_of c now' random36') ->
  middleware mw now' random36' (middleware mw now random36 next) st0 = (st2, Ok r2) ->
  exists st1 r1,
    middleware mw now random36 next st0 = (st1, Ok r1)
    /\ header_list st2 (headers r2) = header_list st1 (headers r1)
    /\ status r2 = status r1
    /\ statusText r2 = statusText r1
    /\ body r2 = body r1.
Proof.
  intros Hnext Hcoh Hnonce H.
  unfold middleware at 1 in H. apply bind_ok in H as (r1 & st1 & Hinner & Houter).
  exists st1, r1. split; [done|].
  pose proof Hinner as Hinner'.
  unfold middleware in Hinner'. apply bind_ok in Hinner' as (response & st & En & Ei).
  assert (coherent (kebabCache st)) as Hc by by apply (Hnext _ _ _ En).
  assert (coherent (kebabCache st1)) as Hc1
    by by apply (keeps_cache_inject _ _ _ _ _ _ _ Ei).
  apply inject_ok in Ei as (v1 & Hw1 & _ & _ & _ & _ & _ & Hcsp1).
  apply inject_ok in Houter as (v2 & Hw2 & Hs & Ht & Hb & _ & _ & Hcsp2).
  split; [|done].
  rewrite Hw2, Hw1.
  rewrite (security_writes_same mw v2 v1 now' random36' now random36).
  - apply apply_writes_twice.
  - intros c E. split; [|by rewrite (Hnonce c E)].
    destruct (Hcsp1 c E) as (sa1 & sb1 & Ec1 & Eb1).
    destruct (Hcsp2 c E) as (sa2 & sb2 & Ec2 & Eb2).
    apply buildCSPString_coherent in Eb1 as [_ E1]; [|by rewrite Ec1].
    apply buildCSPString_coherent in Eb2 as [_ E2]; [|by rewrite Ec2].
    rewrite <- (Hnonce c E) in E2.
    destruct (csp_parts c (nonce_of c now random36) (Object_entries c)); congruence.
Qed.

Lemma middleware_twice_is_once_witness :
  let once :=
    middleware (closure None empty_config) Example.now Example.random36
      Example.next Example.store in
  let twice :=
    middleware (closure None empty_config) 1700000000123 "0.zzzzzzzzz"
      (middleware (closure None empty_config) Example.now Example.random36 Example.next)
      Example.store in
  header_list (fst twice) (headers (Example.returned twice))
  = header_list (fst once) (headers (Example.returned once)).
Proof.
  intros once twice.
  destruct (middleware_twice_is_once (closure None empty_config)
              Example.now Example.random36 1700000000123 "0.zzzzzzzzz"
              Example.next Example.store (fst twice) (Example.returned twice))
    as (st1 & r1 & E & Hh & _).
  - apply keeps_cache_ret.
  - apply coherent_empty.
  - intros c [= <-]. reflexivity.
  - vm_compute. reflexivity.
  - rewrite Hh. subst once. rewrite E. reflexivity.
Defined.

(** ** The headers of a returned response *)

Lemma csp_build_finalConfig config :
  exists c, read (csp (build_finalConfig config)) = Some c.
Proof. simpl. destruct (read (csp config)); simpl; eauto. Qed.

Lemma permissionsPolicy_build_finalConfig config :
  exists p, read (permissionsPolicy (build_finalConfig config)) = Some p.
Proof. simpl. destruct (read (permissionsPolicy config)); simpl; eauto. Qed.

Lemma last_write_permissions_name mw cspValue now random36 p :
  read (permissionsPolicy (finalConfig mw)) = Some p ->
  last_write
    (csp_writes mw cspValue now random36 ++ permissions_writes mw ++ hsts_writes mw)
    "Permissions-Policy" = Some (buildPermissionsPolicyString p).
Proof.
  intros Hp. unfold csp_writes, permissions_writes, hsts_writes, csp_header_name.
  rewrite Hp.
  destruct (read (csp (finalConfig mw))) as [c|];
    try destruct (truthy (obj_get c "reportOnly"));
    try destruct (nonce_of c now random36) as [n|];
    try destruct (bool_decide (n <> ""));
    destruct (hstsHeader mw) as [x|]; try destruct (bool_decide (x <> ""));
    reflexivity.
Qed.

(** X11.  When no key of the resolved CSP section is a property name of
    [Object.prototype], every response the middleware returns carries the
    CSP header, under the name the [reportOnly] flag selects, and the
    [Permissions-Policy] header, and their values are what the two
    builders return for the resolved sections.  Both are written after the
    static headers: neither a custom header nor a header of the downstream
    response can replace or remove them. *)
Theorem csp_and_permissions_always_written NODE_ENV config mw now random36
    (next : M Response) st0 st response st' resp' :
  tirneHelmet NODE_ENV config = Ok mw ->
  (forall c k v, read (csp (finalConfig mw)) = Some c -> In (k, v) c ->
     k ∉ Object_prototype_names) ->
  coherent (kebabCache st) ->
  next st0 = (st, Ok response) ->
  middleware mw now random36 next st0 = (st', Ok resp') ->
  exists c p parts,
    read (csp (finalConfig mw)) = Some c
    /\ read (permissionsPolicy (finalConfig mw)) = Some p
    /\ csp_parts c (nonce_of c now random36) (Object_entries c) = Ok parts
    /\ Headers_get st' (headers resp') (csp_header_name c)
       = Some (normalize (join "; " parts))
    /\ Headers_get st' (headers resp') "Permissions-Policy"
       = Some (normalize (buildPermissionsPolicyString p)).
Proof.
  intros Hmw _ Hcoh Hnext H. apply tirneHelmet_Ok in Hmw as ->.
  destruct (csp_build_finalConfig config) as [c Hc].
  destruct (permissionsPolicy_build_finalConfig config) as [p Hp].
  unfold middleware, bind in H. rewrite Hnext in H.
  apply inject_ok in H as (cspValue & Hw & _ & _ & _ & _ & _ & Hcsp).
  destruct (Hcsp c Hc) as (sa & sb & Ecache & Ebuild).
  apply buildCSPString_coherent in Ebuild as [_ Eparts]; [|by rewrite Ecache].
  destruct (csp_parts c (nonce_of c now random36) (Object_entries c)) as [parts|e] eqn:E;
    [|done].
  injection Eparts as ->.
  exists c, p, parts. do 3 (split; [done|]).
  unfold Headers_get. rewrite Hw, !apply_writes_lookup.
  unfold security_writes. rewrite !last_write_app.
  rewrite <- !last_write_app.
  rewrite !(last_write_app (Object_entries _)).
  rewrite (last_write_csp_name _ c) by done.
  by rewrite (last_write_permissions_name _ _ _ _ p).
Qed.

Lemma csp_and_permissions_always_written_witness :
  let run :=
    middleware (closure None Example.custom_plain)
      Example.now Example.random36 Example.next Example.store in
  Headers_get (fst run) (headers (Example.returned run)) "Permissions-Policy"
  = Some "camera=(), microphone=(), geolocation=(), interest-cohort=()".
Proof.
  intros run.
  destruct (csp_and_permissions_always_written None Example.custom_plain
              (closure None Example.custom_plain)
              Example.now Example.random36 Example.next Example.store Example.store
              Example.response (fst run) (Example.returned run))
    as (c & p & parts & Hc & Hp & _ & _ & Hget).
  - reflexivity.
  - intros c k v Hc Hin. vm_compute in Hc. injection Hc as <-.
    apply (bool_decide_unpack _). simpl in Hin.
    repeat destruct Hin as [Hin|Hin]; try done; injection Hin as <- <-;
      vm_compute; exact I.
  - apply coherent_empty.
  - reflexivity.
  - vm_compute. reflexivity.
  - rewrite Hget. vm_compute in Hp. injection Hp as <-. vm_compute. reflexivity.
Defined.

(** The names of the built-in static headers differ also when letter case
    is ignored, and none is the name of a per-request header. *)
Lemma builtin_names_lower_inj a b :
  In a builtin_names -> In b builtin_names -> toLowerCase a = toLowerCase b -> a = b.
Proof.
  unfold builtin_names, optional_static_names. simpl. intros Ha Hb.
  repeat destruct Ha as [<-|Ha]; try done;
    repeat destruct Hb as [<-|Hb]; try done; try reflexivity; vm_compute; discriminate.
Qed.

Lemma builtin_names_not_dynamic a :
  In a builtin_names -> ~ In (toLowerCase a) dynamic_names.
Proof.
  unfold builtin_names, optional_static_names, dynamic_names. simpl. intros Ha.
  repeat destruct Ha as [<-|Ha]; try done; vm_compute; intuition discriminate.
Qed.

Lemma last_write_dynamic_None' mw cspValue now random36 name :
  ~ In (toLowerCase name) dynamic_names ->
  last_write (csp_writes mw cspValue now random36 ++ permissions_writes mw ++ hsts_writes mw)
    name = None.
Proof.
  intros H. unfold dynamic_names in H. simpl in H.
  apply last_write_dynamic_None; intros E; apply H; rewrite E; tauto.
Qed.

Lemma builtin_static_names final k v :
  In (k, v) (builtin_static final) -> In k builtin_names /\ normalize v = v.
Proof.
  unfold builtin_static, builtin_names, optional_static_names.
  rewrite !in_app_iff. intros H.
  destruct H as [H|[H|[H|[H|[H|[H|[H|H]]]]]]].
  - destruct (read (frameOptions final)) as [f|]; [|done].
    destruct H as [[= <- <-]|[]]. split; [simpl; tauto|by destruct f].
  - destruct (read (xssProtection final)) as [[]|]; try done.
    destruct H as [[= <- <-]|[]]. split; [simpl; tauto|reflexivity].
  - destruct H as [[= <- <-]|[]]. split; [simpl; tauto|reflexivity].
  - destruct (read (referrerPolicy final)) as [r|]; [|done].
    destruct H as [[= <- <-]|[]]. split; [simpl; tauto|by destruct r].
  - destruct (read (dnsPrefetch final)) as [d|]; [|done].
    destruct H as [[= <- <-]|[]]. split; [simpl; tauto|by destruct d].
  - destruct (read (corp final)) as [c|]; [|done].
    destruct H as [[= <- <-]|[]]. split; [simpl; tauto|by destruct c].
  - destruct (read (coop final)) as [c|]; [|done].
    destruct H as [[= <- <-]|[]]. split; [simpl; tauto|by destruct c].
  - destruct (read (reportTo final)) as [reports|]; [|done].
    destruct H as [[= <- <-]|[]]. split; [simpl; tauto|].
    rewrite buildReportToString_format. apply normalize_bracketed.
Qed.

Lemma NoDup_map_eq {A B} (f : A -> B) (l : list A) x y :
  List.NoDup (List.map f l) -> In x l -> In y l -> f x = f y -> x = y.
Proof.
  induction l as [|a l IH]; [done|]. simpl. intros Hnd Hx Hy E.
  apply List.NoDup_cons_iff in Hnd as [Ha Hnd].
  destruct Hx as [<-|Hx]; destruct Hy as [<-|Hy]; try done.
  - exfalso. apply Ha. rewrite E. by apply in_map.
  - exfalso. apply Ha. rewrite <- E. by apply in_map.
  - by apply IH.
Qed.

Lemma optional_sublist {A} (o : list A) (x : A) (l r : list A) :
  o = [] \/ o = [x] -> sublist l r -> sublist (o ++ l) (x :: r).
Proof.
  intros [-> | ->] H; simpl; [by apply sublist_cons|by apply sublist_skip].
Qed.

(** The built-in static headers, one for each name at most. *)
Lemma builtin_static_NoDup final :
  List.NoDup (List.map (fun p => toLowerCase (fst p)) (builtin_static final)).
Proof.
  apply NoDup_ListNoDup.
  apply (sublist_NoDup _ (List.map toLowerCase
           ["X-Frame-Options"; "X-XSS-Protection"; "X-Content-Type-Options";
            "Referrer-Policy"; "X-DNS-Prefetch-Control"; "Cross-Origin-Resource-Policy";
            "Cross-Origin-Opener-Policy"; "Report-To"])).
  1:{ apply (bool_decide_unpack _). vm_compute. exact I. }
  unfold builtin_static. rewrite !List.map_app. cbn [List.map].
  apply optional_sublist; [by destruct (read (frameOptions final)); [right|left]|].
  apply optional_sublist;
    [by destruct (read (xssProtection final)) as [[]|]; [right|left|left]|].
  apply sublist_skip.
  apply optional_sublist; [by destruct (read (referrerPolicy final)); [right|left]|].
  apply optional_sublist; [by destruct (read (dnsPrefetch final)); [right|left]|].
  apply optional_sublist; [by destruct (read (corp final)); [right|left]|].
  apply optional_sublist; [by destruct (read (coop final)); [right|left]|].
  destruct (read (reportTo final)); simpl; [done|by apply sublist_cons].
Qed.

(** X12.  Every built-in static header of the resolved policy
    ([X-Frame-Options], [X-XSS-Protection], [X-Content-Type-Options],
    [Referrer-Policy], [X-DNS-Prefetch-Control], the two cross-origin
    policies and [Report-To]) is a header of every response the middleware
    returns, with exactly its value, whatever the downstream response
    held, unless a custom header has the same name ignoring letter
    case. *)
Theorem builtin_static_headers_written NODE_ENV config mw now random36
    (next : M Response) st0 st response st' resp' k v :
  tirneHelmet NODE_ENV config = Ok mw ->
  In (k, v) (builtin_static (finalConfig mw)) ->
  (forall custom k' v', read (customHeaders config) = Some custom ->
     In (k', v') custom -> toLowerCase k' <> toLowerCase k) ->
  next st0 = (st, Ok response) ->
  middleware mw now random36 next st0 = (st', Ok resp') ->
  Headers_get st' (headers resp') k = Some v.
Proof.
  intros Hmw Hin Hc Hnext H. apply tirneHelmet_Ok in Hmw as ->.
  simpl finalConfig in Hin.
  destruct (builtin_static_names _ _ _ Hin) as [Hk Hv].
  unfold middleware, bind in H. rewrite Hnext in H.
  apply inject_ok in H as (cspValue & Hw & _).
  unfold Headers_get. rewrite Hw, apply_writes_lookup.
  unfold security_writes. rewrite last_write_app.
  rewrite last_write_dynamic_None' by by apply builtin_names_not_dynamic.
  simpl staticHeaders.
  assert (forall custom k' v',
            read (customHeaders (build_finalConfig config)) = Some custom ->
            In (k', v') custom -> toLowerCase k' <> toLowerCase k) as Hc'.
  { intros custom k' v' E. rewrite customHeaders_build_finalConfig in E. by apply Hc. }
  rewrite (last_write_unique _ _ k v); [by rewrite Hv| |done|].
  - apply (proj2 (In_Object_entries _ _)). apply builtin_static_In; [done|].
    intros custom v' E Hin'. by apply (Hc' custom k v' E Hin').
  - intros k' v' Hin' Hk'. apply (proj1 (In_Object_entries _ _)) in Hin'.
    apply In_build_staticHeaders_value in Hin' as [(custom & E & Hin')|Hin'].
    + by destruct (Hc' custom k' v' E Hin').
    + assert ((k', v') = (k, v)) as [= _ ->]; [|done].
      by apply (NoDup_map_eq (fun p => toLowerCase (fst p)) _ _ _
                  (builtin_static_NoDup (build_finalConfig config))).
Qed.

Lemma builtin_static_headers_written_witness :
  let run :=
    middleware (closure None Example.overriding)
      Example.now Example.random36 Example.next Example.store in
  Headers_get (fst run) (headers (Example.returned run)) "X-Frame-Options"
  = Some "SAMEORIGIN"
  /\ Headers_get (fst run) (headers (Example.returned run)) "X-DNS-Prefetch-Control"
     = Some "off".
Proof.
  intros run.
  split;
    apply (builtin_static_headers_written None Example.overriding
             (closure None Example.overriding)
             Example.now Example.random36 Example.next Example.store Example.store
             Example.response (fst run) (Example.returned run));
    try reflexivity; try (intros custom k' v' [=]); try (vm_compute; tauto).
Defined.

(** X13.  An option that is switched off leaves the downstream header
    alone.  When the resolved policy gives no value for a built-in static
    header (for instance [xssProtection: false], or a field passed as
    [undefined]) and no custom header has its name, the middleware neither
    writes nor removes that header: the response carries what the
    downstream response carried. *)
Theorem disabled_static_header_passes_through NODE_ENV config mw now random36
    (next : M Response) st0 st response st' resp' k :
  tirneHelmet NODE_ENV config = Ok mw ->
  In k builtin_names ->
  (forall v, ~ In (k, v) (builtin_static (finalConfig mw))) ->
  (forall custom k' v', read (customHeaders config) = Some custom ->
     In (k', v') custom -> toLowerCase k' <> toLowerCase k) ->
  next st0 = (st, Ok response) ->
  middleware mw now random36 next st0 = (st', Ok resp') ->
  Headers_get st' (headers resp') k = Headers_get st (headers response) k.
Proof.
  intros Hmw Hk Hoff Hc Hnext H. apply tirneHelmet_Ok in Hmw as ->.
  simpl finalConfig in Hoff.
  unfold middleware, bind in H. rewrite Hnext in H.
  apply inject_ok in H as (cspValue & Hw & _).
  unfold Headers_get. rewrite Hw, apply_writes_lookup.
  unfold security_writes. rewrite last_write_app.
  rewrite last_write_dynamic_None' by by apply builtin_names_not_dynamic.
  simpl staticHeaders.
  assert (last_write (Object_entries (build_staticHeaders (build_finalConfig config))) k
          = None) as ->; [|done].
  apply last_write_None. intros [k' v'] Hin'. simpl.
  apply (proj1 (In_Object_entries _ _)) in Hin'.
  apply In_build_staticHeaders_value in Hin' as [(custom & E & Hin')|Hin'].
  - rewrite customHeaders_build_finalConfig in E. by apply (Hc custom k' v').
  - intros E. destruct (builtin_static_names _ _ _ Hin') as [Hk' _].
    rewrite (builtin_names_lower_inj k' k Hk' Hk E) in Hin'. by apply (Hoff v').
Qed.

Lemma disabled_static_header_passes_through_witness :
  let run :=
    middleware (closure None Example.overriding)
      Example.now Example.random36 Example.next Example.store in
  Headers_get (fst run) (headers (Example.returned run)) "X-XSS-Protection" = None.
Proof.
  intros run.
  rewrite (disabled_static_header_passes_through None Example.overriding
             (closure None Example.overriding)
             Example.now Example.random36 Example.next Example.store Example.store
             Example.response (fst run) (Example.returned run) "X-XSS-Protection").
  - reflexivity.
  - reflexivity.
  - vm_compute. tauto.
  - intros v Hin. vm_compute in Hin.
    repeat destruct Hin as [Hin|Hin]; try done; discriminate Hin.
  - intros custom k' v' [=].
  - reflexivity.
  - vm_compute. reflexivity.
Defined.

(** X14.  The [reportOnly] flag selects one of the two CSP header names and
    the middleware writes only that one.  The header of the other name is
    neither written nor removed: unless a custom header names it, the
    response carries what the downstream response carried under it, so in
    report-only mode the middleware itself sets no enforcing policy. *)
Theorem other_csp_header_passes_through NODE_ENV config mw c now random36
    (next : M Response) st0 st response st' resp' :
  tirneHelmet NODE_ENV config = Ok mw ->
  read (csp (finalConfig mw)) = Some c ->
  let other :=
    if truthy (obj_get c "reportOnly") then "Content-Security-Policy"
    else "Content-Security-Policy-Report-Only" in
  (forall custom k v, read (customHeaders config) = Some custom ->
     In (k, v) custom -> toLowerCase k <> toLowerCase other) ->
  next st0 = (st, Ok response) ->
  middleware mw now random36 next st0 = (st', Ok resp') ->
  Headers_get st' (headers resp') other = Headers_get st (headers response) other.
Proof.
  intros Hmw Hc other Hcustom Hnext H. apply tirneHelmet_Ok in Hmw as ->.
  unfold middleware, bind in H. rewrite Hnext in H.
  apply inject_ok in H as (cspValue & Hw & _).
  unfold Headers_get. rewrite Hw, apply_writes_lookup.
  assert (last_write
            (security_writes (closure NODE_ENV config) cspValue now random36) other
          = None) as ->; [|done].
  unfold security_writes. rewrite last_write_app.
  assert (last_write
            (csp_writes (closure NODE_ENV config) cspValue now random36
             ++ permissions_writes (closure NODE_ENV config)
             ++ hsts_writes (closure NODE_ENV config)) other = None) as ->.
  { unfold csp_writes, permissions_writes, hsts_writes, csp_header_name. rewrite Hc.
    subst other.
    destruct (truthy (obj_get c "reportOnly")); destruct (nonce_of c now random36) as [n|];
      try destruct (bool_decide (n <> ""));
      destruct (read (permissionsPolicy (finalConfig (closure NODE_ENV config))));
      destruct (hstsHeader (closure NODE_ENV config)) as [x|];
      try destruct (bool_decide (x <> "")); reflexivity. }
  simpl staticHeaders. apply last_write_None. intros [k v] Hin. simpl.
  apply (proj1 (In_Object_entries _ _)) in Hin.
  apply In_build_staticHeaders_value in Hin as [(custom & E & Hin)|Hin].
  - rewrite customHeaders_build_finalConfig in E. by apply (Hcustom custom k v).
  - destruct (builtin_static_names _ _ _ Hin) as [Hk _].
    unfold builtin_names, optional_static_names in Hk. simpl in Hk. subst other.
    destruct (truthy (obj_get c "reportOnly"));
      repeat destruct Hk as [<-|Hk]; try done; vm_compute; discriminate.
Qed.

Lemma other_csp_header_passes_through_witness :
  let run :=
    middleware (closure None Example.overriding)
      Example.now Example.random36 Example.next Example.store in
  Headers_get (fst run) (headers (Example.returned run)) "Content-Security-Policy" = None
  /\ is_Some (Headers_get (fst run) (headers (Example.returned run))
                "Content-Security-Policy-Report-Only").
Proof.
  intros run. split; [|vm_compute; eauto].
  apply (other_csp_header_passes_through None Example.overriding
           (closure None Example.overriding)
           (spread2 DEFAULT_CSP_CONFIG
              [("imgSrc", CList ["'self'"; "https:"]); ("reportOnly", CBool true)])
           Example.now Example.random36 Example.next Example.store Example.store
           Example.response (fst run) (Example.returned run)).
  - reflexivity.
  - reflexivity.
  - intros custom k v [=].
  - reflexivity.
  - vm_compute. reflexivity.
Defined.

Lemma NoDup_keys_build_staticHeaders final :
  (forall custom, read (customHeaders final) = Some custom ->
     List.NoDup (List.map fst custom)) ->
  List.NoDup (List.map fst (build_staticHeaders final)).
Proof.
  intros Hc. unfold build_staticHeaders.
  assert (forall s8 : Obj string, List.NoDup (List.map fst s8) ->
    List.NoDup (List.map fst match read (customHeaders final) with
                             | Some custom => Object_assign s8 custom
                             | None => s8
                             end)) as Hcustom.
  { intros s8 Hs8. destruct (read (customHeaders final)); [|done].
    by apply NoDup_keys_assign_all. }
  apply Hcustom.
  repeat match goal with
    | |- List.NoDup (List.map fst (match ?x with _ => _ end)) => destruct x
    | |- List.NoDup (List.map fst (obj_set _ _ _)) => apply NoDup_keys_obj_set
    end; constructor.
Qed.

(** X15.  A custom header is sent as given.  When no two custom headers
    share a name ignoring letter case, a custom header whose name is no
    property name of [Object.prototype], is none
    of the per-request headers (the two CSP names, [X-Nonce],
    [Permissions-Policy], [Strict-Transport-Security]) and is no case
    variant of a built-in static header is a header of every returned
    response, with its value stripped of leading and trailing whitespace;
    when it has the exact name of a built-in static header it replaces
    that header. *)
Theorem custom_header_written NODE_ENV config mw custom now random36
    (next : M Response) st0 st response st' resp' k v :
  tirneHelmet NODE_ENV config = Ok mw ->
  read (customHeaders config) = Some custom ->
  List.NoDup (List.map (fun p => toLowerCase (fst p)) custom) ->
  In (k, v) custom ->
  k ∉ Object_prototype_names ->
  ~ In (toLowerCase k) dynamic_names ->
  (forall b, In b builtin_names -> toLowerCase b = toLowerCase k -> b = k) ->
  next st0 = (st, Ok response) ->
  middleware mw now random36 next st0 = (st', Ok resp') ->
  Headers_get st' (headers resp') k = Some (normalize v).
Proof.
  intros Hmw Hcustom Hnd Hin _ Hdyn Hb Hnext H. apply tirneHelmet_Ok in Hmw as ->.
  unfold middleware, bind in H. rewrite Hnext in H.
  apply inject_ok in H as (cspValue & Hw & _).
  unfold Headers_get. rewrite Hw, apply_writes_lookup.
  unfold security_writes. rewrite last_write_app.
  rewrite last_write_dynamic_None' by done. simpl staticHeaders.
  set (final := build_finalConfig config).
  assert (read (customHeaders final) = Some custom) as Hcf.
  { subst final. by rewrite customHeaders_build_finalConfig. }
  assert (List.NoDup (List.map fst custom)) as Hkeys.
  { apply (List.NoDup_map_inv toLowerCase). by rewrite List.map_map. }
  assert (List.NoDup (List.map fst (build_staticHeaders final))) as Hstatic.
  { apply NoDup_keys_build_staticHeaders. intros custom' E.
    rewrite Hcf in E. by injection E as <-. }
  assert (In (k, v) (build_staticHeaders final)) as Hkv.
  { unfold build_staticHeaders. rewrite Hcf. apply obj_get_In.
    rewrite obj_get_Object_assign by done. by rewrite (In_obj_get custom k v). }
  rewrite (last_write_unique _ _ k v); [done| |done|].
  - by apply (proj2 (In_Object_entries _ _)).
  - intros k' v' Hin' Hk'. apply (proj1 (In_Object_entries _ _)) in Hin'.
    assert (k' = k) as ->.
    { apply In_build_staticHeaders_value in Hin' as [(custom' & E & Hc')|Hbs].
      - rewrite Hcf in E. injection E as <-.
        by pose proof (NoDup_map_eq (fun p => toLowerCase (fst p)) custom
                         (k', v') (k, v) Hnd Hc' Hin Hk') as [= -> _].
      - destruct (builtin_static_names _ _ _ Hbs) as [Hname _]. by apply Hb. }
    apply (In_obj_get _ _ _ Hstatic) in Hin'. apply (In_obj_get _ _ _ Hstatic) in Hkv.
    congruence.
Qed.

Lemma custom_header_written_witness :
  let run :=
    middleware (closure None Example.custom_sniff)
      Example.now Example.random36 Example.next Example.store in
  Headers_get (fst run) (headers (Example.returned run)) "X-Content-Type-Options"
  = Some "sniff".
Proof.
  intros run. change (Some "sniff") with (Some (normalize "sniff")).
  apply (custom_header_written None Example.custom_sniff
           (closure None Example.custom_sniff) [("X-Content-Type-Options", "sniff")]
           Example.now Example.random36 Example.next Example.store Example.store
           Example.response (fst run) (Example.returned run)
           "X-Content-Type-Options" "sniff").
  - reflexivity.
  - reflexivity.
  - apply NoDup_ListNoDup. apply (bool_decide_unpack _). vm_compute. exact I.
  - by left.
  - apply (bool_decide_unpack _). vm_compute. exact I.
  - vm_compute. intuition discriminate.
  - intros b Hb E. unfold builtin_names, optional_static_names in Hb. simpl in Hb.
    repeat destruct Hb as [<-|Hb]; try done; vm_compute in E; discriminate E.
  - reflexivity.
  - vm_compute. reflexivity.
Defined.

(** ** Custom headers that [Headers.set] refuses *)

Lemma is_Some_obj_get_set {V} (o : Obj V) k k' v :
  is_Some (obj_get o k) -> is_Some (obj_get (obj_set o k' v) k).
Proof.
  intros H. destruct (decide (k' = k)) as [->|Hne].
  - rewrite obj_get_set_eq. eauto.
  - by rewrite obj_get_set_ne.
Qed.

Lemma is_Some_assign_all_keep {V} (l : list (string * V)) (t : Obj V) k :
  is_Some (obj_get t k) -> is_Some (obj_get (assign_all l t) k).
Proof.
  revert t. induction l as [|[k' v'] l IH]; intros t H; [done|].
  cbn [assign_all fold_left]. apply IH. by apply is_Some_obj_get_set.
Qed.

Lemma is_Some_assign_all {V} (l : list (string * V)) (t : Obj V) k v :
  In (k, v) l -> is_Some (obj_get (assign_all l t) k).
Proof.
  revert t. induction l as [|[k' v'] l IH]; intros t Hin; [done|].
  cbn [assign_all fold_left]. destruct Hin as [[= -> ->]|Hin]; [|by apply IH].
  apply is_Some_assign_all_keep. simpl. rewrite obj_get_set_eq. eauto.
Qed.

Lemma for_of_set_invalid h ws st k v :
  In (k, v) ws -> valid_name k = false ->
  exists st',
    for_of ws (fun p => Headers_set h (fst p) (snd p)) st
    = (st', Throw (TypeError "Invalid header name or value")).
Proof.
  intros Hin Hk. revert st. induction ws as [|[k' v'] ws IH]; intros st; [done|].
  cbn [for_of]. unfold bind.
  destruct (Headers_set h (fst (k', v')) (snd (k', v')) st) as [st1 [[]|e]] eqn:E.
  - destruct Hin as [[= -> ->]|Hin]; [|by apply IH].
    unfold Headers_set in E. simpl in E. rewrite Hk in E. done.
  - apply Headers_set_throw in E as [-> ->]. eauto.
Qed.

(** X16.  Custom header names are not checked when the middleware is
    built.  A configuration with a custom header whose name is not a valid
    header name (empty, or with a space, a colon or another character
    that is no token character) is accepted, and then every request fails:
    once the downstream handler has returned its response, the middleware
    throws a [TypeError], as [Headers.set] does, instead of returning a
    response. *)
Theorem invalid_custom_header_name_throws NODE_ENV config mw custom k v now random36
    (next : M Response) st0 st response :
  tirneHelmet NODE_ENV config = Ok mw ->
  read (customHeaders config) = Some custom ->
  In (k, v) custom ->
  valid_name k = false ->
  next st0 = (st, Ok response) ->
  exists st' message,
    middleware mw now random36 next st0 = (st', Throw (TypeError message)).
Proof.
  intros Hmw Hcustom Hin Hk Hnext. apply tirneHelmet_Ok in Hmw as ->.
  unfold middleware, bind at 1. rewrite Hnext. unfold inject.
  destruct (new_Headers_ok (headers response) st) as (h & st1 & E1 & _).
  unfold bind at 1. rewrite E1.
  assert (exists v', In (k, v') (Object_entries (staticHeaders (closure NODE_ENV config))))
    as [v' Hin'].
  { simpl staticHeaders. unfold build_staticHeaders.
    rewrite customHeaders_build_finalConfig, Hcustom.
    match goal with
    | |- exists v', In _ (Object_entries (Object_assign ?s8 custom)) =>
        destruct (is_Some_assign_all (Object_entries custom) s8 k v) as [v' Hv']
    end.
    { by apply (proj2 (In_Object_entries _ _)). }
    exists v'. apply (proj2 (In_Object_entries _ _)). by apply obj_get_In. }
  destruct (for_of_set_invalid h _ st1 k v' Hin' Hk) as [st2 E2].
  unfold bind at 1. rewrite E2. eauto.
Qed.

Lemma invalid_custom_header_name_throws_witness :
  exists st' message,
    middleware (closure None invalid_custom)
      Example.now Example.random36 Example.next Example.store
    = (st', Throw (TypeError message)).
Proof.
  apply (invalid_custom_header_name_throws None invalid_custom
           (closure None invalid_custom) [("X Custom", "v")] "X Custom" "v"
           Example.now Example.random36 Example.next Example.store Example.store
           Example.response).
  - reflexivity.
  - reflexivity.
  - by left.
  - reflexivity.
  - reflexivity.
Defined.

(** ** The HSTS value *)



